(** * Embryo transition windows: a shallow embedding of the windowing code

    The development follows [Training/DataSet.py] (class
    [Embryo_Transition_Dataset]), [WebApplication/Classes/Doctor.py]
    (method [predictTransitions]) and
    [WebApplication/Routes/Doctor_Routes.py] (handler [Embryo_Predict]),
    and, around them, [Training/Load_data.py] ([get_dataloaders]),
    [Training/config_args.py] (class [ConfigArgs]) and the row-building
    loops of [process_annotations] in [Training/preProcess.py].

    Python values are modelled as follows: [int] is [Z] (indices produced
    by [enumerate] and lengths are [nat]), [str] is the [string] of
    its UTF-8 bytes, a [list] is a [list], the [dict] built by a comprehension is
    a [gmap], the insertion-ordered [defaultdict] whose iteration order
    matters is an association list, and a raised exception is the [Raise]
    branch of [result]. *)

From Stdlib Require Import ZArith String Ascii List Lia.
From stdpp Require Import base tactics option list strings gmap sorting pretty.

Open Scope Z_scope.
Set Warnings "-clear-no-such-hyp".

(** ** Python primitives *)

Module Py.

Inductive exn : Type :=
| IndexError (msg : string)
| KeyError (key : string)
| ValueError (msg : string)
| RuntimeError (msg : string).

Inductive result (A : Type) : Type :=
| Ok (a : A)
| Raise (e : exn).
Arguments Ok {A} a.
Arguments Raise {A} e.

#[export] Instance result_ret : MRet result := λ A a, Ok a.
#[export] Instance result_bind : MBind result := λ A B f m,
  match m with Ok a => f a | Raise e => Raise e end.
#[export] Instance result_fmap : FMap result := λ A B f m,
  match m with Ok a => Ok (f a) | Raise e => Raise e end.

#[export] Instance exn_eq_dec : EqDecision exn.
Proof. solve_decision. Defined.
#[export] Instance result_eq_dec `{EqDecision A} : EqDecision (result A).
Proof. solve_decision. Defined.

Definition is_Ok {A} (m : result A) : bool :=
  match m with Ok _ => true | Raise _ => false end.

(** [str(e)] *)
Definition str_exn (e : exn) : string :=
  match e with
  | IndexError msg | ValueError msg | RuntimeError msg => msg
  | KeyError key => "'" +:+ key +:+ "'"
  end.

(** [for x in items: s = body(s, x)], stopping at the first exception. *)
Fixpoint for_loop {S I : Type} (body : S → I → result S) (items : list I) (s : S)
    : result S :=
  match items with
  | [] => Ok s
  | i :: rest => s' ← body s i; for_loop body rest s'
  end.

(** [len(range(lo, hi, step))] as CPython computes it. *)
Definition range_len (lo hi step : Z) : Z :=
  if (0 <? step) && (lo <? hi) then 1 + (hi - 1 - lo) `div` step
  else if (step <? 0) && (hi <? lo) then 1 + (lo - 1 - hi) `div` (- step)
  else 0.

(** [list(range(start, stop, step))]; a zero step raises. *)
Definition range (start stop step : Z) : result (list Z) :=
  if step =? 0 then Raise (ValueError "range() arg 3 must not be zero")
  else Ok ((λ k, start + k * step) <$> seqZ 0 (range_len start stop step)).

(** Bound of a slice: negative bounds count from the end, and both are
    clamped to the list. *)
Definition slice_bound (len i : Z) : nat :=
  Z.to_nat (if i <? 0 then Z.max 0 (i + len) else Z.min i len).

(** [l[lo:hi]] *)
Definition slice {A} (l : list A) (lo hi : Z) : list A :=
  let n := Z.of_nat (length l) in
  let a := slice_bound n lo in
  let b := slice_bound n hi in
  take (b - a) (drop a l).

(** [l[i]], with negative indices counted from the end. *)
Definition index {A} (l : list A) (i : Z) : result A :=
  let j := if i <? 0 then i + Z.of_nat (length l) else i in
  if j <? 0 then Raise (IndexError "list index out of range")
  else match l !! Z.to_nat j with
       | Some x => Ok x
       | None => Raise (IndexError "list index out of range")
       end.

(** [d[k]] on a dict with string keys. *)
Definition getitem {V} (d : gmap string V) (k : string) : result V :=
  match d !! k with
  | Some v => Ok v
  | None => Raise (KeyError k)
  end.

(** [[f(x) for x in l]], stopping at the first exception. *)
Fixpoint comprehension {A B} (f : A → result B) (l : list A) : result (list B) :=
  match l with
  | [] => Ok []
  | x :: l' => y ← f x; ys ← comprehension f l'; Ok (y :: ys)
  end.

(** [s.split("_")]: the tokens between underscores; never empty. *)
Fixpoint split_underscore (s : string) : list string :=
  match s with
  | EmptyString => [EmptyString]
  | String c s' =>
      if Ascii.eqb c "_"%char then EmptyString :: split_underscore s'
      else match split_underscore s' with
           | t :: ts => String c t :: ts
           | [] => [String c EmptyString]
           end
  end.

(** *** Text

    A [str] is kept as its UTF-8 bytes; [code_points] reads them back. A
    byte that is part of no well-formed sequence stands for a character
    of its own, which is no digit. *)

Definition byte (c : ascii) : N := N_of_ascii c.

Definition continuation (c : ascii) : bool :=
  ((128 <=? byte c) && (byte c <? 192))%N.

Fixpoint code_points (s : string) : list N :=
  match s with
  | EmptyString => []
  | String c0 s0 =>
      let b0 := byte c0 in
      let undecodable := ((56320 + b0)%N :: code_points s0) in
      if (b0 <? 128)%N then b0 :: code_points s0
      else
        match s0 with
        | EmptyString => undecodable
        | String c1 s1 =>
            if negb (continuation c1) then undecodable
            else if ((194 <=? b0) && (b0 <? 224))%N then
              ((b0 - 192) * 64 + (byte c1 - 128))%N :: code_points s1
            else
              match s1 with
              | EmptyString => undecodable
              | String c2 s2 =>
                  if negb (continuation c2) then undecodable
                  else if ((224 <=? b0) && (b0 <? 240))%N then
                    let cp := ((b0 - 224) * 4096 + (byte c1 - 128) * 64
                               + (byte c2 - 128))%N in
                    if ((2048 <=? cp) && negb ((55296 <=? cp) && (cp <? 57344)))%N
                    then cp :: code_points s2
                    else undecodable
                  else
                    match s2 with
                    | EmptyString => undecodable
                    | String c3 s3 =>
                        if negb (continuation c3) then undecodable
                        else if ((240 <=? b0) && (b0 <? 245))%N then
                          let cp := ((b0 - 240) * 262144 + (byte c1 - 128) * 4096
                                     + (byte c2 - 128) * 64 + (byte c3 - 128))%N in
                          if ((65536 <=? cp) && (cp <? 1114112))%N
                          then cp :: code_points s3
                          else undecodable
                        else undecodable
                    end
              end
        end
  end.

(** The decimal digits of Unicode 14, the characters that [\d] matches
    and that [int] reads: each entry is the digit zero of a script, the
    nine code points after it are its digits one to nine. *)
Definition decimal_zeros : list N :=
  [48; 1632; 1776; 1984; 2406; 2534; 2662; 2790; 2918; 3046; 3174; 3302;
   3430; 3558; 3664; 3792; 3872; 4160; 4240; 6112; 6160; 6470; 6608; 6784;
   6800; 6992; 7088; 7232; 7248; 42528; 43216; 43264; 43472; 43504; 43600;
   44016; 65296; 66720; 68912; 69734; 69872; 69942; 70096; 70384; 70736;
   70864; 71248; 71360; 71472; 71904; 72016; 72784; 73040; 73120; 92768;
   92864; 93008; 120782; 120792; 120802; 120812; 120822; 123200; 123632;
   125264; 130032]%N.

Fixpoint decimal_in (zeros : list N) (cp : N) : option N :=
  match zeros with
  | [] => None
  | zero :: zeros' =>
      if ((zero <=? cp) && (cp <? zero + 10))%N then Some (cp - zero)%N
      else decimal_in zeros' cp
  end.

(** The value of a decimal digit, [None] for any other character. *)
Definition decimal (cp : N) : option N := decimal_in decimal_zeros cp.

(** [\d] *)
Definition is_digit (cp : N) : bool :=
  match decimal cp with Some _ => true | None => false end.

Definition emit_run (run : list N) : list (list N) :=
  match run with [] => [] | _ => [run] end.

(** Scanner behind [re.findall(r"\d+", s)] on the characters of [s]:
    [run] is the digit run read so far; a maximal run is emitted when it
    ends.  A match is given by its characters. *)
Fixpoint findall_from (run s : list N) : list (list N) :=
  match s with
  | [] => emit_run run
  | c :: s' =>
      if is_digit c then findall_from (run ++ [c]) s'
      else emit_run run ++ findall_from [] s'
  end.

Definition findall_digits (s : string) : list (list N) :=
  findall_from [] (code_points s).

Definition digit_value (cp : N) : Z := Z.of_N (default 0%N (decimal cp)).

Fixpoint int_from (acc : Z) (run : list N) : Z :=
  match run with
  | [] => acc
  | c :: run' => int_from (10 * acc + digit_value c) run'
  end.

(** [int(s)] for a run of decimal digits, with the interpreter's limit on
    the number of digits ([sys.set_int_max_str_digits]) lifted. *)
Definition int (run : list N) : Z := int_from 0 run.

(** Stable insertion by key: [x] goes before the first element whose key
    is not smaller, so equal keys keep their input order. *)
Fixpoint insert_by_key {A} (k : Z) (x : A) (l : list (Z * A)) : list (Z * A) :=
  match l with
  | [] => [(k, x)]
  | (k', y) :: l' =>
      if k <=? k' then (k, x) :: (k', y) :: l'
      else (k', y) :: insert_by_key k x l'
  end.

Definition sort_keyed {A} (l : list (Z * A)) : list (Z * A) :=
  foldr (λ kx acc, insert_by_key kx.1 kx.2 acc) [] l.

(** [sorted(l, key=key)]: every key is computed first, in order; the sort
    is stable. *)
Definition sorted {A} (key : A → result Z) (l : list A) : result (list A) :=
  keys ← comprehension key l;
  Ok ((sort_keyed (zip keys l)).*2).

(** *** The [random] module

    The generator is a library outside the repository; the code only
    relies on its contract.  [random.sample] and [random.shuffle] pick
    positions from the generator state and the length of their argument
    alone (they never inspect the elements), so both are given by the
    positions they choose. *)

Class PyRandom := {
  rng : Type;
  (** [random.seed(a)] *)
  rng_seed : Z → rng;
  (** positions drawn by [random.sample] from a population of [n], [k] draws *)
  sample_positions : rng → nat → nat → list nat * rng;
  (** the rearrangement applied by [random.shuffle] to a list of [n] items *)
  shuffle_positions : rng → nat → list nat * rng;
  (** [random.randint(0, 1)] *)
  randint01 : rng → Z * rng
}.

(** What the library documents: a sample is drawn without replacement,
    a shuffle rearranges, [randint(0, 1)] is 0 or 1. *)
Class RandomContract (R : PyRandom) : Prop := {
  sample_positions_length g n k :
    (k ≤ n)%nat → length (sample_positions g n k).1 = k;
  sample_positions_NoDup g n k :
    (k ≤ n)%nat → NoDup (sample_positions g n k).1;
  sample_positions_lt g n k :
    (k ≤ n)%nat → Forall (λ p, p < n)%nat (sample_positions g n k).1;
  shuffle_positions_perm g n : (shuffle_positions g n).1 ≡ₚ seq 0 n;
  randint01_range g : (randint01 g).1 = 0 ∨ (randint01 g).1 = 1
}.

(** The elements of [l] at the given positions, in that order. *)
Definition pick {A} (l : list A) (ps : list nat) : list A :=
  omap (λ p, l !! p) ps.

(** [random.sample(population, k)] *)
Definition random_sample `{PyRandom} {A} (g : rng) (population : list A) (k : nat)
    : result (list A * rng) :=
  if decide (k ≤ length population)%nat then
    let r := sample_positions g (length population) k in
    Ok (pick population r.1, r.2)
  else Raise (ValueError "Sample larger than population or is negative").

(** [random.shuffle(x)], returning the list as it is afterwards. *)
Definition random_shuffle `{PyRandom} {A} (g : rng) (x : list A) : list A * rng :=
  let r := shuffle_positions g (length x) in
  (pick x r.1, r.2).

End Py.

(** ** [Training/DataSet.py] *)

Module DataSet.
Import Py.

(** One line of the split CSV.  [phase_col] and [path_col] are at their
    defaults, so [Phase] and [Path] are also the columns they name. *)
Record Row := {
  Video_name : string;
  Identifier : string;
  Path : string;
  Phase : string;
  UsedFor : string
}.

(** The dict stored per frame by [_create_sequences]. *)
Record Frame := {
  identifier : string;
  path : string;
  phase : string
}.

#[export] Instance Row_eq_dec : EqDecision Row.
Proof. solve_decision. Defined.
#[export] Instance Frame_eq_dec : EqDecision Frame.
Proof. solve_decision. Defined.

Definition chronological_phases : list string :=
  ["tPB2"; "tPNa"; "tPNf"; "t2"; "t3"; "t4"; "t5"; "t6"; "t7"; "t8";
   "t9+"; "tM"; "tSB"; "tB"; "tEB"].

(** The attributes of [self] that the windowing code reads and writes. *)
Record Dataset := {
  window_size : Z;
  stride : Z;
  multiple_phases : bool;
  mode : string;
  data_frame : list Row;
  phase_labels : list string;
  phase_to_index : gmap string nat;
  video_sequences : list (list Frame)
}.

Definition with_video_sequences (vs : list (list Frame)) (self : Dataset) : Dataset :=
  {| window_size := window_size self;
     stride := stride self;
     multiple_phases := multiple_phases self;
     mode := mode self;
     data_frame := data_frame self;
     phase_labels := phase_labels self;
     phase_to_index := phase_to_index self;
     video_sequences := vs |}.

(** *** pandas

    The two seeded draws of [__init__] belong to pandas; they are taken
    as given functions of the seed. *)
Class Pandas := {
  (** [series.sample(n=n, random_state=seed)] *)
  sample_n : Z → Z → list string → result (list string);
  (** [df.sample(frac=1, random_state=seed).reset_index(drop=True)] *)
  sample_frac1 : Z → list Row → list Row
}.

(** What the windowing code relies on: [sample(n=n)] draws [n] of the
    names without replacement, and [sample(frac=1)] returns every row
    once, in some order. *)
Class PandasContract (P : Pandas) : Prop := {
  sample_n_elem_of seed n names ids x :
    sample_n seed n names = Ok ids → x ∈ ids → x ∈ names;
  sample_n_length seed n names ids :
    sample_n seed n names = Ok ids → Z.of_nat (length ids) = n;
  sample_n_NoDup seed n names ids :
    NoDup names → sample_n seed n names = Ok ids → NoDup ids;
  sample_frac1_Permutation seed rows : sample_frac1 seed rows ≡ₚ rows
}.

(** [series.drop_duplicates()]: first occurrences, in order. *)
Definition drop_duplicates (l : list string) : list string :=
  foldl (λ seen x, if decide (x ∈ seen) then seen else seen ++ [x]) [] l.

(** Loading and filtering of the CSV at the start of [__init__]. *)
Definition load_dataset `{Pandas} (csv : list Row) (seed : Z) (used_for : string)
    (NumberOfVideos : Z) : result (list Row) :=
  let df := filter (λ r, UsedFor r = used_for) csv in
  let df := filter (λ r, Phase r ≠ "tHB") df in
  df ← (if NumberOfVideos =? 0 then Ok df
        else
          selected_ids ← sample_n seed NumberOfVideos
                            (drop_duplicates (Video_name <$> df));
          Ok (filter (λ r, Video_name r ∈ selected_ids) df));
  Ok (sample_frac1 seed df).

(** [[p for p in chronological_phases if p in df[phase_col].unique()]] *)
Definition present_phases (df : list Row) : list string :=
  filter (λ p, p ∈ Phase <$> df) chronological_phases.

Definition enumerate {A} (l : list A) : list (nat * A) := imap (λ i x, (i, x)) l.

(** [{label: index for index, label in enumerate(labels)}]: entries are
    stored in order, a later one replacing an earlier one. *)
Definition index_mapping (labels : list string) : gmap string nat :=
  foldl (λ d il, <[il.2 := il.1]> d) ∅ (enumerate labels).

(** *** [_create_sequences] *)

(** [grouped[video].append(frame)] on the insertion-ordered dict. *)
Fixpoint grouped_append (video : string) (frame : Frame)
    (grouped : list (string * list Frame)) : list (string * list Frame) :=
  match grouped with
  | [] => [(video, [frame])]
  | (v, frames) :: rest =>
      if decide (v = video) then (v, frames ++ [frame]) :: rest
      else (v, frames) :: grouped_append video frame rest
  end.

(** [{"identifier": identifier, "path": path, "phase": phase}] *)
Definition frame_of (row : Row) : Frame :=
  {| identifier := Identifier row; path := Path row; phase := Phase row |}.

Definition group_rows (rows : list Row) : list (string * list Frame) :=
  foldl (λ grouped row, grouped_append (Video_name row) (frame_of row) grouped)
        [] rows.

(** The sort key:
    [int(re.findall(r"\d+", x["identifier"].split("_")[-1])[0])] *)
Definition ordinal (x : Frame) : result Z :=
  token ← index (split_underscore (identifier x)) (-1);
  run ← index (findall_digits token) 0;
  Ok (int run).

(** Body of the [for start in range(...)] loop; the accumulator is
    [self.video_sequences].  Returning the accumulator unchanged is the
    [continue]. *)
Definition window_body (self : Dataset) (sorted_frames : list Frame)
    (acc : list (list Frame)) (start : Z) : result (list (list Frame)) :=
  let sequence := slice sorted_frames start (start + window_size self) in
  if multiple_phases self then Ok (acc ++ [sequence])
  else
    let unique_phases := elements (list_to_set (phase <$> sequence) : gset string) in
    if decide (2 < length unique_phases)%nat then Ok acc
    else if decide (length unique_phases = 2%nat) then
      phase_indices ← comprehension (getitem (phase_to_index self)) unique_phases;
      let phase_indices := merge_sort Nat.le phase_indices in
      hi ← index phase_indices 1;
      lo ← index phase_indices 0;
      if decide (hi ≠ lo + 1)%nat then Ok acc else Ok (acc ++ [sequence])
    else Ok (acc ++ [sequence]).

(** Body of the [for video, frames in grouped.items()] loop. *)
Definition video_body (self : Dataset) (acc : list (list Frame))
    (entry : string * list Frame) : result (list (list Frame)) :=
  sorted_frames ← sorted ordinal entry.2;
  starts ← range 0 (Z.of_nat (length sorted_frames) - window_size self + 1)
                 (stride self);
  for_loop (window_body self sorted_frames) starts acc.

Definition _create_sequences (self : Dataset) : result Dataset :=
  let grouped := group_rows (data_frame self) in
  vs ← for_loop (video_body self) grouped (video_sequences self);
  Ok (with_video_sequences vs self).

(** The final underscore-delimited token of an identifier, and the first
    run of digits of a token, written out directly; [ordinal] is compared
    with them below. *)
Fixpoint has_underscore (s : string) : bool :=
  match s with
  | EmptyString => false
  | String c s' => Ascii.eqb c "_"%char || has_underscore s'
  end.

Fixpoint last_token (s : string) : string :=
  match s with
  | EmptyString => EmptyString
  | String c s' =>
      if has_underscore s' then last_token s'
      else if Ascii.eqb c "_"%char then s'
      else String c s'
  end.

Fixpoint leading_digits (s : list N) : list N :=
  match s with
  | [] => []
  | c :: s' => if is_digit c then c :: leading_digits s' else []
  end.

Fixpoint first_run (s : list N) : list N :=
  match s with
  | [] => []
  | c :: s' => if is_digit c then leading_digits s else first_run s'
  end.

(** The characters of the first run of digits of a token. *)
Definition first_digit_run (s : string) : list N := first_run (code_points s).

(** A text of the digits [0] to [9] only. *)
Fixpoint digits_only (s : string) : bool :=
  match s with
  | EmptyString => true
  | String c s' => ((48 <=? byte c) && (byte c <=? 57))%N && digits_only s'
  end.

(** The windows cut by the [for start in range(...)] loop of one video,
    before any of them is dropped. *)
Definition candidate_windows (self : Dataset) (sorted_frames : list Frame)
    : result (list (list Frame)) :=
  starts ← range 0 (Z.of_nat (length sorted_frames) - window_size self + 1)
                 (stride self);
  Ok ((λ start, slice sorted_frames start (start + window_size self))
        <$> (starts : list Z)).

(** The candidate windows of one video, from its frames as grouped. *)
Definition video_windows (self : Dataset) (frames : list Frame)
    : result (list (list Frame)) :=
  sorted_frames ← sorted ordinal frames;
  candidate_windows self sorted_frames.

(** The distinct phases of a window. *)
Definition distinct_phases (sequence : list Frame) : gset string :=
  list_to_set (phase <$> sequence).

(** Two phases whose indices differ by exactly one. *)
Definition adjacent (index_of : string → option nat) (p q : string) : Prop :=
  ∃ i j : nat, index_of p = Some i ∧ index_of q = Some j
               ∧ (j = i + 1 ∨ i = j + 1)%nat.

(** The strict rule on a window: at most one distinct phase, or exactly
    two with adjacent indices. *)
Definition coherent (index_of : string → option nat) (sequence : list Frame) : Prop :=
  (size (distinct_phases sequence) ≤ 1)%nat
  ∨ ∃ p q, p ≠ q ∧ distinct_phases sequence = {[p; q]} ∧ adjacent index_of p q.

(** Position of a phase in the fixed chronology. *)
Definition chronology_index (p : string) : option nat :=
  fst <$> list_find (λ q, q = p) chronological_phases.

(** *** [_balance_flags] *)

(** [[self.phase_to_index[frame["phase"]] for frame in seq]] *)
Definition labels_of (self : Dataset) (seq : list Frame) : result (list nat) :=
  comprehension (λ frame, getitem (phase_to_index self) (phase frame)) seq.

(** [labels[0] == labels[-1]] *)
Definition same_ends (labels : list nat) : result bool :=
  first ← index labels 0;
  last ← index labels (-1);
  Ok (bool_decide (first = last)).

Definition partition_body (self : Dataset)
    (acc : list (list Frame) * list (list Frame)) (seq : list Frame)
    : result (list (list Frame) * list (list Frame)) :=
  labels ← labels_of self seq;
  same ← same_ends labels;
  Ok (if same : bool then (acc.1 ++ [seq], acc.2) else (acc.1, acc.2 ++ [seq])).

(** The flag of a window, derived as in [partition_body]. *)
Definition flag_of (self : Dataset) (seq : list Frame) : result Z :=
  labels ← labels_of self seq;
  same ← same_ends labels;
  Ok (if same : bool then 0 else 1).

(** A window as the data model has it: at least one frame, every phase
    in the index mapping. *)
Definition well_formed (self : Dataset) (seq : list Frame) : Prop :=
  seq ≠ [] ∧ Forall (λ frame, is_Some (phase_to_index self !! phase frame)) seq.

#[export] Instance well_formed_dec self seq : Decision (well_formed self seq).
Proof. unfold well_formed. apply _. Defined.

(** The generator is the state of the [random] module; [g] is its state
    on entry. *)
Definition _balance_flags `{PyRandom} (g : rng) (self : Dataset)
    : result (Dataset * rng) :=
  parts ← for_loop (partition_body self) (video_sequences self) ([], []);
  let flag_0_seqs := parts.1 in
  let flag_1_seqs := parts.2 in
  let n := Nat.min (length flag_0_seqs) (length flag_1_seqs) in
  let g := rng_seed 42 in
  s0 ← random_sample g flag_0_seqs n;
  s1 ← random_sample s0.2 flag_1_seqs n;
  let shuffled := random_shuffle s1.2 (s0.1 ++ s1.1) in
  Ok (with_video_sequences shuffled.1 self, shuffled.2).

(** *** Diagnostics

    Printing is left out; what remains is what the two reports compute
    and the exceptions they can raise. *)

Definition flag_count_body (self : Dataset) (acc : Z * Z) (seq : list Frame)
    : result (Z * Z) :=
  labels ← labels_of self seq;
  same ← same_ends labels;
  Ok (if same : bool then (acc.1 + 1, acc.2) else (acc.1, acc.2 + 1)).

Definition _print_flag_consistency (self : Dataset) : result (Z * Z) :=
  for_loop (flag_count_body self) (video_sequences self) (0, 0).

Definition matrix_body (self : Dataset) (transition_matrix : list (list Z))
    (sequence : list Frame) : result (list (list Z)) :=
  first_frame ← index sequence 0;
  first_phase ← getitem (phase_to_index self) (phase first_frame);
  last_frame ← index sequence (-1);
  last_phase ← getitem (phase_to_index self) (phase last_frame);
  row ← index transition_matrix (Z.of_nat first_phase);
  cell ← index row (Z.of_nat last_phase);
  Ok (<[first_phase := <[last_phase := cell + 1]> row]> transition_matrix).

Definition _print_transition_matrix (self : Dataset) : result (list (list Z)) :=
  let num_phases := length (phase_labels self) in
  for_loop (matrix_body self) (video_sequences self)
           (replicate num_phases (replicate num_phases 0)).

(** A window whose first frame has phase index [i] and whose last frame
    has phase index [j]; the cell [(i, j)] of a matrix. *)
Definition ends_in (self : Dataset) (i j : nat) (sequence : list Frame) : Prop :=
  (head sequence ≫= λ frame, phase_to_index self !! phase frame) = Some i
  ∧ (last sequence ≫= λ frame, phase_to_index self !! phase frame) = Some j.

#[export] Instance ends_in_dec self i j sequence : Decision (ends_in self i j sequence).
Proof. unfold ends_in. apply _. Defined.

Definition cell (transition_matrix : list (list Z)) (i j : nat) : option Z :=
  transition_matrix !! i ≫= λ row, row !! j.

(** *** [__init__] *)

(** [__init__] up to and including [self._create_sequences()]. *)
Definition build_sequences `{Pandas} (csv : list Row) (seed : Z)
    (window_size stride : Z) (UsedFor : string) (NumberOfVideos : Z)
    (multiple_phases : bool) (mode : string) : result Dataset :=
  df_dataset ← load_dataset csv seed UsedFor NumberOfVideos;
  let phase_labels := present_phases df_dataset in
  _create_sequences
    {| window_size := window_size;
       stride := stride;
       multiple_phases := multiple_phases;
       mode := mode;
       data_frame := df_dataset;
       phase_labels := phase_labels;
       phase_to_index := index_mapping phase_labels;
       video_sequences := [] |}.

(** The rest of [__init__]: optional balancing, then the two reports. *)
Definition finish_init `{PyRandom} (balance_flags : bool) (g : rng) (self : Dataset)
    : result (Dataset * rng) :=
  balanced ← (if balance_flags then _balance_flags g self else Ok (self, g));
  _ ← _print_flag_consistency balanced.1;
  _ ← _print_transition_matrix balanced.1;
  Ok balanced.

Definition __init__ `{Pandas} `{PyRandom} (csv : list Row) (seed : Z)
    (window_size stride : Z) (UsedFor : string) (NumberOfVideos : Z)
    (balance_flags multiple_phases : bool) (mode : string) (g : rng)
    : result (Dataset * rng) :=
  self ← build_sequences csv seed window_size stride UsedFor NumberOfVideos
                         multiple_phases mode;
  finish_init balance_flags g self.

Definition __len__ (self : Dataset) : Z := Z.of_nat (length (video_sequences self)).

(** *** [__getitem__]

    Opening and transforming an image, and the tensor operations, are
    outside the windowing code. *)
Class Imaging := {
  Image : Type;
  Tensor : Type;
  (** the [try] block: [None] when it raises *)
  load_image : string → option Image;
  (** [torch.stack(images_seq, dim=0)] *)
  stack_video : list Image → result Tensor;
  (** grey-scale each image, stack, squeeze *)
  stack_image_seq : list Image → result Tensor
}.

(** Body of [for frame in sequence]; [None] records that the method has
    already returned [None]. *)
Definition getitem_body `{Imaging} (self : Dataset)
    (acc : option (list Image * list nat * list string)) (frame : Frame)
    : result (option (list Image * list nat * list string)) :=
  match acc with
  | None => Ok None
  | Some (images_seq, labels, identifiers) =>
      match load_image (path frame) with
      | None => Ok None
      | Some image =>
          label ← getitem (phase_to_index self) (phase frame);
          Ok (Some (images_seq ++ [image], labels ++ [label],
                    identifiers ++ [identifier frame]))
      end
  end.

(** The returned tuple is
    [(images_seq, consistency_flag, first_frame_phase, last_frame_phase)]. *)
Definition __getitem__ `{Imaging} (self : Dataset) (idx : Z)
    : result (option (Tensor * Z * nat * nat)) :=
  sequence ← index (video_sequences self) idx;
  loaded ← for_loop (getitem_body self) sequence (Some ([], [], []));
  match loaded with
  | None => Ok None
  | Some (images_seq, labels, identifiers) =>
      images_seq ←
        (if decide (mode self = "video") then stack_video images_seq
         else if decide (mode self = "image_seq") then stack_image_seq images_seq
         else Raise (ValueError ("Unknown mode " +:+ mode self)));
      if decide (Z.of_nat (length identifiers) ≠ window_size self) then
        Raise (ValueError ("Identifier count (" +:+ pretty (length identifiers)
                           +:+ ") != window size (" +:+ pretty (window_size self)
                           +:+ ")"))
      else
        first_frame ← index sequence 0;
        first_frame_phase ← getitem (phase_to_index self) (phase first_frame);
        last_frame ← index sequence (-1);
        last_frame_phase ← getitem (phase_to_index self) (phase last_frame);
        first_label ← index labels 0;
        last_label ← index labels (-1);
        let consistency_flag := if decide (first_label = last_label) then 0 else 1 in
        Ok (Some (images_seq, consistency_flag, first_frame_phase, last_frame_phase))
  end.

End DataSet.

(** ** [Training/Load_data.py] *)

Module Load_data.
Import Py DataSet.

(** The keyword arguments that [get_dataloaders] reads; [None] for one
    that is not passed. *)
Record kwargs := {
  FocalType : option string;
  Balance_Flags : option bool;
  Multiple_Phases : option bool
}.

(** What [get_dataloaders] takes from [torch.utils.data]: the
    constructor [DataLoader(dataset, batch_size=.., shuffle=..,
    pin_memory=.., num_workers=..)], which checks its arguments and can
    raise (a shuffling loader refuses a dataset of length zero), and the
    attribute [dataset] of a loader. *)
Class Torch := {
  Loader : Type;
  DataLoader : Dataset → Z → bool → bool → Z → result Loader;
  dataset : Loader → Dataset
}.

(** A loader holds the dataset it was built on. *)
Class TorchContract `{Torch} := {
  DataLoader_dataset : ∀ set batch_size shuffle pin_memory num_workers loader,
    DataLoader set batch_size shuffle pin_memory num_workers = Ok loader →
    dataset loader = set
}.

(** The three loaders, in the order train, validation, test.  [read_csv]
    gives the rows of the split file of a focal type; [WINDOW_SIZE],
    [STRIDE], [DATA_LOADER], [BATCH_SIZE] and [NUM_WORKERS] are the module
    constants read from the configuration. *)
Definition get_dataloaders `{Pandas} `{PyRandom} `{Torch}
    (read_csv : string → list Row)
    (WINDOW_SIZE STRIDE : Z) (DATA_LOADER : string) (BATCH_SIZE NUM_WORKERS : Z)
    (kw : kwargs) (g : rng)
    : result (Loader * Loader * Loader * rng) :=
  let focal_type := default "F0" (FocalType kw) in
  let balance_flags := default false (Balance_Flags kw) in
  let multiple_phases := default false (Multiple_Phases kw) in
  train_set ← __init__ (read_csv focal_type) 42 WINDOW_SIZE STRIDE "Train" 0
                       balance_flags multiple_phases DATA_LOADER g;
  val_set ← __init__ (read_csv focal_type) 42 WINDOW_SIZE STRIDE "Val" 0
                     balance_flags multiple_phases DATA_LOADER train_set.2;
  test_set ← __init__ (read_csv focal_type) 42 WINDOW_SIZE STRIDE "Test" 0
                      balance_flags multiple_phases DATA_LOADER val_set.2;
  train_loader ← DataLoader train_set.1 BATCH_SIZE true true NUM_WORKERS;
  val_loader ← DataLoader val_set.1 BATCH_SIZE false true NUM_WORKERS;
  test_loader ← DataLoader test_set.1 BATCH_SIZE false true NUM_WORKERS;
  Ok (train_loader, val_loader, test_loader, test_set.2).

End Load_data.

(** ** [Training/config_args.py] *)

Module config_args.
Import Py.

(** What the class takes from [configparser] and from the converters
    handed to [argparse]: the four getters of the parser once the file is
    read, each with its fallback as last argument, and [int] and [float]
    on the text of an option, [None] when they reject it. *)
Class Library := {
  float : Type;
  config_get : string → string → string → result string;
  config_getint : string → string → Z → result Z;
  config_getfloat : string → string → float → result float;
  config_getboolean : string → string → bool → result bool;
  (** the literal [0.001] *)
  float_0_001 : float;
  to_int : string → option Z;
  to_float : string → option float
}.

(** The values held by [self.defaults] and [self.args]. *)
Inductive value `{Library} : Type :=
| Bool (b : bool)
| Int (z : Z)
| Str (s : string)
| Float (x : float).

(** [c.lower()] on one ASCII character. *)
Definition lower_char (c : ascii) : ascii :=
  let n := nat_of_ascii c in
  if (65 <=? n)%nat && (n <=? 90)%nat then ascii_of_nat (n + 32) else c.

(** [x.lower()] *)
Fixpoint lower (x : string) : string :=
  match x with
  | EmptyString => EmptyString
  | String c x' => String (lower_char c) (lower x')
  end.

(** The dict literal of [__init__], entries in the order written. *)
Definition file_defaults `{Library} : result (list (string * value)) :=
  multi_cpu ← config_getboolean "data" "multi_cpu" true;
  data_loader ← config_get "data" "data_loader" "image_seq";
  window_size ← config_getint "data" "window_size" 8;
  stride ← config_getint "data" "stride" 1;
  model_name ← config_get "model" "name" "resnet18";
  pretrained ← config_getboolean "model" "pretrained" true;
  batch_size ← config_getint "training" "batch_size" 16;
  epochs ← config_getint "training" "epochs" 100;
  learning_rate ← config_getfloat "training" "learning_rate" float_0_001;
  num_workers ← config_getint "training" "num_workers" 8;
  image_size ← config_getint "training" "image_size" 224;
  Ok [("multi_cpu", Bool multi_cpu); ("data_loader", Str data_loader);
      ("window_size", Int window_size); ("stride", Int stride);
      ("model_name", Str model_name); ("pretrained", Bool pretrained);
      ("batch_size", Int batch_size); ("epochs", Int epochs);
      ("learning_rate", Float learning_rate); ("num_workers", Int num_workers);
      ("image_size", Int image_size)].

(** The [type=] converters of the arguments. *)
Inductive converter : Type :=
| as_true
| as_false
| as_str
| as_int
| as_float.

(** The arguments declared by [parse_args], in the order declared. *)
Definition arguments : list (string * converter) :=
  [("multi_cpu", as_true); ("data_loader", as_str); ("window_size", as_int);
   ("stride", as_int); ("model_name", as_str); ("num_classes", as_int);
   ("pretrained", as_true); ("batch_size", as_int); ("epochs", as_int);
   ("learning_rate", as_float); ("multi_gpu", as_false); ("num_workers", as_int);
   ("image_size", as_int)].

(** [as_true] is [lambda x: x.lower() == "true"] and [as_false] is
    [lambda x: x.lower() == "false"]. *)
Definition convert `{Library} (c : converter) (x : string) : option value :=
  match c with
  | as_true => Some (Bool (bool_decide (lower x = "true")))
  | as_false => Some (Bool (bool_decide (lower x = "false")))
  | as_str => Some (Str x)
  | as_int => Int <$> to_int x
  | as_float => Float <$> to_float x
  end.

(** The entry of [vars(args)] for one argument: [given] is the text that
    the command line gives for each option, [None] for an absent one. *)
Definition parse_argument `{Library} (given : string → option string)
    (argument : string * converter) : option (string * option value) :=
  match given argument.1 with
  | None => Some (argument.1, None)
  | Some x => v ← convert argument.2 x; Some (argument.1, Some v)
  end.

(** [vars(parser.parse_args())]; [None] when a converter rejects its
    text and the parser ends the program. *)
Definition parse_args `{Library} (given : string → option string)
    : option (list (string * option value)) :=
  mapM (parse_argument given) arguments.

(** Body of [for key, value in self.args.items()]. *)
Definition override `{Library} (defaults : gmap string value)
    (entry : string * option value) : gmap string value :=
  match entry.2 with
  | Some value => <[entry.1 := value]> defaults
  | None => defaults
  end.

(** [__init__]: the result is [self.defaults], or [None] when the parser
    has ended the program.  The keys of the dict literal are distinct. *)
Definition __init__ `{Library} (given : string → option string)
    : result (option (gmap string value)) :=
  defaults ← file_defaults;
  match parse_args given with
  | None => Ok None
  | Some args => Ok (Some (foldl override (list_to_map defaults) args))
  end.

(** [self.defaults.get(key, None)] *)
Definition get `{Library} (defaults : gmap string value) (key : string)
    : option value :=
  defaults !! key.

End config_args.

(** ** [Training/preProcess.py] *)

Module preProcess.
Import Py.

(** [os.path.exists] and [os.path.join]. *)
Class FileSystem := {
  os_path_exists : string → bool;
  os_path_join : string → string → string
}.

(** A line of a [<patient>_phases.csv] file. *)
Record Annotation := {
  phase : string;
  frame_start : Z;
  frame_end : Z
}.

(** A row appended to [data_csv] by [process_annotations]. *)
Record PathRow := {
  Video_name : string;
  Path : string;
  Phase : string;
  Identifier : string;
  Focal : string
}.

(** [f"{patient}_Image_{i}.jpeg"] *)
Definition filename (patient : string) (i : Z) : string :=
  patient +:+ "_Image_" +:+ pretty i +:+ ".jpeg".

(** Body of [for i in range(row["frame_start"], row["frame_end"] + 1)]. *)
Definition frame_body `{FileSystem} (folder patient focal : string) (row : Annotation)
    (data_csv : list PathRow) (i : Z) : result (list PathRow) :=
  let filename := filename patient i in
  let full_path := os_path_join folder filename in
  if os_path_exists full_path then
    Ok (data_csv ++ [{| Video_name := patient;
                        Path := full_path;
                        Phase := phase row;
                        Identifier := filename;
                        Focal := focal |}])
  else Ok data_csv.

(** Body of [for _, row in df.iterrows()]. *)
Definition annotation_body `{FileSystem} (folder patient focal : string)
    (data_csv : list PathRow) (row : Annotation) : result (list PathRow) :=
  frames ← range (frame_start row) (frame_end row + 1) 1;
  for_loop (frame_body folder patient focal row) frames data_csv.

(** What [process_annotations] appends to [data_csv] for one annotation
    file, whose lines are [df] and whose name gives [patient]. *)
Definition annotation_rows `{FileSystem} (images_dir patient focal : string)
    (df : list Annotation) (data_csv : list PathRow) : result (list PathRow) :=
  let folder := os_path_join images_dir patient in
  for_loop (annotation_body folder patient focal) df data_csv.

(** The row written for frame [i] of the annotation line [row], and the
    test that lets it in. *)
Definition path_row `{FileSystem} (images_dir patient focal : string)
    (row : Annotation) (i : Z) : PathRow :=
  {| Video_name := patient;
     Path := os_path_join (os_path_join images_dir patient) (filename patient i);
     Phase := phase row;
     Identifier := filename patient i;
     Focal := focal |}.

Definition image_found `{FileSystem} (images_dir patient : string) (i : Z) : Prop :=
  os_path_exists (os_path_join (os_path_join images_dir patient) (filename patient i))
  = true.

#[global] Instance image_found_dec `{FileSystem} images_dir patient i :
  Decision (image_found images_dir patient i).
Proof. unfold image_found. apply _. Defined.

(** The frame numbers of an annotation line, in increasing order, each
    once. *)
Definition line_frames (row : Annotation) : list Z :=
  seqZ (frame_start row) (frame_end row + 1 - frame_start row).

(** The rows of one annotation line: one for each of its frame numbers
    whose image is found, in the order of the frame numbers. *)
Definition line_rows `{FileSystem} (images_dir patient focal : string)
    (row : Annotation) : list PathRow :=
  path_row images_dir patient focal row
    <$> filter (image_found images_dir patient) (line_frames row).

(** The dict that [_create_sequences] makes of such a row once it is in
    the split file. *)
Definition frame_of_row (r : PathRow) : DataSet.Frame :=
  {| DataSet.identifier := Identifier r;
     DataSet.path := Path r;
     DataSet.phase := Phase r |}.

End preProcess.

(** ** [WebApplication/Classes/Doctor.py] *)

Module Doctor.
Import Py.

(** What [predictTransitions] takes from its surroundings: the file
    system, image decoding and the trained model. *)
Class Inference := {
  Picture : Type;
  Model : Type;
  (** [os.path.exists(model_path)] *)
  path_exists : string → bool;
  (** base64 decoding, opening and transforming one image; on failure the
      text of the exception *)
  decode_image : string → string + Picture;
  (** [im.mean(dim=0, keepdim=True)] *)
  grey : Picture → Picture;
  (** [torch.load(model_path, map_location=device)] *)
  torch_load : string → result Model;
  (** [model.eval()] and [model.to(device)] on what was loaded; each
      gives the model as it is afterwards, or raises (what was loaded
      need not be a module) *)
  model_eval : Model → result Model;
  model_to : Model → result Model;
  (** forward pass on one window, sigmoid, rounding and [int]; the
      string is the mode, which decides on the batch dimension *)
  classify : Model → string → list Picture → result Z
}.

(** Second component of a returned tuple: a message or the predictions. *)
Inductive value : Type :=
| Str (s : string)
| Ints (l : list Z).

(** The tuples returned by [predictTransitions]. *)
Inductive outcome : Type :=
| Pair (success : bool) (second : value)
| Triple (success : bool) (second : value) (is_random : bool).

(** Model file and mode for a frame count. *)
Definition select_model (frame_count : Z) : option (string * string) :=
  if frame_count =? 8 then Some ("../Results/resnet18/best_model.pth", "image_seq")
  else if frame_count =? 32 then Some ("../Results/timesformer/best_model.pth", "video")
  else None.

(** Body of the fallback loop: one [random.randint(0, 1)] per window. *)
Definition random_body `{PyRandom} (acc : list Z * rng) (i : Z) : result (list Z * rng) :=
  let r := randint01 acc.2 in
  Ok (acc.1 ++ [r.1], r.2).

(** Body of [for i, img_base64 in enumerate(images)]; [inl] records the
    early [return False, ...]. *)
Definition decode_body `{Inference} (acc : string + list Picture)
    (entry : nat * string) : string + list Picture :=
  match acc with
  | inl msg => inl msg
  | inr processed_images =>
      match decode_image entry.2 with
      | inl e => inl ("Error processing image " +:+ pretty entry.1 +:+ ": " +:+ e)
      | inr img_tensor => inr (processed_images ++ [img_tensor])
      end
  end.

(** [torch.stack] of the frames, grey-scaled for ["image_seq"]; the
    stacked tensor is the list of its frames.  Stacking nothing raises. *)
Definition stack_frames `{Inference} (mode : string) (processed_images : list Picture)
    : result (list Picture) :=
  match processed_images with
  | [] => Raise (RuntimeError "stack expects a non-empty TensorList")
  | _ => Ok (if decide (mode = "video") then processed_images
             else grey <$> processed_images)
  end.

(** Body of the sliding-window loop. *)
Definition inference_body `{Inference} (model : Model) (mode : string)
    (frame_count : Z) (images_tensor : list Picture) (predictions : list Z) (i : Z)
    : result (list Z) :=
  let window := slice images_tensor i (i + frame_count) in
  prediction ← classify model mode window;
  Ok (predictions ++ [prediction]).

(** The [try] block of [predictTransitions]. *)
Definition predict_body `{Inference} `{PyRandom} (g : rng)
    (images : list string) (frame_count : Z) : result (outcome * rng) :=
  match select_model frame_count with
  | None =>
      Ok (Pair false (Str ("Unsupported frame count: " +:+ pretty frame_count)), g)
  | Some (model_path, mode) =>
      if negb (path_exists model_path) then
        starts ← range 0 (Z.of_nat (length images) - frame_count + 1) 1;
        r ← for_loop random_body starts ([], g);
        Ok (Triple true (Ints r.1) true, r.2)
      else
        match foldl decode_body (inr []) (DataSet.enumerate images) with
        | inl msg => Ok (Pair false (Str msg), g)
        | inr processed_images =>
            images_tensor ← stack_frames mode processed_images;
            model ← torch_load model_path;
            model ← model_eval model;
            model ← model_to model;
            starts ← range 0 (Z.of_nat (length processed_images) - frame_count + 1) 1;
            predictions ← for_loop (inference_body model mode frame_count images_tensor)
                                   starts [];
            Ok (Triple true (Ints predictions) false, g)
        end
  end.

(** [current_user_id] is accepted and not used. *)
Definition predictTransitions `{Inference} `{PyRandom} (g : rng)
    (images : list string) (frame_count : Z) (current_user_id : Z)
    : outcome * rng :=
  match predict_body g images frame_count with
  | Ok r => r
  | Raise e => (Pair false (Str ("Error predicting transitions: " +:+ str_exn e)), g)
  end.

End Doctor.

(** ** [WebApplication/Routes/Doctor_Routes.py] *)

Module Routes.
Import Py Doctor.

(** The JSON bodies built by [Embryo_Predict]. *)
Inductive body : Type :=
| Message (success : bool) (message : value)
| Predictions (success : bool) (predictions : value) (is_random : bool).

Record response := { payload : body; status : Z }.

(** [not session.get('user_id')]: true for an absent id and for the id 0. *)
Definition not_user (user_id : option Z) : bool :=
  match user_id with
  | None => true
  | Some u => u =? 0
  end.

(** The handler once the JSON body is read: [frame_count] is
    [int(data.get('frame_count', 8))] and [images] is
    [data.get('images', [])]. *)
Definition Embryo_Predict `{Inference} `{PyRandom} (g : rng)
    (current_user_id : option Z) (frame_count : Z) (images : list string)
    : response * rng :=
  if not_user current_user_id then
    ({| payload := Message false (Str "User not authenticated"); status := 401 |}, g)
  else if Z.of_nat (length images) <? frame_count then
    ({| payload :=
          Message false (Str ("Need at least " +:+ pretty frame_count
                              +:+ " images for prediction, got "
                              +:+ pretty (length images)));
        status := 400 |}, g)
  else
    let result := predictTransitions g images frame_count (default 0 current_user_id) in
    match result.1 with
    | Triple success predictions is_random =>
        if success then
          ({| payload := Predictions true predictions is_random; status := 200 |},
           result.2)
        else ({| payload := Message false predictions; status := 400 |}, result.2)
    | Pair success predictions =>
        if success then
          ({| payload := Predictions true predictions false; status := 200 |},
           result.2)
        else ({| payload := Message false predictions; status := 400 |}, result.2)
    end.

End Routes.

(** * Stand-ins for the libraries, and sample data

    Used below to run the model on concrete inputs. *)

Import Py DataSet Load_data Doctor Routes.

(** A stand-in for the two pandas draws: the draw of [n] names takes the
    first [n] after a rotation by the seed, the row shuffle is a rotation
    by the seed. *)
#[local] Instance rotating_pandas : Pandas := {|
  sample_n seed n names :=
    if (n <? 0) || (Z.of_nat (length names) <? n)
    then Raise (ValueError "Cannot take a larger sample than population")
    else Ok (take (Z.to_nat n) (rotate (Z.to_nat seed) names));
  sample_frac1 seed rows := rotate (Z.to_nat seed) rows
|}.

Definition row (video file phase : string) : Row :=
  {| Video_name := video;
     Identifier := video +:+ "_" +:+ file;
     Path := "../Data/" +:+ video +:+ "/" +:+ file;
     Phase := phase;
     UsedFor := "Train" |}.

(** A split whose only video goes from [t2] straight to [t4]. *)
Definition skipping_csv : list Row :=
  [row "AA83-7" "RUN2.jpeg" "t4"; row "AA83-7" "RUN1.jpeg" "t2"].

Definition skipping_window : list Frame :=
  [frame_of (row "AA83-7" "RUN1.jpeg" "t2"); frame_of (row "AA83-7" "RUN2.jpeg" "t4")].

(** *** A generator

    A linear congruential generator stands in for the Mersenne Twister.
    Drawing removes the chosen position from the pool, so no position is
    drawn twice; the shuffle draws every position. *)

Definition lcg_next (g : Z) : Z := (1103515245 * g + 12345) `mod` 2147483648.

Definition randbelow (g : Z) (n : nat) : nat * Z :=
  let g' := lcg_next g in (Z.to_nat (g' `mod` Z.of_nat n), g').

Fixpoint draw_positions (k : nat) (pool : list nat) (g : Z) : list nat * Z :=
  match k with
  | O => ([], g)
  | S k' =>
      let r := randbelow g (length pool) in
      match pool !! r.1 with
      | Some p =>
          let rest := draw_positions k' (delete r.1 pool) r.2 in
          (p :: rest.1, rest.2)
      | None => ([], r.2)
      end
  end.

#[local] Instance lcg_random : PyRandom := {|
  rng := Z;
  rng_seed a := a;
  sample_positions g n k := draw_positions k (seq 0 n) g;
  shuffle_positions g n := draw_positions n (seq 0 n) g;
  randint01 g := (lcg_next g `mod` 2, lcg_next g)
|}.

(** Images are stood for by their paths; a path under ["missing/"] does
    not load. *)
#[local] Instance path_imaging : Imaging := {|
  Image := string;
  Tensor := list string;
  load_image p := if String.prefix "missing/" p then None else Some p;
  stack_video imgs :=
    match imgs with
    | [] => Raise (RuntimeError "stack expects a non-empty TensorList")
    | _ => Ok imgs
    end;
  stack_image_seq imgs :=
    match imgs with
    | [] => Raise (RuntimeError "stack expects a non-empty TensorList")
    | _ => Ok ((λ im, "grey:" +:+ im) <$> imgs)
    end
|}.

(** An installation with the 8-frame model only; the model answers 1 on
    a window whose first and last frames differ. *)
#[local] Instance resnet_only : Inference := {|
  Picture := string;
  Model := unit;
  path_exists p := bool_decide (p = "../Results/resnet18/best_model.pth");
  decode_image s :=
    if decide (s = EmptyString) then inl "cannot identify image file" else inr s;
  grey p := p;
  torch_load _ := Ok ();
  model_eval model := Ok model;
  model_to model := Ok model;
  classify _ _ window :=
    match head window, last window with
    | Some a, Some b => Ok (if decide (a = b) then 0 else 1)
    | _, _ => Raise (RuntimeError "empty window")
    end
|}.

(** *** Sample data *)

(** One video of eight frames, rows out of order: three frames of [t2],
    three of [t3], two of [t4]. *)
Definition demo_csv : list Row :=
  [row "AA83-7" "RUN5.jpeg" "t3"; row "AA83-7" "RUN2.jpeg" "t2";
   row "AA83-7" "RUN8.jpeg" "t4"; row "AA83-7" "RUN1.jpeg" "t2";
   row "AA83-7" "RUN4.jpeg" "t3"; row "AA83-7" "RUN7.jpeg" "t4";
   row "AA83-7" "RUN3.jpeg" "t2"; row "AA83-7" "RUN6.jpeg" "t3"].

Definition demo_frames : list Frame :=
  frame_of <$>
    [row "AA83-7" "RUN1.jpeg" "t2"; row "AA83-7" "RUN2.jpeg" "t2";
     row "AA83-7" "RUN3.jpeg" "t2"; row "AA83-7" "RUN4.jpeg" "t3";
     row "AA83-7" "RUN5.jpeg" "t3"; row "AA83-7" "RUN6.jpeg" "t3";
     row "AA83-7" "RUN7.jpeg" "t4"; row "AA83-7" "RUN8.jpeg" "t4"].

Definition empty_dataset : Dataset :=
  {| window_size := 0; stride := 0; multiple_phases := false; mode := EmptyString;
     data_frame := []; phase_labels := []; phase_to_index := ∅;
     video_sequences := [] |}.

(** [self] after [_create_sequences] for [demo_csv], with the given seed,
    window size, stride and mode of validation. *)
Definition demo_built (seed w s : Z) (mp : bool) : Dataset :=
  match build_sequences demo_csv seed w s "Train" 0 mp "image_seq" with
  | Ok self => self
  | Raise _ => empty_dataset
  end.

(** The finished dataset for [demo_csv], balanced, and the generator
    state it leaves. *)
Definition demo_dataset (seed : Z) (g : Z) : Dataset * Z :=
  match @__init__ rotating_pandas lcg_random demo_csv seed 3 1 "Train" 0
                  true false "image_seq" g with
  | Ok r => r
  | Raise _ => (empty_dataset, g)
  end.

Definition ten_images : list string :=
  ["f0"; "f1"; "f2"; "f3"; "f4"; "f5"; "f6"; "f7"; "f8"; "f9"].


Definition five_images : list string := ["f0"; "f1"; "f2"; "f3"; "f4"].


(** Two videos in the training split, one frame of the blastocyst
    hatching phase among them, and a video of the test split. *)
Definition two_videos_csv : list Row :=
  [row "AA83-7" "RUN1.jpeg" "t2"; row "BB12-3" "RUN1.jpeg" "t2";
   row "AA83-7" "RUN2.jpeg" "t3"; row "BB12-3" "RUN2.jpeg" "tHB";
   {| Video_name := "CC40-1"; Identifier := "CC40-1_RUN1.jpeg";
      Path := "../Data/CC40-1/RUN1.jpeg"; Phase := "t2"; UsedFor := "Test" |}].

(** The rows kept of [two_videos_csv] for one training video and seed 1. *)
Definition selected_video_rows : list Row :=
  match load_dataset two_videos_csv 1 "Train" 1 with
  | Ok df => df
  | Raise _ => []
  end.

(** A split file with one video per split. *)
Definition three_splits_csv : list Row :=
  [row "AA83-7" "RUN1.jpeg" "t2"; row "AA83-7" "RUN2.jpeg" "t3";
   row "AA83-7" "RUN3.jpeg" "t3";
   {| Video_name := "BB12-3"; Identifier := "BB12-3_RUN1.jpeg";
      Path := "../Data/BB12-3/RUN1.jpeg"; Phase := "t4"; UsedFor := "Val" |};
   {| Video_name := "BB12-3"; Identifier := "BB12-3_RUN2.jpeg";
      Path := "../Data/BB12-3/RUN2.jpeg"; Phase := "t4"; UsedFor := "Val" |};
   {| Video_name := "CC40-1"; Identifier := "CC40-1_RUN1.jpeg";
      Path := "../Data/CC40-1/RUN1.jpeg"; Phase := "t2"; UsedFor := "Test" |};
   {| Video_name := "CC40-1"; Identifier := "CC40-1_RUN2.jpeg";
      Path := "../Data/CC40-1/RUN2.jpeg"; Phase := "t2"; UsedFor := "Test" |}].

(** Loaders that keep what they are given and make the checks of the
    constructor on the number of workers, on the length of a dataset that
    is to be shuffled and on the batch size. *)
Record plain_loader := {
  loader_dataset : Dataset;
  loader_batch_size : Z;
  loader_shuffle : bool;
  loader_pin_memory : bool;
  loader_num_workers : Z
}.

#[local] Instance plain_torch : Torch := {|
  Loader := plain_loader;
  DataLoader set batch_size shuffle pin_memory num_workers :=
    if num_workers <? 0 then
      Raise (ValueError "num_workers option should be non-negative")
    else if shuffle && (__len__ set <=? 0) then
      Raise (ValueError "num_samples should be a positive integer value")
    else if batch_size <=? 0 then
      Raise (ValueError "batch_size should be a positive integer value")
    else Ok {| loader_dataset := set; loader_batch_size := batch_size;
               loader_shuffle := shuffle; loader_pin_memory := pin_memory;
               loader_num_workers := num_workers |};
  dataset := loader_dataset
|}.

(** The loaders of [get_dataloaders] for [three_splits_csv], windows of
    two frames, stride one, batches of four, no worker, default keyword
    arguments. *)
Definition demo_loaders (g : Z) : plain_loader * plain_loader * plain_loader * Z :=
  match @get_dataloaders rotating_pandas lcg_random plain_torch
                         (λ _, three_splits_csv) 2 1 "image_seq" 4 0
                         {| FocalType := None; Balance_Flags := None;
                            Multiple_Phases := None |} g with
  | Ok r => r
  | Raise _ =>
      let none := {| loader_dataset := empty_dataset; loader_batch_size := 0;
                     loader_shuffle := false; loader_pin_memory := false;
                     loader_num_workers := 0 |} in
      (none, none, none, g)
  end.

(** No configuration file: every getter answers its fallback.  Numbers
    are read when they are plain decimal digits; a float is kept as its
    text. *)
#[local] Instance no_config_file : config_args.Library := {|
  config_args.float := string;
  config_args.config_get _ _ fallback := Ok fallback;
  config_args.config_getint _ _ fallback := Ok fallback;
  config_args.config_getfloat _ _ fallback := Ok fallback;
  config_args.config_getboolean _ _ fallback := Ok fallback;
  config_args.float_0_001 := "0.001";
  config_args.to_int x :=
    if digits_only x && negb (bool_decide (x = EmptyString))
    then Some (int (code_points x))
    else None;
  config_args.to_float x := Some x
|}.

(** The command line [--window_size 32 --multi_gpu True]. *)
Definition demo_command_line (name : string) : option string :=
  if decide (name = "window_size") then Some "32"
  else if decide (name = "multi_gpu") then Some "True"
  else None.

(** [self.defaults] for [demo_command_line] and no configuration file. *)
Definition demo_config : gmap string config_args.value :=
  match config_args.__init__ demo_command_line with
  | Ok (Some defaults) => defaults
  | _ => ∅
  end.

(** An identifier whose number is written with the Arabic-Indic digit
    three, U+0663, the bytes 217 and 163 in UTF-8. *)
Definition arabic_identifier : string :=
  "v_RUN" +:+ String (ascii_of_nat 217) (String (ascii_of_nat 163) ".jpeg").

(** Another video, another file name without a number. *)
Definition other_unnumbered_csv : list Row :=
  [row "BB12-3" "RUN1.jpeg" "t4"; row "BB12-3" "last.jpeg" "t4"].

(** A frame whose file name carries no number. *)
Definition unnumbered_csv : list Row :=
  [row "AA83-7" "RUN1.jpeg" "t2"; row "AA83-7" "first.jpeg" "t2"].

(** * Properties *)

(** ** Loops, ranges and slices *)

Lemma bind_Ok {A B} (m : result A) (f : A → result B) (b : B) :
  m ≫= f = Ok b ↔ ∃ a, m = Ok a ∧ f a = Ok b.
Proof.
  destruct m as [a|e]; simpl; split.
  - intros H. by exists a.
  - by intros (a' & [= ->] & H).
  - done.
  - by intros (a' & [=] & _).
Qed.

Lemma bind_Raise {A B} (m : result A) (f : A → result B) (e : exn) :
  m = Raise e → m ≫= f = Raise e.
Proof. by intros ->. Qed.

(** Inversion of a successful sequence of binds in hypothesis [H]. *)
Ltac bind_inv H :=
  repeat (let a := fresh "a" in
          let E := fresh "E" in
          apply bind_Ok in H as (a & E & H)).

Section py_facts.
Context {A : Type}.
Implicit Types l : list A.

Lemma slice_take_drop l (lo w : Z) :
  0 ≤ lo → 0 ≤ w → lo + w ≤ Z.of_nat (length l) →
  slice l lo (lo + w) = take (Z.to_nat w) (drop (Z.to_nat lo) l).
Proof.
  intros Hlo Hw Hfit. unfold slice, slice_bound.
  destruct (Z.ltb_spec lo 0); [lia|].
  destruct (Z.ltb_spec (lo + w) 0); [lia|].
  f_equal; [|f_equal]; lia.
Qed.

Lemma slice_length l (lo w : Z) :
  0 ≤ lo → 0 ≤ w → lo + w ≤ Z.of_nat (length l) →
  Z.of_nat (length (slice l lo (lo + w))) = w.
Proof.
  intros Hlo Hw Hfit. rewrite slice_take_drop by done.
  rewrite length_take, length_drop. lia.
Qed.

Lemma slice_whole l : slice l 0 (0 + Z.of_nat (length l)) = l.
Proof.
  rewrite slice_take_drop by lia. simpl.
  rewrite Nat2Z.id. apply firstn_all.
Qed.

Lemma index_Some l (i : nat) x : l !! i = Some x → index l (Z.of_nat i) = Ok x.
Proof.
  intros H. unfold index.
  destruct (Z.ltb_spec (Z.of_nat i) 0); [lia|].
  destruct (Z.ltb_spec (Z.of_nat i) 0); [lia|].
  by rewrite Nat2Z.id, H.
Qed.

Lemma getitem_Some (d : gmap string A) k v : d !! k = Some v → getitem d k = Ok v.
Proof. unfold getitem. by intros ->. Qed.

Lemma index_head x l : index (x :: l) 0 = Ok x.
Proof. reflexivity. Qed.

Lemma index_last l x : index (l ++ [x]) (-1) = Ok x.
Proof.
  unfold index. simpl. rewrite length_app. simpl.
  destruct (Z.ltb_spec (-1 + Z.of_nat (length l + 1)) 0); [lia|].
  replace (Z.to_nat (-1 + Z.of_nat (length l + 1))) with (length l) by lia.
  by rewrite list_lookup_middle.
Qed.

Lemma index_nil (i : Z) :
  index (@nil A) i = Raise (IndexError "list index out of range").
Proof. unfold index. simpl. by repeat case_match. Qed.
End py_facts.

Lemma range_len_from_0 (hi s : Z) :
  1 ≤ s → range_len 0 hi s = Z.max 0 ((hi - 1) `div` s + 1).
Proof.
  intros Hs. unfold range_len.
  destruct (Z.ltb_spec 0 s); [|lia]. simpl.
  destruct (Z.ltb_spec 0 hi).
  - assert (0 ≤ (hi - 1) `div` s) by (apply Z.div_pos; lia).
    replace (hi - 1 - 0) with (hi - 1) by lia. lia.
  - destruct (Z.ltb_spec s 0); [lia|]. simpl.
    assert ((hi - 1) `div` s < 0) by (apply Z.div_lt_upper_bound; lia). lia.
Qed.

Lemma range_from_0 (hi s : Z) :
  1 ≤ s →
  range 0 hi s = Ok ((λ k, k * s) <$> seqZ 0 (Z.max 0 ((hi - 1) `div` s + 1))).
Proof.
  intros Hs. unfold range.
  destruct (Z.eqb_spec s 0); [lia|].
  rewrite range_len_from_0 by done. reflexivity.
Qed.

(** With [1 ≤ s], offset [k * s] is among the first [(L - w) / s + 1]
    exactly when the window starting there fits. *)
Lemma offset_fits (L w s k : Z) :
  1 ≤ s → 0 ≤ k → (k < Z.max 0 ((L - w) `div` s + 1) ↔ k * s + w ≤ L).
Proof.
  intros Hs Hk. split.
  - intros Hlt.
    assert (k ≤ (L - w) `div` s) as Hle by lia.
    assert (s * ((L - w) `div` s) ≤ L - w) by (apply Z.mul_div_le; lia).
    nia.
  - intros Hfit.
    assert (k ≤ (L - w) `div` s) by (apply Z.div_le_lower_bound; lia).
    lia.
Qed.

(** ** The window generator *)

Lemma window_body_permissive self sorted_frames acc start :
  multiple_phases self = true →
  window_body self sorted_frames acc start
  = Ok (acc ++ [slice sorted_frames start (start + window_size self)]).
Proof. intros H. unfold window_body. by rewrite H. Qed.

Lemma window_loop_permissive self sorted_frames starts acc :
  multiple_phases self = true →
  for_loop (window_body self sorted_frames) starts acc
  = Ok (acc ++ ((λ start, slice sorted_frames start (start + window_size self))
                  <$> starts)).
Proof.
  intros H. revert acc.
  induction starts as [|start starts IH]; intros acc; simpl.
  - by rewrite app_nil_r.
  - rewrite window_body_permissive by done. simpl.
    rewrite IH. by rewrite <- app_assoc.
Qed.

(** C1. For a video whose sorted frame list has [L] frames, and for
    [window_size = w ≥ 1] and [stride = s ≥ 1], the loop cuts the windows
    at offsets [0, s, 2s, ...] for as long as [offset + w ≤ L]: there are
    [max 0 ((L - w) / s + 1)] of them, window [k] is the [w] frames
    from offset [k * s], each has exactly [w] frames, none is cut and
    the video passes without an exception when [L < w], exactly the
    whole list is cut when [L = w], and with [multiple_phases] the video
    contributes every one of them, in order. *)
Theorem window_generator_count (self : Dataset) (sorted_frames : list Frame) :
  let L := Z.of_nat (length sorted_frames) in
  let w := window_size self in
  let s := stride self in
  1 ≤ w → 1 ≤ s →
  ∃ cands : list (list Frame),
    candidate_windows self sorted_frames = Ok cands ∧
    Z.of_nat (length cands) = Z.max 0 ((L - w) `div` s + 1) ∧
    (∀ k : nat, (k < length cands)%nat ↔ Z.of_nat k * s + w ≤ L) ∧
    (∀ k : nat, (k < length cands)%nat →
       cands !! k
       = Some (take (Z.to_nat w) (drop (Z.to_nat (Z.of_nat k * s)) sorted_frames))) ∧
    Forall (λ win, Z.of_nat (length win) = w) cands ∧
    (L < w → cands = []) ∧
    (L < w → ∀ acc entry, sorted ordinal entry.2 = Ok sorted_frames →
       video_body self acc entry = Ok acc) ∧
    (L = w → cands = [sorted_frames]) ∧
    (multiple_phases self = true →
     ∀ acc entry, sorted ordinal entry.2 = Ok sorted_frames →
       video_body self acc entry = Ok (acc ++ cands)).
Proof.
  intros L w s Hw Hs.
  set (n := Z.max 0 ((L - w) `div` s + 1)).
  set (cut := λ start : Z, slice sorted_frames start (start + w)).
  assert (Hrange : range 0 (L - w + 1) s = Ok ((λ k, k * s) <$> seqZ 0 n)).
  { rewrite range_from_0 by done. subst n.
    by replace (L - w + 1 - 1) with (L - w) by lia. }
  set (cands := cut <$> ((λ k, k * s) <$> seqZ 0 n)).
  exists cands.
  assert (Hlen : Z.of_nat (length cands) = n).
  { unfold cands. rewrite !length_fmap, length_seqZ. lia. }
  assert (Hfits : ∀ k : nat, (k < length cands)%nat ↔ Z.of_nat k * s + w ≤ L).
  { intros k. rewrite <- (offset_fits L w s (Z.of_nat k)) by lia. fold n. lia. }
  assert (Hnth : ∀ k : nat,
             (k < length cands)%nat →
             cands !! k
             = Some (take (Z.to_nat w)
                          (drop (Z.to_nat (Z.of_nat k * s)) sorted_frames))).
  { intros k Hk. pose proof (proj1 (Hfits k) Hk) as Hfit.
    unfold cands.
    rewrite !list_lookup_fmap, lookup_seqZ_lt by lia. simpl.
    unfold cut. f_equal. apply slice_take_drop; lia. }
  split_and!.
  - unfold candidate_windows. fold L w s. by rewrite Hrange.
  - done.
  - done.
  - done.
  - apply Forall_lookup. intros k win Hwin.
    assert (k < length cands)%nat as Hk by (by eapply lookup_lt_Some).
    rewrite (Hnth k Hk) in Hwin. injection Hwin as <-.
    pose proof (proj1 (Hfits k) Hk).
    rewrite length_take, length_drop. lia.
  - intros Hshort. apply length_zero_iff_nil.
    destruct (decide (length cands = 0%nat)) as [|Hne]; [done|].
    pose proof (proj1 (Hfits 0%nat) ltac:(lia)). lia.
  - intros Hshort acc entry Hsorted. unfold video_body.
    rewrite Hsorted. simpl. fold L w s. rewrite Hrange. simpl.
    assert ((L - w) `div` s < 0) by (apply Z.div_lt_upper_bound; lia).
    replace n with 0 by (subst n; lia). reflexivity.
  - intros Hsame.
    assert (n = 1) as Hn.
    { subst n. rewrite Hsame, Z.sub_diag, Z.div_0_l by lia. lia. }
    unfold cands. rewrite Hn. simpl. unfold cut. f_equal.
    replace (0 * s) with 0 by lia.
    fold w in Hsame. rewrite <- Hsame. subst L. apply slice_whole.
  - intros Hperm acc entry Hsorted. unfold video_body.
    rewrite Hsorted. simpl. fold L w s. rewrite Hrange. simpl.
    by rewrite window_loop_permissive.
Qed.

(** With [multiple_phases] a video adds all its candidate windows, and
    the population is the candidates of the videos, video after video in
    the order of their first rows. *)
Lemma video_body_permissive self acc entry :
  multiple_phases self = true →
  video_body self acc entry
  = windows ← video_windows self entry.2; Ok (acc ++ windows).
Proof.
  intros Hperm. unfold video_body, video_windows, candidate_windows.
  destruct (sorted ordinal entry.2) as [sorted_frames|e]; simpl; [|done].
  destruct (range 0 _ (stride self)) as [starts|e]; simpl; [|done].
  by rewrite window_loop_permissive.
Qed.

Lemma video_loop_permissive self grouped acc :
  multiple_phases self = true →
  for_loop (video_body self) grouped acc
  = per_video ← comprehension (λ entry, video_windows self entry.2) grouped;
    Ok (acc ++ concat per_video).
Proof.
  intros Hperm. revert acc.
  induction grouped as [|entry grouped IH]; intros acc; simpl.
  - by rewrite app_nil_r.
  - rewrite video_body_permissive by done.
    destruct (video_windows self entry.2) as [windows|e]; simpl; [|done].
    rewrite IH.
    destruct (comprehension _ grouped) as [per_video|e]; simpl; [|done].
    by rewrite <- app_assoc.
Qed.

Lemma create_sequences_permissive self :
  multiple_phases self = true →
  _create_sequences self
  = per_video ← comprehension (λ entry, video_windows self entry.2)
                               (group_rows (data_frame self));
    Ok (with_video_sequences (video_sequences self ++ concat per_video) self).
Proof.
  intros Hperm. unfold _create_sequences.
  rewrite video_loop_permissive by done.
  by destruct (comprehension _ _).
Qed.

(** ** The strict validator *)

Lemma elements_two (X : gset string) :
  length (elements X) = 2%nat →
  ∃ a b, elements X = [a; b] ∧ a ≠ b ∧ X = {[a; b]}.
Proof.
  intros Hlen. pose proof (NoDup_elements X) as Hnd.
  destruct (elements X) as [|a [|b [|c l]]] eqn:E; try done.
  exists a, b. split_and!; [done| |].
  - apply NoDup_cons in Hnd as [Hnotin _]. set_solver.
  - apply set_eq. intros x. rewrite <- elem_of_elements, E. set_solver.
Qed.

Lemma pair_set_inv (a b p q : string) :
  ({[a; b]} : gset string) = {[p; q]} → a ≠ b →
  (p = a ∧ q = b) ∨ (p = b ∧ q = a).
Proof.
  intros Heq Hne.
  assert (a ∈ ({[p; q]} : gset string)) as Ha by (rewrite <- Heq; set_solver).
  assert (b ∈ ({[p; q]} : gset string)) as Hb by (rewrite <- Heq; set_solver).
  assert (p ∈ ({[a; b]} : gset string)) as Hp by (rewrite Heq; set_solver).
  assert (q ∈ ({[a; b]} : gset string)) as Hq by (rewrite Heq; set_solver).
  set_solver.
Qed.

Lemma sort_pair (i j : nat) :
  merge_sort Nat.le [i; j] = [Nat.min i j; Nat.max i j].
Proof.
  unfold merge_sort. simpl.
  case_decide; simpl; (f_equal; [|f_equal]); unfold Nat.le in *; lia.
Qed.

Lemma app_singleton_ne {A} (l : list A) (x : A) : l ++ [x] ≠ l.
Proof. intros H. apply (f_equal length) in H. rewrite length_app in H. simpl in H. lia. Qed.

Lemma size_pair (p q : string) : p ≠ q → size ({[p; q]} : gset string) = 2%nat.
Proof.
  intros Hne. rewrite size_union by set_solver. by rewrite !size_singleton.
Qed.

Lemma coherent_size index_of sequence :
  coherent index_of sequence → (size (distinct_phases sequence) ≤ 2)%nat.
Proof.
  intros [Hle | (p & q & Hne & Heq & _)]; [lia|].
  rewrite Heq, size_pair by done. lia.
Qed.

(** What the strict branch of the loop body does with a window of exactly
    two distinct phases, both in the mapping. *)
Lemma window_body_two self sorted_frames acc start (a b : string) (i j : nat) :
  let sequence := slice sorted_frames start (start + window_size self) in
  multiple_phases self = false →
  elements (distinct_phases sequence) = [a; b] →
  phase_to_index self !! a = Some i →
  phase_to_index self !! b = Some j →
  window_body self sorted_frames acc start
  = if decide (j = i + 1 ∨ i = j + 1)%nat then Ok (acc ++ [sequence]) else Ok acc.
Proof.
  intros sequence Hstrict Hel Ha Hb. unfold window_body.
  rewrite Hstrict. fold sequence. unfold distinct_phases in Hel. rewrite Hel. simpl.
  unfold getitem. rewrite Ha. simpl. rewrite Hb. simpl.
  rewrite sort_pair. simpl.
  repeat case_decide; try done; lia.
Qed.

(** C3 (amended). Without [multiple_phases], a window is kept exactly
    when it has at most one distinct phase, or exactly two whose indices
    in [phase_to_index] differ by one.  With all its phases in the
    mapping any other window is dropped: two phases whose indices are not
    consecutive, and three or more phases whatever their indices. *)
Theorem strict_validator_rule (self : Dataset) (sorted_frames : list Frame)
    (acc : list (list Frame)) (start : Z) :
  let sequence := slice sorted_frames start (start + window_size self) in
  let index_of := λ p, phase_to_index self !! p in
  multiple_phases self = false →
  (window_body self sorted_frames acc start = Ok (acc ++ [sequence])
   ↔ coherent index_of sequence)
  ∧ ((∀ p, p ∈ distinct_phases sequence → is_Some (index_of p)) →
     ¬ coherent index_of sequence →
     window_body self sorted_frames acc start = Ok acc)
  ∧ ((3 ≤ size (distinct_phases sequence))%nat →
     ¬ coherent index_of sequence
     ∧ window_body self sorted_frames acc start = Ok acc).
Proof.
  intros sequence index_of Hstrict.
  set (X := distinct_phases sequence).
  assert (Hsize : length (elements X) = size X) by reflexivity.
  destruct (decide (2 < size X)%nat) as [Hmany | Hfew].
  { (* three or more *)
    assert (Hbody : window_body self sorted_frames acc start = Ok acc).
    { unfold window_body. rewrite Hstrict. fold sequence.
      change (list_to_set (phase <$> sequence)) with X.
      rewrite decide_True by lia. done. }
    assert (Hnot : ¬ coherent index_of sequence).
    { intros Hc. apply coherent_size in Hc. fold X in Hc. lia. }
    rewrite Hbody. split_and!.
    - split; [|done]. intros [=Heq]. symmetry in Heq. by apply app_singleton_ne in Heq.
    - done.
    - done. }
  destruct (decide (size X = 2%nat)) as [Htwo | Hnottwo].
  { (* exactly two *)
    destruct (elements_two X) as (a & b & Hel & Hne & HX); [lia|].
    assert (Hcoh : coherent index_of sequence ↔ adjacent index_of a b).
    { split.
      - intros [Hle | (p & q & Hpq & Heq & i & j & Hi & Hj & Hadj)];
          [fold X in Hle; lia|].
        fold X in Heq. rewrite HX in Heq.
        destruct (pair_set_inv a b p q Heq Hne) as [[-> ->] | [-> ->]].
        + by exists i, j.
        + exists j, i. split_and!; [done|done|lia].
      - intros Hadj. right. exists a, b. by fold X. }
    split_and!.
    - rewrite Hcoh. split.
      + intros Hbody.
        destruct (phase_to_index self !! a) as [i|] eqn:Ha.
        * destruct (phase_to_index self !! b) as [j|] eqn:Hb.
          -- rewrite (window_body_two self sorted_frames acc start a b i j) in Hbody
               by done.
             case_decide as Hadj.
             ++ by exists i, j.
             ++ injection Hbody as Heq. symmetry in Heq.
                by apply app_singleton_ne in Heq.
          -- exfalso. revert Hbody. unfold window_body. rewrite Hstrict.
             fold sequence. change (list_to_set (phase <$> sequence)) with X.
             rewrite Hel. simpl. unfold getitem. rewrite Ha. simpl. by rewrite Hb.
        * exfalso. revert Hbody. unfold window_body. rewrite Hstrict.
          fold sequence. change (list_to_set (phase <$> sequence)) with X.
          rewrite Hel. simpl. unfold getitem. by rewrite Ha.
      + intros (i & j & Hi & Hj & Hadj).
        rewrite (window_body_two self sorted_frames acc start a b i j) by done.
        by rewrite decide_True.
    - intros Hknown Hnot.
      destruct (Hknown a) as [i Hi]; [rewrite HX; set_solver|].
      destruct (Hknown b) as [j Hj]; [rewrite HX; set_solver|].
      rewrite (window_body_two self sorted_frames acc start a b i j) by done.
      case_decide as Hadj; [|done].
      exfalso. apply Hnot, Hcoh. by exists i, j.
    - lia. }
  (* at most one *)
  assert (Hbody : window_body self sorted_frames acc start = Ok (acc ++ [sequence])).
  { unfold window_body. rewrite Hstrict. fold sequence.
    change (list_to_set (phase <$> sequence)) with X.
    rewrite decide_False by lia. rewrite decide_False by lia. done. }
  assert (Hc : coherent index_of sequence) by (left; fold X; lia).
  rewrite Hbody. split_and!; [done|done|lia].
Qed.

Example skipping_build :
  video_sequences <$> build_sequences skipping_csv 42 2 1 "Train" 0 false "image_seq"
  = Ok [skipping_window].
Proof. vm_compute. reflexivity. Qed.

(** C3, as stated with chronology indices, fails: in a split where no
    frame is labelled [t3], the strict mode keeps a window whose phases
    are [t2] and [t4], at positions 3 and 5 of the chronology. *)
Lemma strict_rule_not_chronology :
  video_sequences <$> build_sequences skipping_csv 42 2 1 "Train" 0 false "image_seq"
  = Ok [skipping_window]
  ∧ distinct_phases skipping_window = {["t2"; "t4"]}
  ∧ chronology_index "t2" = Some 3%nat
  ∧ chronology_index "t4" = Some 5%nat
  ∧ ¬ coherent chronology_index skipping_window.
Proof.
  assert (Hset : distinct_phases skipping_window = {["t2"; "t4"]})
    by (by vm_compute).
  split_and!; [by vm_compute|done|done|done|].
  intros [Hle | (p & q & Hne & Heq & i & j & Hi & Hj & Hadj)].
  - rewrite Hset, size_pair in Hle by done. lia.
  - rewrite Hset in Heq.
    destruct (pair_set_inv "t2" "t4" p q Heq ltac:(done)) as [[-> ->] | [-> ->]];
      vm_compute in Hi, Hj; simplify_eq; lia.
Qed.

(** ** The phase index mapping *)

Lemma chronological_phases_NoDup : NoDup chronological_phases.
Proof. apply (bool_decide_unpack _). by vm_compute. Qed.

Lemma enumerate_snoc {A} (l : list A) (x : A) :
  enumerate (l ++ [x]) = enumerate l ++ [(length l, x)].
Proof.
  unfold enumerate. rewrite imap_app. simpl. by rewrite Nat.add_0_r.
Qed.

Lemma index_mapping_snoc labels x :
  index_mapping (labels ++ [x]) = <[x := length labels]> (index_mapping labels).
Proof. unfold index_mapping. by rewrite enumerate_snoc, foldl_app. Qed.

(** Without repeated labels the mapping sends each label to its position. *)
Lemma index_mapping_lookup labels p (i : nat) :
  NoDup labels →
  index_mapping labels !! p = Some i ↔ labels !! i = Some p.
Proof.
  revert i. induction labels as [|x labels IH] using rev_ind; intros i Hnd.
  - unfold index_mapping. simpl. by rewrite lookup_empty.
  - apply NoDup_app in Hnd as (Hnd & Hnotin & _).
    rewrite index_mapping_snoc.
    destruct (decide (x = p)) as [->|Hne].
    + rewrite lookup_insert_eq. split.
      * intros [= <-]. by rewrite list_lookup_middle.
      * intros Hi.
        destruct (decide (i < length labels)%nat) as [Hlt|Hge].
        -- rewrite lookup_app_l in Hi by done.
           exfalso. apply (Hnotin p); [by eapply list_elem_of_lookup_2|set_solver].
        -- apply lookup_lt_Some in Hi as Hlt. rewrite length_app in Hlt.
           simpl in Hlt. f_equal. lia.
    + rewrite lookup_insert_ne by done. rewrite IH by done. split.
      * intros Hi. apply lookup_lt_Some in Hi as Hlt. by rewrite lookup_app_l.
      * intros Hi.
        destruct (decide (i < length labels)%nat) as [Hlt|Hge].
        -- by rewrite lookup_app_l in Hi.
        -- apply lookup_lt_Some in Hi as Hlt. rewrite length_app in Hlt.
           simpl in Hlt. assert (i = length labels) as -> by lia.
           rewrite list_lookup_middle in Hi by done. congruence.
Qed.

(** Position, among the kept elements, of an element kept by a filter. *)
Lemma filter_lookup_rank {A} (P : A → Prop) `{∀ x, Decision (P x)}
    (l : list A) (k : nat) (x : A) :
  l !! k = Some x → P x →
  filter P l !! length (filter P (take k l)) = Some x.
Proof.
  intros Hk HP.
  pose proof (take_drop_middle l k x Hk) as Hsplit.
  replace (filter P l) with (filter P (take k l ++ x :: drop (S k) l))
    by (by rewrite Hsplit).
  rewrite filter_app, filter_cons_True by done.
  by rewrite list_lookup_middle.
Qed.

(** *** What the constructor leaves in [self] *)

Lemma create_sequences_fields self self' :
  _create_sequences self = Ok self' →
  ∃ vs, self' = with_video_sequences vs self.
Proof.
  unfold _create_sequences. intros H. bind_inv H. injection H as <-. by eexists.
Qed.

Lemma balance_flags_fields `{PyRandom} g self self' g' :
  _balance_flags g self = Ok (self', g') →
  ∃ vs, self' = with_video_sequences vs self.
Proof.
  unfold _balance_flags. intros H0. bind_inv H0. injection H0 as <- <-. by eexists.
Qed.

Lemma build_sequences_fields `{Pandas} csv seed w s used n mp md self :
  build_sequences csv seed w s used n mp md = Ok self →
  ∃ df, load_dataset csv seed used n = Ok df
        ∧ window_size self = w ∧ stride self = s
        ∧ multiple_phases self = mp ∧ mode self = md
        ∧ data_frame self = df
        ∧ phase_labels self = present_phases df
        ∧ phase_to_index self = index_mapping (present_phases df).
Proof.
  unfold build_sequences. intros H0.
  apply bind_Ok in H0 as (df & Hload & H0).
  apply create_sequences_fields in H0 as [vs ->].
  exists df. by split_and!.
Qed.

Lemma finish_init_fields `{PyRandom} balance g self self' g' :
  finish_init balance g self = Ok (self', g') →
  ∃ vs, self' = with_video_sequences vs self.
Proof.
  unfold finish_init. intros H0. bind_inv H0. injection H0 as ->.
  destruct balance.
  - by apply balance_flags_fields in E.
  - injection E as <- <-. exists (video_sequences self). by destruct self.
Qed.

(** C9. After construction, [phase_to_index] holds exactly the canonical
    phases that occur in [data_frame]; [phase_labels] lists them in the
    canonical order; and the index of a present phase is the number of
    present phases before it in the chronology, so the indices are
    [0, 1, 2, ...] without gaps. *)
Theorem phase_mapping_dense `{Pandas} `{PyRandom} (csv : list Row) (seed w s : Z)
    (used : string) (n : Z) (balance mp : bool) (md : string) (g g' : rng)
    (self : Dataset) :
  __init__ csv seed w s used n balance mp md g = Ok (self, g') →
  let present := λ p : string, p ∈ Phase <$> data_frame self in
  phase_labels self = filter present chronological_phases
  ∧ (∀ p, is_Some (phase_to_index self !! p) ↔ p ∈ chronological_phases ∧ present p)
  ∧ (∀ p (i : nat), phase_to_index self !! p = Some i ↔ phase_labels self !! i = Some p)
  ∧ (∀ p (k : nat), chronological_phases !! k = Some p → present p →
       phase_to_index self !! p
       = Some (length (filter present (take k chronological_phases)))).
Proof.
  unfold __init__. intros H1.
  apply bind_Ok in H1 as (built & Hbuilt & H1).
  apply finish_init_fields in H1 as [vs ->].
  apply build_sequences_fields in Hbuilt
    as (df & _ & _ & _ & _ & _ & Hdf & Hlabels & Hmap).
  simpl. rewrite Hdf, Hlabels, Hmap.
  assert (Hnd : NoDup (present_phases df)).
  { unfold present_phases. apply NoDup_filter, chronological_phases_NoDup. }
  assert (Hlk : ∀ p (i : nat),
            index_mapping (present_phases df) !! p = Some i
            ↔ present_phases df !! i = Some p).
  { intros p i. by apply index_mapping_lookup. }
  split_and!.
  - done.
  - intros p. split.
    + intros [i Hi]. apply Hlk in Hi. apply list_elem_of_lookup_2 in Hi.
      unfold present_phases in Hi. apply list_elem_of_filter in Hi. tauto.
    + intros [Hcanon Hpres].
      assert (p ∈ present_phases df) as Hin
        by (unfold present_phases; by apply list_elem_of_filter).
      apply list_elem_of_lookup_1 in Hin as [i Hi]. exists i. by apply Hlk.
  - done.
  - intros p k Hk Hpres. apply Hlk. unfold present_phases.
    by apply (filter_lookup_rank (λ p, p ∈ Phase <$> df)).
Qed.

(** ** The sort key *)

Lemma index_last_option {A} (l : list A) :
  index l (-1) = match last l with
                 | Some x => Ok x
                 | None => Raise (IndexError "list index out of range")
                 end.
Proof.
  destruct l as [|x l] using rev_ind.
  - by rewrite index_nil.
  - by rewrite index_last, last_snoc.
Qed.

Lemma index_0_option {A} (l : list A) :
  index l 0 = match head l with
              | Some x => Ok x
              | None => Raise (IndexError "list index out of range")
              end.
Proof. by destruct l. Qed.

Lemma split_underscore_plain s :
  has_underscore s = false → split_underscore s = [s].
Proof.
  induction s as [|c s IH]; simpl; [done|].
  destruct (Ascii.eqb c "_"); simpl; [done|].
  intros Hs. by rewrite IH.
Qed.

Lemma split_underscore_many s :
  has_underscore s = true → ∃ t u ts, split_underscore s = t :: u :: ts.
Proof.
  induction s as [|c s IH]; simpl; [done|].
  destruct (Ascii.eqb c "_"); simpl.
  - intros _. destruct (has_underscore s) eqn:Hs.
    + destruct (IH eq_refl) as (t & u & ts & ->). by eexists _, _, _.
    + rewrite split_underscore_plain by done. by eexists _, _, _.
  - intros Hs. destruct (IH Hs) as (t & u & ts & ->). by eexists _, _, _.
Qed.

Lemma last_token_plain s : has_underscore s = false → last_token s = s.
Proof.
  destruct s as [|c s]; simpl; [done|].
  destruct (Ascii.eqb c "_"); simpl; [done|]. by intros ->.
Qed.

(** [s.split("_")[-1]] is the final underscore-delimited token. *)
Lemma split_last_token s : last (split_underscore s) = Some (last_token s).
Proof.
  induction s as [|c s IH]; simpl; [done|].
  destruct (has_underscore s) eqn:Hs.
  - destruct (split_underscore_many s Hs) as (t & u & ts & Hsplit).
    rewrite Hsplit in IH |- *. by destruct (Ascii.eqb c "_").
  - rewrite split_underscore_plain in IH |- * by done.
    rewrite last_token_plain in IH by done.
    by destruct (Ascii.eqb c "_").
Qed.

Lemma append_cons (c : ascii) (s t : string) :
  String c s +:+ t = String c (s +:+ t).
Proof. reflexivity. Qed.

Lemma append_nil_l (s : string) : EmptyString +:+ s = s.
Proof. reflexivity. Qed.

Lemma append_nil_r (s : string) : s +:+ EmptyString = s.
Proof. induction s as [|c s IH]; [done|]. by rewrite append_cons, IH. Qed.

Lemma append_assoc (a b c : string) : (a +:+ b) +:+ c = a +:+ (b +:+ c).
Proof. induction a as [|x a IH]; [done|]. by rewrite !append_cons, IH. Qed.

Lemma head_findall_from run s :
  head (findall_from run s)
  = match run with
    | [] => match first_run s with
            | [] => None
            | r => Some r
            end
    | _ => Some (run ++ leading_digits s)
    end.
Proof.
  revert run. induction s as [|c s IH]; intros run; simpl.
  - destruct run; simpl; [done|]. by rewrite app_nil_r.
  - destruct (is_digit c) eqn:Hc.
    + rewrite IH. destruct run as [|r run]; [done|].
      simpl. by rewrite <- app_assoc.
    + destruct run; simpl.
      * by rewrite IH.
      * by rewrite app_nil_r.
Qed.

(** [re.findall(r"\d+", token)[0]] is the first run of digits. *)
Lemma findall_first token :
  head (findall_digits token)
  = match first_digit_run token with [] => None | r => Some r end.
Proof. unfold findall_digits, first_digit_run. by rewrite head_findall_from. Qed.

Lemma ordinal_spec (x : Frame) :
  ordinal x
  = match first_digit_run (last_token (identifier x)) with
    | [] => Raise (IndexError "list index out of range")
    | run => Ok (int run)
    end.
Proof.
  unfold ordinal. rewrite index_last_option, split_last_token. simpl.
  rewrite index_0_option, findall_first.
  by destruct (first_digit_run _).
Qed.

Lemma ordinal_only_IndexError (x : Frame) (e : exn) :
  ordinal x = Raise e → e = IndexError "list index out of range".
Proof.
  rewrite ordinal_spec. destruct (first_digit_run _); congruence.
Qed.

Lemma comprehension_raise {A B} (f : A → result B) (l : list A) (x : A) (e0 : exn) :
  (∀ y e, f y = Raise e → e = e0) →
  x ∈ l → f x = Raise e0 → comprehension f l = Raise e0.
Proof.
  intros Honly Hin Hx. induction l as [|y l IH]; [by apply elem_of_nil in Hin|].
  simpl. destruct (f y) as [b|e] eqn:Hy; simpl.
  - apply elem_of_cons in Hin as [->|Hin]; [congruence|].
    by rewrite IH.
  - by rewrite (Honly y e Hy).
Qed.

Lemma for_loop_raise {S I} (body : S → I → result S) (items : list I) (x : I) :
  x ∈ items → (∀ s, ∃ e, body s x = Raise e) →
  ∀ s, ∃ e, for_loop body items s = Raise e.
Proof.
  intros Hin Hbad. induction items as [|i items IH]; [by apply elem_of_nil in Hin|].
  intros s. simpl.
  apply elem_of_cons in Hin as [<-|Hin].
  - destruct (Hbad s) as [e ->]. by exists e.
  - destruct (body s i) as [s'|e]; simpl; [by apply IH|by exists e].
Qed.

Lemma grouped_append_new video frame grouped :
  ∃ frames, (video, frames) ∈ grouped_append video frame grouped ∧ frame ∈ frames.
Proof.
  induction grouped as [|[v fs] grouped IH]; simpl.
  - exists [frame]. set_solver.
  - case_decide as Hv.
    + subst v. exists (fs ++ [frame]). set_solver.
    + destruct IH as (frames & Hin & Hf). exists frames. set_solver.
Qed.

Lemma grouped_append_old video frame grouped v fs (f : Frame) :
  (v, fs) ∈ grouped → f ∈ fs →
  ∃ frames, (v, frames) ∈ grouped_append video frame grouped ∧ f ∈ frames.
Proof.
  intros Hin Hf. induction grouped as [|[v' fs'] grouped IH]; simpl.
  - by apply elem_of_nil in Hin.
  - apply elem_of_cons in Hin as [Heq|Hin].
    + injection Heq as <- <-. case_decide.
      * exists (fs ++ [frame]). set_solver.
      * exists fs. set_solver.
    + case_decide.
      * exists fs. split; [by apply elem_of_cons; right|done].
      * destruct (IH Hin) as (frames & Hin' & Hf').
        exists frames. split; [by apply elem_of_cons; right|done].
Qed.

(** Every row of the data frame ends up in the group of its video. *)
Lemma group_rows_complete rows row :
  row ∈ rows →
  ∃ frames, (Video_name row, frames) ∈ group_rows rows ∧ frame_of row ∈ frames.
Proof.
  unfold group_rows. induction rows as [|r rows IH] using rev_ind.
  - intros Hin. by apply elem_of_nil in Hin.
  - intros Hin. rewrite foldl_app. simpl.
    apply elem_of_app in Hin as [Hin|Hin].
    + destruct (IH Hin) as (frames & Hg & Hf).
      by eapply grouped_append_old.
    + apply list_elem_of_singleton in Hin as ->. apply grouped_append_new.
Qed.

Lemma video_body_bad_ordinal self acc video frames (x : Frame) :
  x ∈ frames → first_digit_run (last_token (identifier x)) = [] →
  video_body self acc (video, frames) = Raise (IndexError "list index out of range").
Proof.
  intros Hin Hbad. unfold video_body, sorted. simpl.
  rewrite (comprehension_raise ordinal frames x (IndexError "list index out of range")).
  - done.
  - apply ordinal_only_IndexError.
  - done.
  - rewrite ordinal_spec. by rewrite Hbad.
Qed.

Lemma comprehension_raise_only {A B} (P : exn → Prop) (f : A → result B)
    (l : list A) (e : exn) :
  (∀ y e, f y = Raise e → P e) → comprehension f l = Raise e → P e.
Proof.
  intros Honly. induction l as [|y l IH]; simpl; [done|].
  destruct (f y) as [b|e'] eqn:Hy; simpl.
  - destruct (comprehension f l) as [ys|e'']; simpl; [done|].
    intros [= <-]. by apply IH.
  - intros [= <-]. by eapply Honly.
Qed.

Lemma for_loop_raise_only {S I} (P : exn → Prop) (body : S → I → result S)
    (items : list I) (s : S) (e : exn) :
  (∀ s i e, body s i = Raise e → P e) → for_loop body items s = Raise e → P e.
Proof.
  intros Honly. revert s. induction items as [|i items IH]; intros s; simpl; [done|].
  destruct (body s i) as [s'|e'] eqn:Hbody; simpl.
  - apply IH.
  - intros [= <-]. by eapply Honly.
Qed.

(** Without strict validation and with a stride other than zero, the
    only exception that leaves [_create_sequences] is the one of a sort
    key. *)
Lemma create_sequences_only_IndexError self e :
  multiple_phases self = true → stride self ≠ 0 →
  _create_sequences self = Raise e → e = IndexError "list index out of range".
Proof.
  intros Hmp Hstride Hcreate. unfold _create_sequences in Hcreate.
  destruct (for_loop (video_body self) (group_rows (data_frame self))
                     (video_sequences self)) as [vs|e'] eqn:Hloop; [done|].
  injection Hcreate as ->.
  eapply (for_loop_raise_only (λ e, e = IndexError "list index out of range"));
    [|exact Hloop].
  intros acc entry e' Hbody. rewrite video_body_permissive in Hbody by done.
  unfold video_windows, sorted in Hbody.
  destruct (comprehension ordinal entry.2) as [keys|e''] eqn:Hkeys.
  - exfalso. revert Hbody. cbn [mbind result_bind]. unfold candidate_windows, range.
    destruct (Z.eqb_spec (stride self) 0) as [?|_]; [done|]. done.
  - injection Hbody as <-.
    eapply (comprehension_raise_only (λ e, e = IndexError "list index out of range"));
      [|exact Hkeys].
    apply ordinal_only_IndexError.
Qed.

(** C8. The sort key of a frame is the number written by the first run
    of decimal digits in the final underscore-delimited token of its
    identifier.  When that token has no digit the key raises
    [IndexError("list index out of range")], whatever the identifier is,
    and so does the sort of the video that holds the frame; then
    [_create_sequences] and the constructor raise for any data holding
    such a row, with that same exception when validation is permissive
    and the stride is not zero: the frame is neither given a made-up
    ordinal nor left out, and the error names neither the frame nor its
    identifier. *)
Theorem ordinal_extraction :
  (∀ x : Frame,
     ordinal x
     = match first_digit_run (last_token (identifier x)) with
       | [] => Raise (IndexError "list index out of range")
       | run => Ok (int run)
       end)
  ∧ (∀ (self : Dataset) (acc : list (list Frame)) (video : string)
       (frames : list Frame) (x : Frame),
       x ∈ frames →
       first_digit_run (last_token (identifier x)) = [] →
       video_body self acc (video, frames)
       = Raise (IndexError "list index out of range"))
  ∧ (∀ (self : Dataset) (row : Row),
       row ∈ data_frame self →
       first_digit_run (last_token (Identifier row)) = [] →
       (∃ e, _create_sequences self = Raise e)
       ∧ (multiple_phases self = true → stride self ≠ 0 →
          _create_sequences self = Raise (IndexError "list index out of range")))
  ∧ (∀ `{Pandas} `{PyRandom} csv seed w s used n balance mp md (g : rng) df (row : Row),
       load_dataset csv seed used n = Ok df →
       row ∈ df →
       first_digit_run (last_token (Identifier row)) = [] →
       (∃ e, __init__ csv seed w s used n balance mp md g = Raise e)
       ∧ (mp = true → s ≠ 0 →
          __init__ csv seed w s used n balance mp md g
          = Raise (IndexError "list index out of range"))).
Proof.
  assert (Hcreate : ∀ (self : Dataset) (row : Row),
             row ∈ data_frame self →
             first_digit_run (last_token (Identifier row)) = [] →
             (∃ e, _create_sequences self = Raise e)
             ∧ (multiple_phases self = true → stride self ≠ 0 →
                _create_sequences self
                = Raise (IndexError "list index out of range"))).
  { intros self row Hin Hbad.
    assert (Hraise : ∃ e, _create_sequences self = Raise e).
    { destruct (group_rows_complete _ _ Hin) as (frames & Hg & Hf).
      destruct (for_loop_raise (video_body self) (group_rows (data_frame self))
                  (Video_name row, frames) Hg) with (s := video_sequences self)
        as [e He].
      - intros acc. eexists. by eapply video_body_bad_ordinal.
      - exists e. unfold _create_sequences. by rewrite He. }
    split; [done|]. intros Hmp Hstride. destruct Hraise as [e He].
    rewrite He. f_equal. by eapply create_sequences_only_IndexError. }
  split_and!.
  - apply ordinal_spec.
  - intros self acc video frames x. apply video_body_bad_ordinal.
  - done.
  - intros ? ? csv seed w s used n balance mp md g df row Hload Hin Hbad.
    unfold __init__, build_sequences. rewrite Hload. cbn [mbind result_bind].
    match goal with |- context [_create_sequences ?p] => set (self := p) end.
    destruct (Hcreate self row Hin Hbad) as [[e He] Hexact]. split.
    + exists e. by rewrite He.
    + intros -> Hs. by rewrite (Hexact eq_refl Hs).
Qed.

(** ** The transition flag *)

Lemma getitem_loop_None `{Imaging} self sequence :
  for_loop (getitem_body self) sequence None = Ok None.
Proof. induction sequence as [|fr sequence IH]; simpl; [done|apply IH]. Qed.

(** When the frame loop of [__getitem__] runs to its end, the labels it
    collected are the mapping's indices of the frames' phases, in order. *)
Lemma getitem_loop_Some `{Imaging} self sequence imgs labels ids imgs' labels' ids' :
  for_loop (getitem_body self) sequence (Some (imgs, labels, ids))
  = Ok (Some (imgs', labels', ids')) →
  ∃ labs,
    Forall2 (λ fr lab, phase_to_index self !! phase fr = Some lab) sequence labs
    ∧ labels' = labels ++ labs
    ∧ ids' = ids ++ (identifier <$> sequence).
Proof.
  revert imgs labels ids.
  induction sequence as [|fr sequence IH]; intros imgs labels ids; simpl.
  - intros [= <- <- <-]. exists []. by rewrite !app_nil_r.
  - destruct (load_image (path fr)) as [image|]; simpl;
      [|by rewrite getitem_loop_None].
    unfold getitem. destruct (phase_to_index self !! phase fr) as [lab|] eqn:Hlab;
      simpl; [|done].
    intros Hloop. apply IH in Hloop as (labs & Hall & -> & ->).
    exists (lab :: labs). split_and!.
    + by constructor.
    + by rewrite <- app_assoc.
    + by rewrite <- app_assoc.
Qed.

Lemma Forall2_head_last {A B} (R : A → B → Prop) (l : list A) (k : list B) a b :
  Forall2 R l k → head l = Some a → head k = Some b → R a b.
Proof. destruct 1; simpl; congruence. Qed.

Lemma Forall2_last {A B} (R : A → B → Prop) (l : list A) (k : list B) a b :
  Forall2 R l k → last l = Some a → last k = Some b → R a b.
Proof.
  intros Hall. induction Hall as [|x y l k Hxy Hall IH]; [done|].
  destruct Hall as [|x' y' l k Hxy' Hall]; simpl.
  - congruence.
  - intros Ha Hb. by apply IH.
Qed.

Lemma index_0_Ok {A} (l : list A) x : index l 0 = Ok x → head l = Some x.
Proof. rewrite index_0_option. destruct (head l); congruence. Qed.

Lemma index_last_Ok {A} (l : list A) x : index l (-1) = Ok x → last l = Some x.
Proof. rewrite index_last_option. destruct (last l); congruence. Qed.

(** [__getitem__] returns a sample when the window is in range, every
    image loads and stacks, the mode is known and the window has
    [window_size] frames with phases in the mapping. *)
Lemma getitem_returns `{Imaging} (self : Dataset) (idx : nat) (sequence : list Frame) :
  video_sequences self !! idx = Some sequence →
  Forall (λ fr, is_Some (load_image (path fr))
                ∧ is_Some (phase_to_index self !! phase fr)) sequence →
  (∀ imgs, length imgs = length sequence →
           is_Ok (stack_video imgs) = true ∧ is_Ok (stack_image_seq imgs) = true) →
  mode self = "video" ∨ mode self = "image_seq" →
  Z.of_nat (length sequence) = window_size self →
  1 ≤ window_size self →
  ∃ sample, __getitem__ self (Z.of_nat idx) = Ok (Some sample).
Proof.
  intros Hidx Hall Hstack Hmode Hlen Hw.
  unfold __getitem__. rewrite (index_Some _ _ _ Hidx). simpl.
  assert (Hloop : ∀ imgs labels ids,
            ∃ imgs' labs,
              for_loop (getitem_body self) sequence (Some (imgs, labels, ids))
              = Ok (Some (imgs ++ imgs', labels ++ labs,
                          ids ++ (identifier <$> sequence)))
              ∧ length imgs' = length sequence
              ∧ length labs = length sequence).
  { clear Hidx Hlen Hstack. induction Hall as [|fr sequence [[im Him] [lab Hlab]] Hall IH];
      intros imgs labels ids; simpl.
    - exists [], []. by rewrite !app_nil_r.
    - rewrite Him. unfold getitem. rewrite Hlab. simpl.
      destruct (IH (imgs ++ [im]) (labels ++ [lab]) (ids ++ [identifier fr]))
        as (imgs' & labs & -> & Hi & Hl).
      exists (im :: imgs'), (lab :: labs). rewrite <- !app_assoc. simpl.
      split_and!; [done|lia|lia]. }
  destruct (Hloop [] [] []) as (imgs & labs & -> & Hi & Hl). simpl.
  destruct (Hstack imgs Hi) as [Hv Hs].
  assert (∃ tensor,
            (if decide (mode self = "video") then stack_video imgs
             else if decide (mode self = "image_seq") then stack_image_seq imgs
             else Raise (ValueError ("Unknown mode " +:+ mode self)))
            = Ok tensor) as [tensor ->].
  { repeat case_decide.
    - destruct (stack_video imgs); [by eexists|done].
    - destruct (stack_image_seq imgs); [by eexists|done].
    - by destruct Hmode. }
  simpl. rewrite length_fmap. rewrite decide_False by lia.
  destruct sequence as [|fr0 rest]; [simpl in Hlen; lia|].
  destruct labs as [|lab0 labs]; [simpl in Hl; lia|].
  rewrite index_head. simpl.
  apply Forall_cons in Hall as [[_ [l0 Hl0]] Hrest].
  rewrite (getitem_Some _ _ _ Hl0). simpl.
  rewrite (index_last_option (fr0 :: rest)).
  destruct (last (fr0 :: rest)) as [frl|] eqn:Hlast; [|by rewrite last_cons in Hlast; destruct (last rest)].
  simpl.
  assert (is_Some (phase_to_index self !! phase frl)) as [ll Hll].
  { apply last_Some_elem_of in Hlast.
    assert (Forall (λ fr, is_Some (phase_to_index self !! phase fr)) (fr0 :: rest)) as Hk.
    { constructor; [by exists l0|]. eapply Forall_impl; [exact Hrest|]. naive_solver. }
    rewrite Forall_forall in Hk. by apply Hk. }
  rewrite (getitem_Some _ _ _ Hll). simpl.
  rewrite (index_last_option (lab0 :: labs)).
  destruct (last (lab0 :: labs)) as [labl|] eqn:Hlastl;
    [|by rewrite last_cons in Hlastl; destruct (last labs)].
  simpl. by eexists.
Qed.

(** C6. Whenever [__getitem__] returns a sample for a retained window,
    its first and last phase indices are the mapping's indices of the
    phases of the window's first and last frames, and the flag it
    returns is 0 exactly when those two indices are equal and 1
    otherwise.  It does return one when the window is in range, every
    image loads and stacks, the mode is known and the window has
    [window_size] frames with phases in the mapping. *)
Theorem transition_flag_iff `{Imaging} (self : Dataset) :
  (∀ (idx : Z) (images : Tensor) (transition_flag : Z)
     (first_phase_index last_phase_index : nat),
     __getitem__ self idx
     = Ok (Some (images, transition_flag, first_phase_index, last_phase_index)) →
     ∃ sequence first_frame last_frame,
       index (video_sequences self) idx = Ok sequence
       ∧ head sequence = Some first_frame
       ∧ last sequence = Some last_frame
       ∧ phase_to_index self !! phase first_frame = Some first_phase_index
       ∧ phase_to_index self !! phase last_frame = Some last_phase_index
       ∧ (transition_flag = 0 ↔ first_phase_index = last_phase_index)
       ∧ (transition_flag = 1 ↔ first_phase_index ≠ last_phase_index))
  ∧ (∀ (idx : nat) (sequence : list Frame),
       video_sequences self !! idx = Some sequence →
       Forall (λ fr, is_Some (load_image (path fr))
                     ∧ is_Some (phase_to_index self !! phase fr)) sequence →
       (∀ imgs, length imgs = length sequence →
                is_Ok (stack_video imgs) = true
                ∧ is_Ok (stack_image_seq imgs) = true) →
       mode self = "video" ∨ mode self = "image_seq" →
       Z.of_nat (length sequence) = window_size self →
       1 ≤ window_size self →
       ∃ sample, __getitem__ self (Z.of_nat idx) = Ok (Some sample)).
Proof.
  split; [|apply getitem_returns].
  intros idx images transition_flag first_phase_index last_phase_index.
  unfold __getitem__. intros Hget.
  apply bind_Ok in Hget as (sequence & Hseq & Hget).
  apply bind_Ok in Hget as (loaded & Hloop & Hget).
  destruct loaded as [[[imgs labels] ids]|]; [|done].
  apply bind_Ok in Hget as (tensor & _ & Hget).
  case_decide; [done|].
  apply bind_Ok in Hget as (first_frame & Hfirst & Hget).
  apply bind_Ok in Hget as (first_idx & Hfi & Hget).
  apply bind_Ok in Hget as (last_frame & Hlast & Hget).
  apply bind_Ok in Hget as (last_idx & Hli & Hget).
  apply bind_Ok in Hget as (first_label & Hfl & Hget).
  apply bind_Ok in Hget as (last_label & Hll & Hget).
  injection Hget as <- <- <- <-.
  apply getitem_loop_Some in Hloop as (labs & Hall & -> & _). simpl in *.
  apply index_0_Ok in Hfirst, Hfl. apply index_last_Ok in Hlast, Hll.
  pose proof (Forall2_head_last _ _ _ _ _ Hall Hfirst Hfl) as Hf. simpl in Hf.
  pose proof (Forall2_last _ _ _ _ _ Hall Hlast Hll) as Hl. simpl in Hl.
  unfold getitem in Hfi, Hli. rewrite Hf in Hfi. rewrite Hl in Hli.
  injection Hfi as <-. injection Hli as <-.
  exists sequence, first_frame, last_frame.
  split_and!; try done; case_decide; split; intros; (done || lia || congruence).
Qed.

(** ** The class balancer *)

Lemma omap_submseteq {A B} (f : A → option B) (l1 l2 : list A) :
  l1 ⊆+ l2 → omap f l1 ⊆+ omap f l2.
Proof.
  intros Hsub. apply submseteq_Permutation in Hsub as [k Hk].
  rewrite Hk, omap_app. by apply submseteq_inserts_r.
Qed.

Section pick_facts.
Context {A : Type}.
Implicit Types (l : list A) (ps : list nat).

Lemma pick_cons l p ps :
  pick l (p :: ps)
  = match l !! p with Some x => x :: pick l ps | None => pick l ps end.
Proof. unfold pick. simpl. by destruct (l !! p). Qed.

Lemma pick_suffix k l : pick (k ++ l) (seq (length k) (length l)) = l.
Proof.
  unfold pick. revert k. induction l as [|x l IH]; intros k; [done|].
  simpl. rewrite list_lookup_middle by done. simpl. f_equal.
  specialize (IH (k ++ [x])).
  rewrite length_app, Nat.add_1_r, <- app_assoc in IH. exact IH.
Qed.

Lemma pick_all l : pick l (seq 0 (length l)) = l.
Proof. apply (pick_suffix [] l). Qed.

Lemma pick_out_of_range l ps :
  pick l ps = pick l (filter (λ p, p < length l)%nat ps).
Proof.
  induction ps as [|p ps IH]; [done|].
  destruct (decide (p < length l)%nat) as [Hlt|Hge].
  - rewrite filter_cons_True by done. by rewrite !pick_cons, IH.
  - rewrite filter_cons_False by done.
    by rewrite pick_cons, (lookup_ge_None_2 l p) by lia.
Qed.

(** Distinct positions draw without replacement. *)
Lemma pick_submseteq l ps : NoDup ps → pick l ps ⊆+ l.
Proof.
  intros Hnd. rewrite pick_out_of_range.
  rewrite <- (pick_all l) at 2. unfold pick. apply omap_submseteq.
  apply NoDup_submseteq; [by apply NoDup_filter|].
  intros p Hp. apply list_elem_of_filter in Hp as [Hlt _].
  apply elem_of_seq. lia.
Qed.

Lemma pick_length l ps :
  Forall (λ p, p < length l)%nat ps → length (pick l ps) = length ps.
Proof.
  induction 1 as [|p ps Hp Hall IH]; [done|].
  rewrite pick_cons. apply lookup_lt_is_Some_2 in Hp as [x ->].
  simpl. by rewrite IH.
Qed.

(** A rearrangement of all positions rearranges the list. *)
Lemma pick_Permutation l ps : ps ≡ₚ seq 0 (length l) → pick l ps ≡ₚ l.
Proof.
  intros Hperm. unfold pick. rewrite Hperm. fold (pick l (seq 0 (length l))).
  by rewrite pick_all.
Qed.
End pick_facts.

Lemma random_sample_Ok `{RandomContract} {A} (g : rng) (population : list A) (k : nat) :
  (k ≤ length population)%nat →
  ∃ drawn g', random_sample g population k = Ok (drawn, g')
              ∧ length drawn = k ∧ drawn ⊆+ population.
Proof.
  intros Hk. unfold random_sample. rewrite decide_True by done.
  eexists _, _. split_and!; [done| |].
  - rewrite pick_length by (by apply sample_positions_lt).
    by apply sample_positions_length.
  - apply pick_submseteq. by apply sample_positions_NoDup.
Qed.

Lemma random_shuffle_Permutation `{RandomContract} {A} (g : rng) (x : list A) :
  (random_shuffle g x).1 ≡ₚ x.
Proof. unfold random_shuffle. simpl. apply pick_Permutation, shuffle_positions_perm. Qed.

Lemma labels_of_total self seq :
  Forall (λ frame, is_Some (phase_to_index self !! phase frame)) seq →
  ∃ labels, labels_of self seq = Ok labels ∧ length labels = length seq.
Proof.
  unfold labels_of. induction 1 as [|fr seq [lab Hlab] Hall (labels & IH & Hlen)]; simpl.
  - by exists [].
  - rewrite (getitem_Some _ _ _ Hlab). simpl. rewrite IH. simpl.
    exists (lab :: labels). split; [done|]. simpl. by rewrite Hlen.
Qed.

Lemma same_ends_total (labels : list nat) :
  labels ≠ [] → ∃ same, same_ends labels = Ok same.
Proof.
  intros Hne. unfold same_ends. rewrite index_0_option, index_last_option.
  destruct labels as [|x labels]; [done|]. simpl.
  destruct (last (x :: labels)) eqn:E; [by eexists|].
  rewrite last_cons in E. by destruct (last labels).
Qed.

Lemma flag_of_well_formed self seq :
  well_formed self seq → flag_of self seq = Ok 0 ∨ flag_of self seq = Ok 1.
Proof.
  intros [Hne Hall]. unfold flag_of.
  destruct (labels_of_total self seq Hall) as (labels & -> & Hlen). simpl.
  destruct (same_ends_total labels) as [same ->].
  - intros ->. destruct seq; [done|simpl in Hlen; lia].
  - destruct same; simpl; auto.
Qed.

Lemma partition_body_flag self acc seq :
  partition_body self acc seq
  = flag ← flag_of self seq;
    Ok (if decide (flag = 0) then (acc.1 ++ [seq], acc.2) else (acc.1, acc.2 ++ [seq])).
Proof.
  unfold partition_body, flag_of.
  destruct (labels_of self seq) as [labels|]; simpl; [|done].
  destruct (same_ends labels) as [[]|]; simpl; done.
Qed.

(** On well-formed windows the partition loop splits the population by
    flag, keeping the order. *)
Lemma partition_loop self pop acc :
  Forall (well_formed self) pop →
  for_loop (partition_body self) pop acc
  = Ok (acc.1 ++ filter (λ seq, flag_of self seq = Ok 0) pop,
        acc.2 ++ filter (λ seq, flag_of self seq = Ok 1) pop).
Proof.
  intros Hall. revert acc. induction Hall as [|seq pop Hwf Hall IH]; intros acc; simpl.
  - rewrite !app_nil_r. by destruct acc.
  - rewrite partition_body_flag.
    destruct (flag_of_well_formed self seq Hwf) as [Hf|Hf]; rewrite Hf; simpl.
    + rewrite IH. simpl. rewrite filter_cons_True by done.
      rewrite filter_cons_False by congruence. by rewrite <- app_assoc.
    + rewrite IH. simpl. rewrite filter_cons_False by congruence.
      rewrite filter_cons_True by done. by rewrite <- app_assoc.
Qed.

Lemma filter_flags_Permutation self pop :
  Forall (well_formed self) pop →
  filter (λ seq, flag_of self seq = Ok 0) pop
  ++ filter (λ seq, flag_of self seq = Ok 1) pop ≡ₚ pop.
Proof.
  induction 1 as [|seq pop Hwf Hall IH]; [done|].
  destruct (flag_of_well_formed self seq Hwf) as [Hf|Hf].
  - rewrite filter_cons_True by done. rewrite filter_cons_False by congruence.
    simpl. by rewrite IH.
  - rewrite filter_cons_False by congruence. rewrite filter_cons_True by done.
    rewrite <- Permutation_middle. by rewrite IH.
Qed.

Lemma Forall_filter_self {A} (P : A → Prop) `{∀ x, Decision (P x)} (l : list A) :
  Forall P (filter P l).
Proof.
  apply Forall_forall. intros x Hx. by apply list_elem_of_filter in Hx as [? _].
Qed.

Lemma filter_all {A} (P : A → Prop) `{∀ x, Decision (P x)} (l : list A) :
  Forall P l → filter P l = l.
Proof.
  induction 1 as [|x l Hx Hall IH]; [done|].
  by rewrite filter_cons_True, IH by done.
Qed.

Lemma filter_none {A} (P : A → Prop) `{∀ x, Decision (P x)} (l : list A) :
  Forall (λ x, ¬ P x) l → filter P l = [].
Proof.
  induction 1 as [|x l Hx Hall IH]; [done|].
  by rewrite filter_cons_False, IH by done.
Qed.

Lemma submseteq_Forall {A} (P : A → Prop) (l k : list A) :
  l ⊆+ k → Forall P k → Forall P l.
Proof.
  intros Hsub Hk. rewrite Forall_forall in Hk |- *.
  intros x Hx. apply Hk. by eapply elem_of_submseteq.
Qed.

Lemma with_video_sequences_flag vs self seq :
  flag_of (with_video_sequences vs self) seq = flag_of self seq.
Proof. reflexivity. Qed.

(** C4. On a population of well-formed windows with [a] of flag 0 and
    [b] of flag 1, [_balance_flags] returns normally; the new population
    has [min a b] windows of each flag, [2 * min a b] in all; it is drawn
    from the old one without replacement (no window is used more often
    than it occurs there); and it is empty when either class is. *)
Theorem balance_flags_counts `{RandomContract} (g : rng) (self : Dataset) :
  let pop := video_sequences self in
  let a := length (filter (λ seq, flag_of self seq = Ok 0) pop) in
  let b := length (filter (λ seq, flag_of self seq = Ok 1) pop) in
  Forall (well_formed self) pop →
  ∃ out g',
    _balance_flags g self = Ok (with_video_sequences out self, g')
    ∧ length (filter (λ seq, flag_of self seq = Ok 0) out) = Nat.min a b
    ∧ length (filter (λ seq, flag_of self seq = Ok 1) out) = Nat.min a b
    ∧ length out = (2 * Nat.min a b)%nat
    ∧ out ⊆+ pop
    ∧ (a = 0%nat ∨ b = 0%nat → out = []).
Proof.
  intros pop a b Hwf.
  set (F0 := filter (λ seq, flag_of self seq = Ok 0) pop).
  set (F1 := filter (λ seq, flag_of self seq = Ok 1) pop).
  set (n := Nat.min a b).
  destruct (random_sample_Ok (rng_seed 42) F0 n) as (s0 & g0 & Hs0 & Hlen0 & Hsub0);
    [subst n a F0; lia|].
  destruct (random_sample_Ok g0 F1 n) as (s1 & g1 & Hs1 & Hlen1 & Hsub1);
    [subst n b F1; lia|].
  pose proof (random_shuffle_Permutation g1 (s0 ++ s1)) as Hperm.
  exists (random_shuffle g1 (s0 ++ s1)).1, (random_shuffle g1 (s0 ++ s1)).2.
  assert (Hall0 : Forall (λ seq, flag_of self seq = Ok 0) s0).
  { eapply submseteq_Forall; [exact Hsub0|]. apply Forall_filter_self. }
  assert (Hall1 : Forall (λ seq, flag_of self seq = Ok 1) s1).
  { eapply submseteq_Forall; [exact Hsub1|]. apply Forall_filter_self. }
  assert (Hlen : length (random_shuffle g1 (s0 ++ s1)).1 = (2 * n)%nat).
  { rewrite Hperm, length_app. lia. }
  split_and!.
  - unfold _balance_flags. rewrite partition_loop by done. simpl.
    subst n a b F0 F1 pop. rewrite Hs0. simpl. rewrite Hs1. simpl. done.
  - rewrite Hperm, filter_app, length_app.
    rewrite (filter_all _ s0) by done.
    rewrite (filter_none _ s1); [simpl; lia|].
    eapply Forall_impl; [exact Hall1|]. simpl. congruence.
  - rewrite Hperm, filter_app, length_app.
    rewrite (filter_all _ s1) by done.
    rewrite (filter_none _ s0); [simpl; lia|].
    eapply Forall_impl; [exact Hall0|]. simpl. congruence.
  - done.
  - rewrite Hperm. rewrite <- (filter_flags_Permutation self pop Hwf).
    by apply submseteq_app.
  - intros Hempty. apply length_zero_iff_nil. rewrite Hlen. subst n. lia.
Qed.

Lemma for_loop_ext {S I} (body1 body2 : S → I → result S) (items : list I) (s : S) :
  (∀ s i, i ∈ items → body1 s i = body2 s i) →
  for_loop body1 items s = for_loop body2 items s.
Proof.
  revert s. induction items as [|i items IH]; intros s Hext; simpl; [done|].
  rewrite Hext by (by left). destruct (body2 s i); simpl; [|done].
  apply IH. intros s' j Hj. apply Hext. by right.
Qed.

Lemma labels_of_mapping self1 self2 seq :
  phase_to_index self1 = phase_to_index self2 →
  labels_of self1 seq = labels_of self2 seq.
Proof. unfold labels_of. by intros ->. Qed.

(** C7. [_balance_flags] reseeds the generator before it draws and reads
    nothing of [self] but the windows and the index mapping.  So two
    runs on the same population agree in the windows chosen, in their
    order and in the generator state left behind (or raise the same
    exception), whatever state the generator was in and whatever the
    other attributes are. *)
Theorem balance_flags_deterministic `{PyRandom} (g1 g2 : rng) (self1 self2 : Dataset) :
  video_sequences self1 = video_sequences self2 →
  phase_to_index self1 = phase_to_index self2 →
  (λ r : Dataset * rng, (video_sequences r.1, r.2)) <$> _balance_flags g1 self1
  = (λ r : Dataset * rng, (video_sequences r.1, r.2)) <$> _balance_flags g2 self2.
Proof.
  intros Hpop Hmap. unfold _balance_flags. rewrite <- Hpop.
  rewrite (for_loop_ext (partition_body self1) (partition_body self2)).
  - destruct (for_loop (partition_body self2) (video_sequences self1) ([], []))
      as [[F0 F1]|e]; simpl; [|done].
    destruct (random_sample (rng_seed 42) F0 _) as [[s0 g0]|e0]; simpl; [|done].
    by destruct (random_sample g0 F1 _) as [[s1 g']|e1].
  - intros acc seq _. unfold partition_body.
    by rewrite (labels_of_mapping self1 self2 seq Hmap).
Qed.

(** *** Where the frames of a window come from *)

Lemma for_loop_invariant {S I} (P : S → Prop) (body : S → I → result S)
    (items : list I) (s0 s : S) :
  (∀ s i s', i ∈ items → P s → body s i = Ok s' → P s') →
  P s0 → for_loop body items s0 = Ok s → P s.
Proof.
  revert s0. induction items as [|i items IH]; intros s0 Hstep H0; simpl.
  - by intros [= <-].
  - intros Hloop. apply bind_Ok in Hloop as (s1 & Hbody & Hloop).
    eapply IH; [|exact (Hstep s0 i s1 ltac:(left) H0 Hbody)|exact Hloop].
    intros s' j s'' Hj. apply Hstep. by right.
Qed.

Lemma grouped_append_sound video frame grouped v frames (f : Frame) :
  (v, frames) ∈ grouped_append video frame grouped → f ∈ frames →
  f = frame ∨ ∃ frames', (v, frames') ∈ grouped ∧ f ∈ frames'.
Proof.
  induction grouped as [|[v' fs'] grouped IH]; simpl; intros Hin Hf.
  - apply list_elem_of_singleton in Hin. injection Hin as -> ->.
    apply list_elem_of_singleton in Hf. by left.
  - case_decide.
    + apply elem_of_cons in Hin as [Heq|Hin].
      * injection Heq as -> ->. apply elem_of_app in Hf as [Hf|Hf].
        -- right. exists fs'. split; [by left|done].
        -- apply list_elem_of_singleton in Hf. by left.
      * right. exists frames. split; [by right|done].
    + apply elem_of_cons in Hin as [Heq|Hin].
      * injection Heq as -> ->. right. exists fs'. split; [by left|done].
      * destruct (IH Hin Hf) as [->|(frames' & Hin' & Hf')]; [by left|].
        right. exists frames'. split; [by right|done].
Qed.

(** Every grouped frame was made from a row of the data frame. *)
Lemma group_rows_sound rows v frames (f : Frame) :
  (v, frames) ∈ group_rows rows → f ∈ frames →
  ∃ row, row ∈ rows ∧ f = frame_of row.
Proof.
  unfold group_rows. revert v frames.
  induction rows as [|r rows IH] using rev_ind; intros v frames.
  - simpl. intros Hin. by apply elem_of_nil in Hin.
  - rewrite foldl_app. simpl. intros Hin Hf.
    destruct (grouped_append_sound _ _ _ _ _ _ Hin Hf) as [->|(frames' & Hin' & Hf')].
    + exists r. split; [set_solver|done].
    + destruct (IH _ _ Hin' Hf') as (row & Hrow & ->).
      exists row. split; [set_solver|done].
Qed.

Lemma comprehension_length {A B} (f : A → result B) (l : list A) (ys : list B) :
  comprehension f l = Ok ys → length ys = length l.
Proof.
  revert ys. induction l as [|x l IH]; intros ys; simpl.
  - by intros [= <-].
  - intros H. apply bind_Ok in H as (y & _ & H).
    apply bind_Ok in H as (ys' & Hys & H). injection H as <-.
    simpl. by rewrite (IH ys').
Qed.

Lemma insert_by_key_Permutation {A} (k : Z) (x : A) (l : list (Z * A)) :
  insert_by_key k x l ≡ₚ (k, x) :: l.
Proof.
  induction l as [|[k' y] l IH]; simpl; [done|].
  destruct (k <=? k'); [done|]. by rewrite IH, Permutation_swap.
Qed.

Lemma sort_keyed_Permutation {A} (l : list (Z * A)) : sort_keyed l ≡ₚ l.
Proof.
  unfold sort_keyed. induction l as [|[k x] l IH]; simpl; [done|].
  by rewrite insert_by_key_Permutation, IH.
Qed.

(** [sorted] rearranges its argument. *)
Lemma sorted_Permutation {A} (key : A → result Z) (l l' : list A) :
  sorted key l = Ok l' → l' ≡ₚ l.
Proof.
  unfold sorted. intros H. apply bind_Ok in H as (keys & Hkeys & H).
  injection H as <-. apply comprehension_length in Hkeys.
  rewrite sort_keyed_Permutation. by rewrite snd_zip by lia.
Qed.

Lemma insert_by_key_sorted {A} (k : Z) (x : A) (l : list (Z * A)) :
  StronglySorted (λ a b, a.1 ≤ b.1) l →
  StronglySorted (λ a b, a.1 ≤ b.1) (insert_by_key k x l).
Proof.
  induction 1 as [|[k' y] l Hl IH Hall]; simpl.
  - repeat constructor.
  - destruct (Z.leb_spec k k').
    + constructor; [by constructor|]. constructor; [done|].
      eapply Forall_impl; [exact Hall|]. simpl. intros; lia.
    + constructor; [done|]. rewrite insert_by_key_Permutation.
      constructor; [simpl; lia|done].
Qed.

Lemma sort_keyed_sorted {A} (l : list (Z * A)) :
  StronglySorted (λ a b, a.1 ≤ b.1) (sort_keyed l).
Proof.
  unfold sort_keyed. induction l as [|[k x] l IH]; simpl; [constructor|].
  by apply insert_by_key_sorted.
Qed.

Lemma comprehension_zip {A B} (f : A → result B) (l : list A) (ys : list B) :
  comprehension f l = Ok ys → Forall (λ yx, f yx.2 = Ok yx.1) (zip ys l).
Proof.
  revert ys. induction l as [|x l IH]; intros ys; simpl.
  - intros [= <-]. constructor.
  - intros H. apply bind_Ok in H as (y & Hy & H).
    apply bind_Ok in H as (ys' & Hys & H). injection H as <-.
    simpl. constructor; [done|by apply IH].
Qed.

Lemma comprehension_keyed {A B} (f : A → result B) (pairs : list (B * A)) :
  Forall (λ yx, f yx.2 = Ok yx.1) pairs →
  comprehension f pairs.*2 = Ok pairs.*1.
Proof.
  induction 1 as [|[y x] pairs Hyx Hall IH]; [done|].
  simpl in Hyx. rewrite !fmap_cons. simpl. rewrite Hyx. simpl. by rewrite IH.
Qed.

(** [sorted] puts the keys in ascending order. *)
Lemma sorted_ascending {A} (key : A → result Z) (l l' : list A) :
  sorted key l = Ok l' →
  ∃ keys, comprehension key l' = Ok keys ∧ StronglySorted Z.le keys.
Proof.
  unfold sorted. intros H. apply bind_Ok in H as (keys & Hkeys & H).
  injection H as <-. exists (sort_keyed (zip keys l)).*1. split.
  - apply comprehension_keyed. rewrite sort_keyed_Permutation.
    by apply comprehension_zip.
  - pose proof (sort_keyed_sorted (zip keys l)) as Hs.
    induction Hs as [|a pairs Hs IH Hall]; simpl; constructor; [done|].
    apply Forall_fmap. eapply Forall_impl; [exact Hall|]. done.
Qed.

Lemma elem_of_slice {A} (l : list A) (lo hi : Z) (x : A) :
  x ∈ slice l lo hi → x ∈ l.
Proof.
  unfold slice. intros Hx.
  eapply elem_of_sublist; [exact Hx|].
  etrans; [apply sublist_take|apply sublist_drop].
Qed.

Lemma window_body_cases self sorted_frames acc start acc' :
  window_body self sorted_frames acc start = Ok acc' →
  acc' = acc
  ∨ acc' = acc ++ [slice sorted_frames start (start + window_size self)].
Proof.
  unfold window_body. intros Hbody.
  repeat case_match; simplify_eq; auto.
  apply bind_Ok in Hbody as (idxs & _ & Hbody).
  apply bind_Ok in Hbody as (hi & _ & Hbody).
  apply bind_Ok in Hbody as (lo & _ & Hbody).
  case_decide; simplify_eq; auto.
Qed.

(** The frames of every window produced by [_create_sequences] are
    frames of the data frame. *)
Lemma create_sequences_frames self self' :
  video_sequences self = [] →
  _create_sequences self = Ok self' →
  ∀ seq frame, seq ∈ video_sequences self' → frame ∈ seq →
               ∃ row, row ∈ data_frame self ∧ frame = frame_of row.
Proof.
  intros Hempty Hcreate. unfold _create_sequences in Hcreate.
  apply bind_Ok in Hcreate as (vs & Hloop & Hcreate). injection Hcreate as <-.
  simpl. rewrite Hempty in Hloop.
  set (P := λ acc : list (list Frame),
              ∀ seq frame, seq ∈ acc → frame ∈ seq →
                           ∃ row, row ∈ data_frame self ∧ frame = frame_of row).
  change (P vs). eapply for_loop_invariant; [|
    |exact Hloop].
  - intros acc [v frames] acc' Hentry Hacc Hbody. unfold video_body in Hbody.
    apply bind_Ok in Hbody as (sorted_frames & Hsorted & Hbody).
    apply bind_Ok in Hbody as (starts & _ & Hbody). simpl in Hsorted.
    apply sorted_Permutation in Hsorted.
    eapply for_loop_invariant; [| exact Hacc | exact Hbody].
    intros acc1 start acc2 _ Hacc1 Hwin.
    apply window_body_cases in Hwin as [->| ->]; [done|].
    intros seq frame Hseq Hframe. apply elem_of_app in Hseq as [Hseq|Hseq].
    + by eapply Hacc1.
    + apply list_elem_of_singleton in Hseq as ->.
      apply elem_of_slice in Hframe. rewrite Hsorted in Hframe.
      by eapply group_rows_sound.
  - intros seq frame Hseq. by apply elem_of_nil in Hseq.
Qed.

Lemma built_windows_phases `{Pandas} csv seed w s used n mp md self :
  build_sequences csv seed w s used n mp md = Ok self →
  ∀ seq frame, seq ∈ video_sequences self → frame ∈ seq →
               phase frame ∈ Phase <$> data_frame self.
Proof.
  intros Hbuild seq frame Hseq Hframe.
  pose proof Hbuild as Hfields.
  apply build_sequences_fields in Hfields as (df & _ & _ & _ & _ & _ & Hdf & _ & _).
  unfold build_sequences in Hbuild.
  apply bind_Ok in Hbuild as (df' & Hload & Hcreate).
  destruct (λ He, create_sequences_frames _ _ He Hcreate seq frame Hseq Hframe)
    as (row & Hrow & ->); [done|].
  simpl in Hrow.
  pose proof Hcreate as Hf. apply create_sequences_fields in Hf as [vs ->].
  simpl. apply list_elem_of_fmap. by exists row.
Qed.

(** Every start handed out by the loop's range leaves room for a whole
    window. *)
Lemma range_starts_fit (L w s : Z) (starts : list Z) (start : Z) :
  1 ≤ s → range 0 (L - w + 1) s = Ok starts → start ∈ starts →
  0 ≤ start ∧ start + w ≤ L.
Proof.
  intros Hs Hrange Hin. rewrite range_from_0 in Hrange by done.
  injection Hrange as <-.
  apply list_elem_of_fmap in Hin as (k & -> & Hk).
  apply list_elem_of_lookup_1 in Hk as [i Hi].
  apply lookup_seqZ in Hi as [-> Hi].
  replace (L - w + 1 - 1) with (L - w) in Hi by lia.
  apply offset_fits in Hi; [|done|lia]. lia.
Qed.

(** The invariant of the data model: with [window_size ≥ 1] and
    [stride ≥ 1], every window kept by [_create_sequences], in either
    mode, has exactly [window_size] frames. *)
Lemma create_sequences_lengths self self' :
  1 ≤ window_size self → 1 ≤ stride self →
  Forall (λ win, Z.of_nat (length win) = window_size self) (video_sequences self) →
  _create_sequences self = Ok self' →
  Forall (λ win, Z.of_nat (length win) = window_size self) (video_sequences self').
Proof.
  intros Hw Hs Hinit Hcreate. unfold _create_sequences in Hcreate.
  apply bind_Ok in Hcreate as (vs & Hloop & Hcreate). injection Hcreate as <-.
  simpl. eapply for_loop_invariant; [|exact Hinit|exact Hloop].
  intros acc [v frames] acc' _ Hacc Hbody. unfold video_body in Hbody.
  apply bind_Ok in Hbody as (sorted_frames & _ & Hbody).
  apply bind_Ok in Hbody as (starts & Hrange & Hbody).
  eapply for_loop_invariant; [|exact Hacc|exact Hbody].
  intros acc1 start acc2 Hstart Hacc1 Hwin.
  apply window_body_cases in Hwin as [->| ->]; [done|].
  apply Forall_app. split; [done|]. constructor; [|done].
  destruct (range_starts_fit _ _ _ _ _ Hs Hrange Hstart).
  apply slice_length; lia.
Qed.

(** *** When the mapping and the chronology agree on adjacency *)

Lemma chronology_index_lookup (p : string) (j : nat) :
  chronology_index p = Some j ↔ chronological_phases !! j = Some p.
Proof.
  unfold chronology_index. split.
  - intros H. destruct (list_find _ _) as [[i x]|] eqn:E; [|done].
    injection H as ->. apply list_find_Some in E as (Hx & -> & _). done.
  - intros Hj.
    destruct (list_find (λ q, q = p) chronological_phases) as [[i x]|] eqn:E.
    + apply list_find_Some in E as (Hx & -> & _). simpl. f_equal.
      by eapply NoDup_lookup; [apply chronological_phases_NoDup|..].
    + apply list_find_None in E. rewrite Forall_forall in E.
      exfalso. apply (E p); [by eapply list_elem_of_lookup_2|done].
Qed.

(** When the phases present are a stretch of the chronology without a
    gap, indices in the mapping are chronology positions shifted by a
    constant, and the strict rule is the same on either. *)
Lemma coherent_chronology_contiguous self (sequence : list Frame) (k m : nat) :
  phase_to_index self = index_mapping (take m (drop k chronological_phases)) →
  (∀ p, p ∈ distinct_phases sequence → p ∈ chronological_phases →
        p ∈ take m (drop k chronological_phases)) →
  coherent (λ p, phase_to_index self !! p) sequence
  ↔ coherent chronology_index sequence.
Proof.
  intros Hmap Hpresent.
  set (labels := take m (drop k chronological_phases)) in *.
  assert (Hnd : NoDup labels).
  { unfold labels.
    apply (sublist_NoDup _ chronological_phases);
      [apply chronological_phases_NoDup|].
    etrans; [apply sublist_take|apply sublist_drop]. }
  assert (Hshift : ∀ p (i : nat),
            labels !! i = Some p → chronological_phases !! (k + i)%nat = Some p).
  { intros p i Hi. unfold labels in Hi.
    apply lookup_take_Some in Hi as [Hi _]. by rewrite lookup_drop in Hi. }
  assert (Hto : ∀ p (i : nat),
            phase_to_index self !! p = Some i → chronology_index p = Some (k + i)%nat).
  { intros p i Hi. rewrite Hmap in Hi. apply index_mapping_lookup in Hi; [|done].
    by apply chronology_index_lookup, Hshift. }
  assert (Hfrom : ∀ p (a : nat),
            p ∈ distinct_phases sequence → chronology_index p = Some a →
            ∃ i : nat, phase_to_index self !! p = Some i ∧ a = (k + i)%nat).
  { intros p a Hp Ha. apply chronology_index_lookup in Ha.
    assert (p ∈ labels) as Hin
      by (apply Hpresent; [done|by eapply list_elem_of_lookup_2]).
    apply list_elem_of_lookup_1 in Hin as [i Hi]. exists i. split.
    - rewrite Hmap. by apply index_mapping_lookup.
    - eapply NoDup_lookup; [apply chronological_phases_NoDup|exact Ha|].
      by apply Hshift. }
  unfold coherent. split.
  - intros [Hle|(p & q & Hne & Hset & i & j & Hi & Hj & Hadj)]; [by left|].
    right. exists p, q. split_and!; [done|done|].
    exists (k + i)%nat, (k + j)%nat. split_and!; [by apply Hto|by apply Hto|lia].
  - intros [Hle|(p & q & Hne & Hset & a & b & Ha & Hb & Hadj)]; [by left|].
    right. exists p, q. split_and!; [done|done|].
    destruct (Hfrom p a) as (i & Hi & ->); [rewrite Hset; set_solver|done|].
    destruct (Hfrom q b) as (j & Hj & ->); [rewrite Hset; set_solver|done|].
    exists i, j. split_and!; [done|done|lia].
Qed.

(** *** The flags do not depend on which mapping indexes the phases *)

Lemma index_mapping_inj labels (p q : string) (i : nat) :
  NoDup labels →
  index_mapping labels !! p = Some i → index_mapping labels !! q = Some i → p = q.
Proof.
  intros Hnd Hp Hq. apply index_mapping_lookup in Hp, Hq; [|done..]. congruence.
Qed.

Lemma labels_of_agree d1 d2 seq :
  (∀ fr, fr ∈ seq →
         (is_Some (phase_to_index d1 !! phase fr)
          ↔ is_Some (phase_to_index d2 !! phase fr))) →
  match labels_of d1 seq, labels_of d2 seq with
  | Ok l1, Ok l2 =>
      Forall2 (λ fr lab, phase_to_index d1 !! phase fr = Some lab) seq l1
      ∧ Forall2 (λ fr lab, phase_to_index d2 !! phase fr = Some lab) seq l2
  | Raise e1, Raise e2 => e1 = e2
  | _, _ => False
  end.
Proof.
  unfold labels_of. induction seq as [|fr seq IH]; intros Hsame; simpl.
  - split; constructor.
  - pose proof (Hsame fr ltac:(left)) as Hfr. unfold getitem.
    destruct (phase_to_index d1 !! phase fr) as [a|] eqn:H1;
      destruct (phase_to_index d2 !! phase fr) as [b|] eqn:H2; simpl.
    + assert (∀ fr', fr' ∈ seq →
                     (is_Some (phase_to_index d1 !! phase fr')
                      ↔ is_Some (phase_to_index d2 !! phase fr'))) as Hrest
        by (intros fr' Hin; apply Hsame; by right).
      specialize (IH Hrest).
      destruct (comprehension _ seq) as [l1|e1];
        destruct (comprehension _ seq) as [l2|e2]; simpl; try done.
      destruct IH. split; by constructor.
    + destruct Hfr as [Hfr _]. by destruct Hfr.
    + destruct Hfr as [_ Hfr]. by destruct Hfr.
    + done.
Qed.

Lemma same_ends_agree (m1 m2 : gmap string nat) (seq : list Frame) (l1 l2 : list nat) :
  (∀ p q i, m1 !! p = Some i → m1 !! q = Some i → p = q) →
  (∀ p q i, m2 !! p = Some i → m2 !! q = Some i → p = q) →
  Forall2 (λ fr lab, m1 !! phase fr = Some lab) seq l1 →
  Forall2 (λ fr lab, m2 !! phase fr = Some lab) seq l2 →
  same_ends l1 = same_ends l2.
Proof.
  intros Hinj1 Hinj2 Hall1 Hall2. unfold same_ends.
  rewrite !index_0_option, !index_last_option.
  destruct Hall1 as [|fr a seq l1 Ha Hall1]; inversion Hall2 as [|? b ? l2' Hb Hall2']; subst;
    [done|]. simpl.
  destruct (last (fr :: seq)) as [frl|] eqn:Hlast;
    [|rewrite last_cons in Hlast; by destruct (last seq)].
  destruct (last (a :: l1)) as [t1|] eqn:Hl1;
    [|rewrite last_cons in Hl1; by destruct (last l1)].
  destruct (last (b :: l2')) as [t2|] eqn:Hl2;
    [|rewrite last_cons in Hl2; by destruct (last l2')].
  simpl. f_equal.
  assert (Forall2 (λ fr lab, m1 !! phase fr = Some lab) (fr :: seq) (a :: l1))
    as Hall1' by (by constructor).
  pose proof (Forall2_last _ _ _ _ _ Hall1' Hlast Hl1) as Ht1.
  pose proof (Forall2_last _ _ _ _ _ Hall2 Hlast Hl2) as Ht2.
  simpl in Ht1, Ht2.
  apply bool_decide_ext. split; intros ->.
  - assert (phase fr = phase frl) as Heq by (by eapply Hinj1).
    rewrite Heq in Hb. congruence.
  - assert (phase fr = phase frl) as Heq by (by eapply Hinj2).
    rewrite Heq in Ha. congruence.
Qed.

Lemma built_mapping `{Pandas} csv seed w s used n mp md self :
  build_sequences csv seed w s used n mp md = Ok self →
  (∀ p q i, phase_to_index self !! p = Some i → phase_to_index self !! q = Some i
            → p = q)
  ∧ (∀ p, is_Some (phase_to_index self !! p)
          ↔ p ∈ chronological_phases ∧ p ∈ Phase <$> data_frame self).
Proof.
  intros Hbuild.
  apply build_sequences_fields in Hbuild as (df & _ & _ & _ & _ & _ & Hdf & _ & Hmap).
  rewrite Hmap, Hdf.
  assert (Hnd : NoDup (present_phases df)).
  { unfold present_phases. apply NoDup_filter, chronological_phases_NoDup. }
  split.
  - intros p q i. by apply index_mapping_inj.
  - intros p. split.
    + intros [i Hi]. apply index_mapping_lookup in Hi; [|done].
      apply list_elem_of_lookup_2 in Hi.
      unfold present_phases in Hi. apply list_elem_of_filter in Hi. tauto.
    + intros [Hcanon Hpres].
      assert (p ∈ present_phases df) as Hin
        by (unfold present_phases; by apply list_elem_of_filter).
      apply list_elem_of_lookup_1 in Hin as [i Hi]. exists i.
      by apply index_mapping_lookup.
Qed.

(** A population built from canonical phases is made of well-formed
    windows. *)
Lemma built_well_formed `{Pandas} csv seed w s used n mp md self :
  build_sequences csv seed w s used n mp md = Ok self →
  1 ≤ w → 1 ≤ s →
  (∀ r, r ∈ data_frame self → Phase r ∈ chronological_phases) →
  Forall (well_formed self) (video_sequences self).
Proof.
  intros Hbuild Hw Hs Hcanon.
  pose proof (built_windows_phases _ _ _ _ _ _ _ _ _ Hbuild) as Hphases.
  destruct (built_mapping _ _ _ _ _ _ _ _ _ Hbuild) as [_ Hdom].
  assert (Hlen : Forall (λ win, Z.of_nat (length win) = w) (video_sequences self)).
  { unfold build_sequences in Hbuild.
    apply bind_Ok in Hbuild as (df & _ & Hcreate).
    eapply (create_sequences_lengths _ self) in Hcreate; [exact Hcreate|done..]. }
  apply Forall_forall. intros seq Hseq. split.
  - rewrite Forall_forall in Hlen. specialize (Hlen seq Hseq).
    intros ->. simpl in Hlen. lia.
  - apply Forall_forall. intros frame Hframe. apply Hdom.
    pose proof (Hphases seq frame Hseq Hframe) as Hin. split; [|done].
    apply list_elem_of_fmap in Hin as (r & -> & Hr). by apply Hcanon.
Qed.

(** C10. The constructor's [seed] reaches pandas only.  Take two
    constructions that differ in [seed] alone and arrive at the same
    windows before balancing: then [_balance_flags] leaves the same
    windows in the same order in both (or raises the same exception in
    both), whatever state the module generator was in. *)
Theorem balance_independent_of_seed `{Pandas} `{PyRandom} (csv : list Row)
    (seed1 seed2 w s : Z) (used : string) (n : Z) (mp : bool) (md : string)
    (g1 g2 : rng) (self1 self2 : Dataset) :
  build_sequences csv seed1 w s used n mp md = Ok self1 →
  build_sequences csv seed2 w s used n mp md = Ok self2 →
  video_sequences self1 = video_sequences self2 →
  (λ r : Dataset * rng, video_sequences r.1) <$> _balance_flags g1 self1
  = (λ r : Dataset * rng, video_sequences r.1) <$> _balance_flags g2 self2.
Proof.
  intros Hb1 Hb2 Hvs.
  destruct (built_mapping _ _ _ _ _ _ _ _ _ Hb1) as [Hinj1 Hdom1].
  destruct (built_mapping _ _ _ _ _ _ _ _ _ Hb2) as [Hinj2 Hdom2].
  assert (Hloop : for_loop (partition_body self1) (video_sequences self1) ([], [])
                  = for_loop (partition_body self2) (video_sequences self2) ([], [])).
  { rewrite <- Hvs. apply for_loop_ext. intros acc seq Hseq.
    unfold partition_body.
    pose proof (labels_of_agree self1 self2 seq) as Hlab.
    destruct (labels_of self1 seq) as [l1|e1]; destruct (labels_of self2 seq) as [l2|e2];
      simpl.
    - destruct Hlab as [Hall1 Hall2].
      + intros fr Hfr. rewrite Hdom1, Hdom2.
        pose proof (built_windows_phases _ _ _ _ _ _ _ _ _ Hb1 seq fr Hseq Hfr).
        pose proof (built_windows_phases _ _ _ _ _ _ _ _ _ Hb2 seq fr
                      ltac:(by rewrite <- Hvs) Hfr).
        tauto.
      + by rewrite (same_ends_agree _ _ seq l1 l2 Hinj1 Hinj2 Hall1 Hall2).
    - exfalso. apply Hlab. intros fr Hfr. rewrite Hdom1, Hdom2.
      pose proof (built_windows_phases _ _ _ _ _ _ _ _ _ Hb1 seq fr Hseq Hfr).
      pose proof (built_windows_phases _ _ _ _ _ _ _ _ _ Hb2 seq fr
                    ltac:(by rewrite <- Hvs) Hfr).
      tauto.
    - exfalso. apply Hlab. intros fr Hfr. rewrite Hdom1, Hdom2.
      pose proof (built_windows_phases _ _ _ _ _ _ _ _ _ Hb1 seq fr Hseq Hfr).
      pose proof (built_windows_phases _ _ _ _ _ _ _ _ _ Hb2 seq fr
                    ltac:(by rewrite <- Hvs) Hfr).
      tauto.
    - f_equal. apply Hlab. intros fr Hfr. rewrite Hdom1, Hdom2.
      pose proof (built_windows_phases _ _ _ _ _ _ _ _ _ Hb1 seq fr Hseq Hfr).
      pose proof (built_windows_phases _ _ _ _ _ _ _ _ _ Hb2 seq fr
                    ltac:(by rewrite <- Hvs) Hfr).
      tauto. }
  unfold _balance_flags. rewrite Hloop.
  destruct (for_loop (partition_body self2) (video_sequences self2) ([], []))
    as [[F0 F1]|e]; simpl; [|done].
  destruct (random_sample (rng_seed 42) F0 _) as [[s0 g0]|e0]; simpl; [|done].
  destruct (random_sample g0 F1 _) as [[s1 g']|e1]; simpl; done.
Qed.

(** ** Online prediction *)

Lemma range_unit (hi : Z) : range 0 hi 1 = Ok (seqZ 0 (Z.max 0 hi)).
Proof.
  rewrite range_from_0 by lia. f_equal.
  replace ((hi - 1) `div` 1 + 1) with hi by (rewrite Z.div_1_r; lia).
  rewrite <- (list_fmap_id (seqZ 0 (Z.max 0 hi))) at 2.
  apply list_fmap_ext. intros i k _. simpl. lia.
Qed.

Lemma select_model_supported (frame_count : Z) :
  is_Some (select_model frame_count) ↔ frame_count = 8 ∨ frame_count = 32.
Proof.
  unfold select_model.
  destruct (Z.eqb_spec frame_count 8); [by split; eauto|].
  destruct (Z.eqb_spec frame_count 32); [by split; eauto|].
  split; [by intros [? ?]|lia].
Qed.

Lemma random_loop `{PyRandom} (starts : list Z) (acc : list Z) (g : rng) :
  ∃ draws g',
    for_loop random_body starts (acc, g) = Ok (acc ++ draws, g')
    ∧ length draws = length starts.
Proof.
  revert acc g. induction starts as [|i starts IH]; intros acc g; simpl.
  - exists [], g. by rewrite app_nil_r.
  - destruct (IH (acc ++ [(randint01 g).1]) (randint01 g).2)
      as (draws & g' & Hloop & Hlen).
    exists ((randint01 g).1 :: draws), g'. split.
    + change (random_body (acc, g) i)
        with (Ok (acc ++ [(randint01 g).1], (randint01 g).2) : result (list Z * rng)).
      simpl. rewrite Hloop. by rewrite <- app_assoc.
    + simpl. by rewrite Hlen.
Qed.

(** With a generator that keeps its contract the substituted predictions
    are binary. *)
Lemma random_loop_binary `{RandomContract} (starts : list Z) (acc out : list Z)
    (g g' : rng) :
  for_loop random_body starts (acc, g) = Ok (out, g') →
  Forall (λ d, d = 0 ∨ d = 1) acc → Forall (λ d, d = 0 ∨ d = 1) out.
Proof.
  revert acc g. induction starts as [|i starts IH]; intros acc g; simpl.
  - by intros [= <- <-].
  - change (random_body (acc, g) i)
      with (Ok (acc ++ [(randint01 g).1], (randint01 g).2) : result (list Z * rng)).
    simpl. intros Hloop Hacc. eapply IH; [exact Hloop|].
    apply Forall_app. split; [done|]. constructor; [apply randint01_range|done].
Qed.

Lemma decode_loop `{Inference} (images : list string) (pictures : list Picture) :
  Forall2 (λ img pic, decode_image img = inr pic) images pictures →
  ∀ (h : nat → nat) acc,
    foldl decode_body (inr acc) (imap (λ i x, (h i, x)) images)
    = inr (acc ++ pictures).
Proof.
  induction 1 as [|img pic images pictures Hdec Hall IH]; intros h acc.
  - simpl. by rewrite app_nil_r.
  - rewrite imap_cons. simpl. rewrite Hdec.
    rewrite (IH (h ∘ S)). by rewrite <- app_assoc.
Qed.

Lemma decode_all `{Inference} (images : list string) (pictures : list Picture) :
  Forall2 (λ img pic, decode_image img = inr pic) images pictures →
  foldl decode_body (inr []) (enumerate images) = inr pictures.
Proof. intros Hall. exact (decode_loop images pictures Hall id []). Qed.

Lemma Forall2_choice {A B} (R : A → B → Prop) (l : list A) :
  (∀ x, x ∈ l → ∃ y, R x y) → ∃ k, Forall2 R l k.
Proof.
  induction l as [|x l IH]; intros Hall.
  - by exists [].
  - destruct (Hall x ltac:(left)) as [y Hy].
    destruct IH as [k Hk]; [intros x' Hx'; apply Hall; by right|].
    exists (y :: k). by constructor.
Qed.

Lemma inference_loop `{Inference} (model : Model) (mode : string) (frame_count : Z)
    (images_tensor : list Picture) (starts : list Z) (results acc : list Z) :
  Forall2 (λ start r,
             classify model mode (slice images_tensor start (start + frame_count))
             = Ok r) starts results →
  for_loop (inference_body model mode frame_count images_tensor) starts acc
  = Ok (acc ++ results).
Proof.
  intros Hall. revert acc.
  induction Hall as [|start r starts results Hr Hall IH]; intros acc; simpl.
  - by rewrite app_nil_r.
  - change (inference_body model mode frame_count images_tensor acc start)
      with (classify model mode (slice images_tensor start (start + frame_count))
            ≫= λ prediction, Ok (acc ++ [prediction])).
    rewrite Hr. simpl. rewrite IH. by rewrite <- app_assoc.
Qed.

(** C2 (amended). [predictTransitions] serves the frame counts 8 and 32;
    any other is refused with ["Unsupported frame count"] and no
    prediction.  For 8 or 32, and [N ≥ frame_count] frames, it returns
    [N - frame_count + 1] predictions.  Without the model file each is a
    random 0 or 1 and the result is flagged random.  With the file, when
    every frame decodes, the model loads, [eval] and [to] go through and
    the forward pass succeeds on every window, prediction [i] is the
    model's answer on frames [i .. i + frame_count - 1] and the result
    is not flagged. *)
Theorem online_windows `{Inference} `{PyRandom} (g : rng) (images : list string)
    (frame_count : Z) (current_user_id : Z) :
  let N := Z.of_nat (length images) in
  (frame_count ≠ 8 → frame_count ≠ 32 →
   predictTransitions g images frame_count current_user_id
   = (Pair false (Str ("Unsupported frame count: " +:+ pretty frame_count)), g))
  ∧ (frame_count = 8 ∨ frame_count = 32 →
     frame_count ≤ N →
     ∃ model_path mode,
       select_model frame_count = Some (model_path, mode)
       ∧ (path_exists model_path = false →
          ∃ predictions g',
            predictTransitions g images frame_count current_user_id
            = (Triple true (Ints predictions) true, g')
            ∧ Z.of_nat (length predictions) = N - frame_count + 1)
       ∧ (path_exists model_path = true →
          ∀ (pictures : list Picture) (loaded evaluated model : Model),
            Forall2 (λ img pic, decode_image img = inr pic) images pictures →
            torch_load model_path = Ok loaded →
            model_eval loaded = Ok evaluated →
            model_to evaluated = Ok model →
            let frames := if decide (mode = "video") then pictures
                          else grey <$> pictures in
            let window := λ i : nat, take (Z.to_nat frame_count) (drop i frames) in
            (∀ i : nat, Z.of_nat i ≤ N - frame_count →
                        is_Ok (classify model mode (window i)) = true) →
            ∃ predictions,
              predictTransitions g images frame_count current_user_id
              = (Triple true (Ints predictions) false, g)
              ∧ Z.of_nat (length predictions) = N - frame_count + 1
              ∧ ∀ i : nat, Z.of_nat i ≤ N - frame_count →
                  ∃ p, predictions !! i = Some p
                       ∧ classify model mode (window i) = Ok p)).
Proof.
  intros N. split.
  { intros H8 H32. unfold predictTransitions, predict_body, select_model.
    destruct (Z.eqb_spec frame_count 8) as [?|_]; [done|].
    by destruct (Z.eqb_spec frame_count 32) as [?|_]. }
  intros Hsupported Hfits. subst N. set (N := Z.of_nat (length images)) in *.
  destruct (proj2 (select_model_supported frame_count) Hsupported)
    as [[model_path mode] Hsel].
  exists model_path, mode. split; [done|].
  assert (Hpos : 1 ≤ frame_count) by lia.
  assert (Hrange : range 0 (N - frame_count + 1) 1
                   = Ok (seqZ 0 (N - frame_count + 1))).
  { rewrite range_unit. do 2 f_equal. lia. }
  split.
  - intros Hmissing. unfold predictTransitions, predict_body.
    rewrite Hsel. cbv beta iota. rewrite Hmissing. cbn [negb].
    fold N. rewrite Hrange. cbn [mbind result_bind].
    destruct (random_loop (seqZ 0 (N - frame_count + 1)) [] g)
      as (draws & g' & Hloop & Hlen).
    rewrite Hloop. simpl. exists draws, g'. split; [done|].
    rewrite Hlen, length_seqZ. lia.
  - intros Hfound pictures loaded evaluated model Hdecode Hload Heval Hto
           frames window Hclassify.
    assert (Hlen : length pictures = length images)
      by (symmetry; by eapply Forall2_length).
    assert (Hframes : length frames = length images).
    { unfold frames. case_decide; [done|by rewrite length_fmap]. }
    assert (Hstack : stack_frames mode pictures = Ok frames).
    { unfold stack_frames, frames. destruct pictures; [simpl in Hlen; lia|done]. }
    assert (Hslice : ∀ i : nat, Z.of_nat i ≤ N - frame_count →
               slice frames (Z.of_nat i) (Z.of_nat i + frame_count) = window i).
    { intros i Hi. rewrite slice_take_drop by lia. unfold window.
      by rewrite Nat2Z.id. }
    (* the answers of the model, window by window *)
    assert (Hresults : ∃ results,
               Forall2 (λ start r,
                          classify model mode (slice frames start (start + frame_count))
                          = Ok r)
                       (seqZ 0 (N - frame_count + 1)) results).
    { apply Forall2_choice. intros start Hstart.
      apply list_elem_of_lookup_1 in Hstart as [i Hi].
      apply lookup_seqZ in Hi as [-> Hi].
      specialize (Hclassify i ltac:(lia)).
      rewrite Z.add_0_l, Hslice by lia.
      destruct (classify model mode (window i)) as [r|]; [by exists r|done]. }
    destruct Hresults as [results Hresults].
    exists results.
    assert (Hcount : length results = Z.to_nat (N - frame_count + 1)).
    { rewrite <- (Forall2_length _ _ _ Hresults). by rewrite length_seqZ. }
    split_and!.
    + unfold predictTransitions, predict_body.
      rewrite Hsel. cbv beta iota. rewrite Hfound. cbn [negb].
      rewrite (decode_all images pictures Hdecode). rewrite Hstack.
      cbn [mbind result_bind]. rewrite Hload.
      cbn [mbind result_bind]. rewrite Heval.
      cbn [mbind result_bind]. rewrite Hto.
      cbn [mbind result_bind]. rewrite Hlen. fold N. rewrite Hrange.
      cbn [mbind result_bind].
      by rewrite (inference_loop model mode frame_count frames _ results []).
    + lia.
    + intros i Hi.
      destruct (results !! i) as [p|] eqn:Hp.
      * exists p. split; [done|].
        pose proof (Forall2_lookup_r _ _ _ _ _ Hresults Hp) as (start & Hstart & Hr).
        apply lookup_seqZ in Hstart as [-> _].
        by rewrite Z.add_0_l, Hslice in Hr by lia.
      * apply lookup_ge_None in Hp. lia.
Qed.

(** Called on its own with fewer frames than [frame_count] and no model
    file, [predictTransitions] reports success with no prediction: the
    check on the number of frames is the handler's. *)
Lemma predictTransitions_short_input `{Inference} `{PyRandom} (g : rng)
    (images : list string) (frame_count : Z) (current_user_id : Z)
    (model_path mode : string) :
  select_model frame_count = Some (model_path, mode) →
  path_exists model_path = false →
  Z.of_nat (length images) < frame_count →
  predictTransitions g images frame_count current_user_id
  = (Triple true (Ints []) true, g).
Proof.
  intros Hsel Hmissing Hshort. unfold predictTransitions, predict_body.
  rewrite Hsel. cbv beta iota. rewrite Hmissing. cbn [negb].
  rewrite range_unit. rewrite Z.max_l by lia. reflexivity.
Qed.

(** C5. A request to [Embryo_Predict] with fewer images than
    [frame_count] never gets predictions back, not even an empty list:
    the answer is not a success, [predictTransitions] is not run (the
    generator is untouched), and for a logged-in user it is the 400
    answer that names the frames needed and the frames received. *)
Theorem insufficient_frames `{Inference} `{PyRandom} (g : rng)
    (current_user_id : option Z) (frame_count : Z) (images : list string) :
  Z.of_nat (length images) < frame_count →
  let answer := Embryo_Predict g current_user_id frame_count images in
  (∀ success predictions is_random,
     payload answer.1 ≠ Predictions success predictions is_random)
  ∧ status answer.1 ≠ 200
  ∧ answer.2 = g
  ∧ (not_user current_user_id = false →
     answer.1
     = {| payload :=
            Message false
              (Str ("Need at least " +:+ pretty frame_count
                    +:+ " images for prediction, got "
                    +:+ pretty (length images)));
          status := 400 |}).
Proof.
  intros Hshort. unfold Embryo_Predict.
  destruct (not_user current_user_id); simpl.
  - by split_and!.
  - destruct (Z.ltb_spec (Z.of_nat (length images)) frame_count); [|lia].
    simpl. by split_and!.
Qed.

Lemma randbelow_lt (g : Z) (n : nat) : (0 < n)%nat → ((randbelow g n).1 < n)%nat.
Proof.
  intros Hn. unfold randbelow. simpl.
  pose proof (Z.mod_pos_bound (lcg_next g) (Z.of_nat n) ltac:(lia)). lia.
Qed.

Lemma draw_positions_spec (k : nat) (pool : list nat) (g : Z) :
  (k ≤ length pool)%nat →
  length (draw_positions k pool g).1 = k ∧ (draw_positions k pool g).1 ⊆+ pool.
Proof.
  revert pool g. induction k as [|k IH]; intros pool g Hk.
  - split; [done|apply submseteq_nil_l].
  - destruct (lookup_lt_is_Some_2 pool (randbelow g (length pool)).1) as [p Hp];
      [apply randbelow_lt; lia|].
    change (draw_positions (S k) pool g)
      with (let r := randbelow g (length pool) in
            match pool !! r.1 with
            | Some p =>
                let rest := draw_positions k (delete r.1 pool) r.2 in
                (p :: rest.1, rest.2)
            | None => ([], r.2)
            end).
    cbv zeta. rewrite Hp. cbn [fst snd length].
    destruct (IH (delete (randbelow g (length pool)).1 pool)
                 (randbelow g (length pool)).2) as [Hlen Hsub].
    { rewrite length_delete by eauto. lia. }
    split; [by rewrite Hlen|].
    etrans; [apply submseteq_skip, Hsub|].
    apply Permutation_submseteq. symmetry. by apply delete_Permutation.
Qed.

Lemma submseteq_NoDup_l {A} (l k : list A) : l ⊆+ k → NoDup k → NoDup l.
Proof.
  intros Hsub Hnd. apply submseteq_Permutation in Hsub as [k' Hk'].
  rewrite Hk' in Hnd. by apply NoDup_app in Hnd as [? _].
Qed.

Lemma lcg_sample_length (g : Z) (n k : nat) :
  (k ≤ n)%nat → length (draw_positions k (seq 0 n) g).1 = k.
Proof. intros Hk. apply draw_positions_spec. by rewrite length_seq. Qed.

Lemma lcg_sample_NoDup (g : Z) (n k : nat) :
  (k ≤ n)%nat → NoDup (draw_positions k (seq 0 n) g).1.
Proof.
  intros Hk. eapply submseteq_NoDup_l; [|apply NoDup_seq].
  apply draw_positions_spec. by rewrite length_seq.
Qed.

Lemma lcg_sample_lt (g : Z) (n k : nat) :
  (k ≤ n)%nat → Forall (λ p, p < n)%nat (draw_positions k (seq 0 n) g).1.
Proof.
  intros Hk. eapply submseteq_Forall.
  - apply draw_positions_spec. by rewrite length_seq.
  - apply Forall_forall. intros p Hp. apply elem_of_seq in Hp. lia.
Qed.

Lemma lcg_shuffle_perm (g : Z) (n : nat) :
  (draw_positions n (seq 0 n) g).1 ≡ₚ seq 0 n.
Proof.
  destruct (draw_positions_spec n (seq 0 n) g) as [Hlen Hsub];
    [by rewrite length_seq|].
  apply submseteq_length_Permutation; [done|]. rewrite Hlen, length_seq. lia.
Qed.

Lemma lcg_randint01_range (g : Z) :
  (lcg_next g `mod` 2, lcg_next g).1 = 0 ∨ (lcg_next g `mod` 2, lcg_next g).1 = 1.
Proof. simpl. pose proof (Z.mod_pos_bound (lcg_next g) 2 ltac:(lia)). lia. Qed.

(** The stand-in generator keeps the contract. *)
#[local] Instance lcg_contract : RandomContract lcg_random.
Proof.
  split.
  - apply lcg_sample_length.
  - apply lcg_sample_NoDup.
  - apply lcg_sample_lt.
  - apply lcg_shuffle_perm.
  - apply lcg_randint01_range.
Qed.

(** ** The model at work *)

Example demo_sorted :
  sorted ordinal (frame_of <$> demo_csv) = Ok demo_frames.
Proof. by vm_compute. Qed.

Lemma window_generator_count_witness :
  1 ≤ window_size (demo_built 42 3 2 true)
  ∧ 1 ≤ stride (demo_built 42 3 2 true)
  ∧ ∃ cands,
      candidate_windows (demo_built 42 3 2 true) demo_frames = Ok cands
      ∧ Z.of_nat (length cands) = 3
      ∧ cands !! 2%nat = Some (take 3 (drop 4 demo_frames)).
Proof.
  split; [by vm_compute|]. split; [by vm_compute|].
  destruct (window_generator_count (demo_built 42 3 2 true) demo_frames)
    as (cands & Hc & Hlen & Hfits & Hnth & _); [by vm_compute..|].
  exists cands. split; [exact Hc|]. split; [exact Hlen|].
  apply (Hnth 2%nat). apply Hfits. by vm_compute.
Defined.

Lemma strict_validator_rule_witness :
  multiple_phases (demo_built 42 3 1 false) = false
  ∧ (window_body (demo_built 42 3 1 false) demo_frames [] 2
     = Ok ([] ++ [slice demo_frames 2 (2 + 3)])
     ↔ coherent (λ p, phase_to_index (demo_built 42 3 1 false) !! p)
                (slice demo_frames 2 (2 + 3))).
Proof.
  split; [reflexivity|].
  exact (proj1 (strict_validator_rule (demo_built 42 3 1 false) demo_frames [] 2
                  eq_refl)).
Defined.

Lemma balance_flags_counts_witness :
  Forall (well_formed (demo_built 42 3 1 false))
         (video_sequences (demo_built 42 3 1 false))
  ∧ ∃ out g',
      @_balance_flags lcg_random 7 (demo_built 42 3 1 false)
      = Ok (with_video_sequences out (demo_built 42 3 1 false), g')
      ∧ length out = 4%nat
      ∧ out ⊆+ video_sequences (demo_built 42 3 1 false).
Proof.
  assert (Hwf : Forall (well_formed (demo_built 42 3 1 false))
                       (video_sequences (demo_built 42 3 1 false))).
  { apply (bool_decide_unpack _). by vm_compute. }
  split; [exact Hwf|].
  destruct (@balance_flags_counts lcg_random lcg_contract 7
              (demo_built 42 3 1 false) Hwf)
    as (out & g' & Hrun & _ & _ & Hlen & Hsub & _).
  exists out, g'. split; [exact Hrun|]. split; [exact Hlen|exact Hsub].
Defined.

(** C2, as stated for every frame count, fails: ten frames with
    [frame_count = 5] satisfy [N ≥ frame_count], and the answer is the
    refusal of the frame count, not six predictions. *)
Lemma online_unsupported_count :
  5 ≤ Z.of_nat (length ten_images)
  ∧ @predictTransitions resnet_only lcg_random 5 ten_images 5 1
    = (Pair false (Str "Unsupported frame count: 5"), 5).
Proof. split; [by vm_compute|by vm_compute]. Qed.

Lemma online_windows_witness :
  (8 = 8 ∨ 8 = 32)
  ∧ 8 ≤ Z.of_nat (length ten_images)
  ∧ (∃ predictions,
       @predictTransitions resnet_only lcg_random 5 ten_images 8 1
       = (Triple true (Ints predictions) false, 5)
       ∧ Z.of_nat (length predictions) = 3)
  ∧ @predictTransitions resnet_only lcg_random 5 ten_images 7 1
    = (Pair false (Str ("Unsupported frame count: " +:+ pretty 7)), 5).
Proof.
  split; [by left|]. split; [by vm_compute|]. split.
  - destruct (@online_windows resnet_only lcg_random 5 ten_images 8 1)
      as [_ Hserved].
    destruct Hserved as (model_path & mode & Hsel & _ & Hreal);
      [by left|by vm_compute|].
    injection Hsel as <- <-.
    destruct (Hreal eq_refl ten_images () () ()) as (predictions & Hrun & Hlen & _).
    + repeat constructor.
    + reflexivity.
    + reflexivity.
    + reflexivity.
    + intros i Hi. destruct i as [|[|[|i]]]; [reflexivity..|].
      exfalso. revert Hi. simpl. lia.
    + exists predictions. split; [exact Hrun|exact Hlen].
  - destruct (@online_windows resnet_only lcg_random 5 ten_images 7 1)
      as [Hrefused _].
    apply Hrefused; lia.
Defined.

Lemma insufficient_frames_witness :
  Z.of_nat (length five_images) < 8
  ∧ (@Embryo_Predict resnet_only lcg_random 5 (Some 3) 8 five_images).1
    = {| payload := Message false (Str "Need at least 8 images for prediction, got 5");
         status := 400 |}.
Proof.
  split; [by vm_compute|].
  destruct (@insufficient_frames resnet_only lcg_random 5 (Some 3) 8 five_images)
    as (_ & _ & _ & Hauth); [by vm_compute|].
  exact (Hauth eq_refl).
Defined.

Lemma transition_flag_iff_witness :
  @__getitem__ path_imaging (demo_built 42 3 1 false) 1
  = Ok (Some (["grey:../Data/AA83-7/RUN2.jpeg"; "grey:../Data/AA83-7/RUN3.jpeg";
               "grey:../Data/AA83-7/RUN4.jpeg"], 1, 0%nat, 1%nat))
  ∧ (1 = 0 ↔ 0%nat = 1%nat)
  ∧ (1 = 1 ↔ 0%nat ≠ 1%nat).
Proof.
  assert (Hget : @__getitem__ path_imaging (demo_built 42 3 1 false) 1
                 = Ok (Some (["grey:../Data/AA83-7/RUN2.jpeg";
                              "grey:../Data/AA83-7/RUN3.jpeg";
                              "grey:../Data/AA83-7/RUN4.jpeg"], 1, 0%nat, 1%nat)))
    by (by vm_compute).
  split; [exact Hget|].
  destruct (proj1 (@transition_flag_iff path_imaging (demo_built 42 3 1 false))
              _ _ _ _ _ Hget)
    as (seq & first_frame & last_frame & _ & _ & _ & _ & _ & H0 & H1).
  split; [exact H0|exact H1].
Defined.

Lemma ordinal_extraction_witness :
  ordinal (frame_of (row "D2013-F0" "RUN012.jpeg" "t2")) = Ok 12
  ∧ ordinal {| identifier := arabic_identifier; path := EmptyString; phase := "t2" |}
    = Ok 3
  ∧ row "AA83-7" "first.jpeg" "t2" ∈ unnumbered_csv
  ∧ first_digit_run (last_token (Identifier (row "AA83-7" "first.jpeg" "t2"))) = []
  ∧ @__init__ rotating_pandas lcg_random unnumbered_csv 42 1 1 "Train" 0
              false true "image_seq" 7
    = Raise (IndexError "list index out of range").
Proof.
  destruct ordinal_extraction as (Hkey & _ & _ & Hinit).
  assert (Hin : row "AA83-7" "first.jpeg" "t2" ∈ unnumbered_csv)
    by (apply (bool_decide_unpack _); by vm_compute).
  split; [rewrite Hkey; by vm_compute|].
  split; [rewrite Hkey; by vm_compute|].
  split; [exact Hin|]. split; [by vm_compute|].
  apply (Hinit rotating_pandas lcg_random unnumbered_csv 42 1 1 "Train" 0 false true
               "image_seq" 7 (rotate 42 unnumbered_csv)
               (row "AA83-7" "first.jpeg" "t2")).
  - by vm_compute.
  - apply (bool_decide_unpack _). by vm_compute.
  - by vm_compute.
  - done.
  - lia.
Defined.

(** C8, as stated, promises a descriptive error.  The exception of a
    missing number is the same for two different offending identifiers
    in two different videos: it tells neither which frame nor which
    identifier could not be read. *)
Lemma ordinal_error_not_descriptive :
  @__init__ rotating_pandas lcg_random unnumbered_csv 42 1 1 "Train" 0
            false true "image_seq" 7
  = Raise (IndexError "list index out of range")
  ∧ @__init__ rotating_pandas lcg_random other_unnumbered_csv 42 1 1 "Train" 0
              false true "image_seq" 7
    = Raise (IndexError "list index out of range")
  ∧ str_exn (IndexError "list index out of range") = "list index out of range".
Proof. split_and!; by vm_compute. Qed.

Lemma phase_mapping_dense_witness :
  @__init__ rotating_pandas lcg_random demo_csv 42 3 1 "Train" 0 true false
            "image_seq" 7
  = Ok ((demo_dataset 42 7).1, (demo_dataset 42 7).2)
  ∧ phase_labels (demo_dataset 42 7).1 = ["t2"; "t3"; "t4"]
  ∧ phase_to_index (demo_dataset 42 7).1 !! "t4" = Some 2%nat.
Proof.
  assert (Hinit : @__init__ rotating_pandas lcg_random demo_csv 42 3 1 "Train" 0
                            true false "image_seq" 7
                  = Ok ((demo_dataset 42 7).1, (demo_dataset 42 7).2))
    by (by vm_compute).
  split; [exact Hinit|].
  destruct (phase_mapping_dense _ _ _ _ _ _ _ _ _ _ _ _ Hinit)
    as (Hlabels & _ & _ & Hrank).
  split.
  - rewrite Hlabels. by vm_compute.
  - rewrite (Hrank "t4" 5%nat); [by vm_compute|by vm_compute|].
    apply (bool_decide_unpack _). by vm_compute.
Defined.

Lemma balance_independent_of_seed_witness :
  build_sequences demo_csv 42 3 1 "Train" 0 false "image_seq"
  = Ok (demo_built 42 3 1 false)
  ∧ build_sequences demo_csv 1 3 1 "Train" 0 false "image_seq"
    = Ok (demo_built 1 3 1 false)
  ∧ data_frame (demo_built 42 3 1 false) ≠ data_frame (demo_built 1 3 1 false)
  ∧ video_sequences (demo_built 42 3 1 false)
    = video_sequences (demo_built 1 3 1 false)
  ∧ (λ r : Dataset * Z, video_sequences r.1)
      <$> @_balance_flags lcg_random 7 (demo_built 42 3 1 false)
    = (λ r : Dataset * Z, video_sequences r.1)
      <$> @_balance_flags lcg_random 9 (demo_built 1 3 1 false).
Proof.
  assert (H1 : build_sequences demo_csv 42 3 1 "Train" 0 false "image_seq"
               = Ok (demo_built 42 3 1 false)) by (by vm_compute).
  assert (H2 : build_sequences demo_csv 1 3 1 "Train" 0 false "image_seq"
               = Ok (demo_built 1 3 1 false)) by (by vm_compute).
  assert (H3 : video_sequences (demo_built 42 3 1 false)
               = video_sequences (demo_built 1 3 1 false)) by (by vm_compute).
  split; [exact H1|]. split; [exact H2|].
  split; [by vm_compute|]. split; [exact H3|].
  exact (@balance_independent_of_seed rotating_pandas lcg_random demo_csv 42 1 3 1
           "Train" 0 false "image_seq" 7 9 _ _ H1 H2 H3).
Defined.

Lemma balance_flags_deterministic_witness :
  video_sequences (demo_built 42 3 1 false) = video_sequences (demo_built 1 3 1 false)
  ∧ phase_to_index (demo_built 42 3 1 false) = phase_to_index (demo_built 1 3 1 false)
  ∧ (λ r : Dataset * Z, (video_sequences r.1, r.2))
      <$> @_balance_flags lcg_random 7 (demo_built 42 3 1 false)
    = (λ r : Dataset * Z, (video_sequences r.1, r.2))
      <$> @_balance_flags lcg_random 1736731266 (demo_built 1 3 1 false).
Proof.
  assert (Hpop : video_sequences (demo_built 42 3 1 false)
                 = video_sequences (demo_built 1 3 1 false)) by (by vm_compute).
  assert (Hmap : phase_to_index (demo_built 42 3 1 false)
                 = phase_to_index (demo_built 1 3 1 false)) by (by vm_compute).
  split; [exact Hpop|]. split; [exact Hmap|].
  exact (@balance_flags_deterministic lcg_random 7 1736731266 _ _ Hpop Hmap).
Defined.

(** * Further properties of the code *)

(** ** What a finished construction guarantees *)

Lemma for_loop_Ok_each {S I} (body : S → I → result S) (items : list I) (s s' : S) :
  for_loop body items s = Ok s' →
  Forall (λ i, ∃ s1 s2, body s1 i = Ok s2) items.
Proof.
  revert s. induction items as [|i items IH]; intros s; simpl; [constructor|].
  intros Hloop. apply bind_Ok in Hloop as (s1 & Hbody & Hloop).
  constructor; [by exists s, s1|by eapply IH].
Qed.

Lemma comprehension_Ok_each {A B} (f : A → result B) (l : list A) (ys : list B) :
  comprehension f l = Ok ys → Forall (λ x, is_Ok (f x) = true) l.
Proof.
  revert ys. induction l as [|x l IH]; intros ys; simpl; [constructor|].
  intros H. apply bind_Ok in H as (y & Hy & H).
  apply bind_Ok in H as (ys' & Hys & _).
  constructor; [by rewrite Hy|by eapply IH].
Qed.

Lemma labels_same_ends_well_formed self seq labels same :
  labels_of self seq = Ok labels → same_ends labels = Ok same →
  well_formed self seq.
Proof.
  intros Hlabels Hsame. split.
  - intros ->. injection Hlabels as <-. by vm_compute in Hsame.
  - apply comprehension_Ok_each in Hlabels.
    eapply Forall_impl; [exact Hlabels|]. intros fr. unfold getitem.
    by destruct (phase_to_index self !! phase fr).
Qed.

(** The flag report reads every frame of every window; when it passes,
    every window is well formed. *)
Lemma flag_consistency_checks self counts :
  _print_flag_consistency self = Ok counts →
  Forall (well_formed self) (video_sequences self).
Proof.
  intros Hreport. apply for_loop_Ok_each in Hreport.
  eapply Forall_impl; [exact Hreport|]. intros seq (acc & acc' & Hbody).
  unfold flag_count_body in Hbody.
  apply bind_Ok in Hbody as (labels & Hlabels & Hbody).
  apply bind_Ok in Hbody as (same & Hsame & _).
  by eapply labels_same_ends_well_formed.
Qed.

(** X1. Whatever the arguments, a dataset that [__init__] returns holds
    only windows with at least one frame and with every phase in
    [phase_to_index]: the flag report at the end of the constructor
    raises otherwise. *)
Theorem constructed_windows_well_formed `{Pandas} `{PyRandom} (csv : list Row)
    (seed w s : Z) (used : string) (n : Z) (balance mp : bool) (md : string)
    (g g' : rng) (self : Dataset) :
  __init__ csv seed w s used n balance mp md g = Ok (self, g') →
  Forall (well_formed self) (video_sequences self).
Proof.
  unfold __init__. intros Hinit.
  apply bind_Ok in Hinit as (built & _ & Hfinish).
  unfold finish_init in Hfinish.
  apply bind_Ok in Hfinish as (balanced & _ & Hfinish).
  apply bind_Ok in Hfinish as (counts & Hreport & Hfinish).
  apply bind_Ok in Hfinish as (matrix & _ & Hfinish).
  injection Hfinish as ->. by apply flag_consistency_checks in Hreport.
Qed.

Lemma constructed_windows_well_formed_witness :
  @__init__ rotating_pandas lcg_random demo_csv 42 3 1 "Train" 0 true false
            "image_seq" 7
  = Ok ((demo_dataset 42 7).1, (demo_dataset 42 7).2)
  ∧ Forall (well_formed (demo_dataset 42 7).1) (video_sequences (demo_dataset 42 7).1).
Proof.
  assert (Hinit : @__init__ rotating_pandas lcg_random demo_csv 42 3 1 "Train" 0
                            true false "image_seq" 7
                  = Ok ((demo_dataset 42 7).1, (demo_dataset 42 7).2))
    by (by vm_compute).
  split; [exact Hinit|].
  exact (constructed_windows_well_formed _ _ _ _ _ _ _ _ _ _ _ _ Hinit).
Defined.

(** ** Samples of a constructed dataset *)

Lemma elem_of_pick {A} (l : list A) (ps : list nat) (x : A) : x ∈ pick l ps → x ∈ l.
Proof.
  unfold pick. intros Hx. apply list_elem_of_omap in Hx as (p & _ & Hp).
  by eapply list_elem_of_lookup_2.
Qed.

Lemma partition_loop_subset self pop acc parts :
  for_loop (partition_body self) pop acc = Ok parts →
  ∀ seq, seq ∈ parts.1 ∨ seq ∈ parts.2 → seq ∈ acc.1 ∨ seq ∈ acc.2 ∨ seq ∈ pop.
Proof.
  revert acc. induction pop as [|x pop IH]; intros acc; simpl.
  - intros [= <-] seq. tauto.
  - intros Hloop. apply bind_Ok in Hloop as (acc1 & Hbody & Hloop).
    intros seq Hseq. specialize (IH _ Hloop seq Hseq).
    unfold partition_body in Hbody.
    apply bind_Ok in Hbody as (labels & _ & Hbody).
    apply bind_Ok in Hbody as (same & _ & Hbody). injection Hbody as <-.
    destruct same; simpl in IH; set_solver.
Qed.

(** Balancing only ever keeps windows that were there. *)
Lemma balance_flags_subset `{PyRandom} (g g' : rng) (self self' : Dataset) :
  _balance_flags g self = Ok (self', g') →
  ∀ seq, seq ∈ video_sequences self' → seq ∈ video_sequences self.
Proof.
  unfold _balance_flags. intros Hrun.
  apply bind_Ok in Hrun as (parts & Hparts & Hrun).
  apply bind_Ok in Hrun as (s0 & Hs0 & Hrun).
  apply bind_Ok in Hrun as (s1 & Hs1 & Hrun).
  injection Hrun as <- _. simpl. intros seq Hseq.
  pose proof (partition_loop_subset _ _ _ _ Hparts seq) as Hsub. simpl in Hsub.
  unfold random_shuffle in Hseq. simpl in Hseq. apply elem_of_pick in Hseq.
  unfold random_sample in Hs0, Hs1.
  case_decide; [|done]. case_decide; [|done].
  injection Hs0 as <-. injection Hs1 as <-. simpl in Hseq.
  apply elem_of_app in Hseq as [Hseq|Hseq]; apply elem_of_pick in Hseq;
    set_solver.
Qed.

Lemma init_population `{Pandas} `{PyRandom} csv seed w s used n balance mp md
    (g g' : rng) self :
  __init__ csv seed w s used n balance mp md g = Ok (self, g') →
  ∃ built,
    build_sequences csv seed w s used n mp md = Ok built
    ∧ window_size self = w ∧ stride self = s ∧ mode self = md
    ∧ multiple_phases self = mp
    ∧ data_frame self = data_frame built
    ∧ phase_to_index self = phase_to_index built
    ∧ (∀ seq, seq ∈ video_sequences self → seq ∈ video_sequences built)
    ∧ (balance = false → video_sequences self = video_sequences built).
Proof.
  unfold __init__. intros Hinit.
  apply bind_Ok in Hinit as (built & Hbuilt & Hfinish). exists built.
  pose proof (build_sequences_fields _ _ _ _ _ _ _ _ _ Hbuilt)
    as (df & _ & Hw & Hs & Hmp & Hmd & _).
  unfold finish_init in Hfinish.
  apply bind_Ok in Hfinish as (balanced & Hbal & Hfinish).
  apply bind_Ok in Hfinish as (counts & _ & Hfinish).
  apply bind_Ok in Hfinish as (matrix & _ & Hfinish).
  injection Hfinish as ->. destruct balance.
  - pose proof (balance_flags_subset _ _ _ _ Hbal) as Hsub.
    apply balance_flags_fields in Hbal as [vs ->].
    by split_and!.
  - injection Hbal as <- <-. by split_and!.
Qed.

(** A dataset is returned only after both reports have run. *)
Lemma init_reports `{Pandas} `{PyRandom} csv seed w s used n balance mp md
    (g g' : rng) self :
  __init__ csv seed w s used n balance mp md g = Ok (self, g') →
  ∃ counts matrix,
    _print_flag_consistency self = Ok counts
    ∧ _print_transition_matrix self = Ok matrix.
Proof.
  unfold __init__. intros Hinit.
  apply bind_Ok in Hinit as (built & _ & Hfinish).
  unfold finish_init in Hfinish.
  apply bind_Ok in Hfinish as (balanced & _ & Hfinish).
  apply bind_Ok in Hfinish as (counts & Hreport & Hfinish).
  apply bind_Ok in Hfinish as (matrix & Hmatrix & Hfinish).
  injection Hfinish as ->. by exists counts, matrix.
Qed.

Lemma getitem_loop_fail `{Imaging} self sequence acc :
  Forall (λ fr, is_Some (phase_to_index self !! phase fr)) sequence →
  ¬ Forall (λ fr, is_Some (load_image (path fr))) sequence →
  for_loop (getitem_body self) sequence (Some acc) = Ok None.
Proof.
  intros Hknown. revert acc.
  induction Hknown as [|fr sequence [lab Hlab] Hknown IH]; intros acc Hfail.
  - destruct Hfail. constructor.
  - destruct acc as [[imgs labels] ids]. simpl.
    destruct (load_image (path fr)) as [image|] eqn:Himg; simpl.
    + rewrite (getitem_Some _ _ _ Hlab). simpl. apply IH.
      intros Hall. apply Hfail. constructor; [by rewrite Himg|done].
    + apply getitem_loop_None.
Qed.

(** X2. In a dataset built with [window_size ≥ 1], [stride ≥ 1] and a
    known mode, every index in range answers without an exception: a
    sample when all images of the window load, [None] as soon as one
    does not (stacking a non-empty list of images being assumed to
    succeed). *)
Theorem getitem_sample_or_None `{Pandas} `{PyRandom} `{Imaging} (csv : list Row)
    (seed w s : Z) (used : string) (n : Z) (balance mp : bool) (md : string)
    (g g' : rng) (self : Dataset) (idx : nat) (sequence : list Frame) :
  __init__ csv seed w s used n balance mp md g = Ok (self, g') →
  1 ≤ w → 1 ≤ s → md = "video" ∨ md = "image_seq" →
  (∀ imgs, imgs ≠ [] →
           is_Ok (stack_video imgs) = true ∧ is_Ok (stack_image_seq imgs) = true) →
  video_sequences self !! idx = Some sequence →
  (Forall (λ fr, is_Some (load_image (path fr))) sequence →
   ∃ sample, __getitem__ self (Z.of_nat idx) = Ok (Some sample))
  ∧ (¬ Forall (λ fr, is_Some (load_image (path fr))) sequence →
     __getitem__ self (Z.of_nat idx) = Ok None).
Proof.
  intros Hinit Hw Hs Hmode Hstack Hidx.
  destruct (init_reports _ _ _ _ _ _ _ _ _ _ _ _ Hinit) as (counts & _ & Hwf & _).
  apply flag_consistency_checks in Hwf.
  destruct (init_population _ _ _ _ _ _ _ _ _ _ _ _ Hinit)
    as (built & Hbuilt & Hwsize & _ & Hmd & _ & _ & _ & Hsub & _).
  assert (Hseq : sequence ∈ video_sequences self)
    by (by eapply list_elem_of_lookup_2).
  rewrite Forall_forall in Hwf. destruct (Hwf _ Hseq) as [Hne Hknown].
  assert (Hlen : Z.of_nat (length sequence) = window_size self).
  { rewrite Hwsize.
    pose proof (build_sequences_fields _ _ _ _ _ _ _ _ _ Hbuilt)
      as (df & _ & Hbw & Hbs & _).
    unfold build_sequences in Hbuilt.
    apply bind_Ok in Hbuilt as (df' & _ & Hcreate).
    eapply (create_sequences_lengths _ built) in Hcreate; [|done..].
    rewrite Forall_forall in Hcreate. simpl in Hcreate.
    by apply Hcreate, Hsub. }
  split.
  - intros Hload.
    apply (getitem_returns self idx sequence Hidx).
    + apply Forall_forall. intros fr Hfr. rewrite Forall_forall in Hload, Hknown.
      split; [by apply Hload|by apply Hknown].
    + intros imgs Himgs. apply Hstack. intros ->. destruct sequence; [done|].
      simpl in Himgs. lia.
    + by rewrite Hmd.
    + done.
    + lia.
  - intros Hfail. unfold __getitem__. rewrite (index_Some _ _ _ Hidx). simpl.
    by rewrite getitem_loop_fail.
Qed.

Lemma getitem_sample_or_None_witness :
  ∃ sequence,
    video_sequences (demo_dataset 42 7).1 !! 0%nat = Some sequence
    ∧ (Forall (λ fr, is_Some (@load_image path_imaging (path fr))) sequence →
       ∃ sample,
         @__getitem__ path_imaging (demo_dataset 42 7).1 (Z.of_nat 0) = Ok (Some sample))
    ∧ (¬ Forall (λ fr, is_Some (@load_image path_imaging (path fr))) sequence →
       @__getitem__ path_imaging (demo_dataset 42 7).1 (Z.of_nat 0) = Ok None).
Proof.
  assert (Hinit : @__init__ rotating_pandas lcg_random demo_csv 42 3 1 "Train" 0
                            true false "image_seq" 7
                  = Ok ((demo_dataset 42 7).1, (demo_dataset 42 7).2))
    by (by vm_compute).
  exists (default [] (video_sequences (demo_dataset 42 7).1 !! 0%nat)).
  split; [by vm_compute|].
  apply (@getitem_sample_or_None rotating_pandas lcg_random path_imaging
           _ _ _ _ _ _ _ _ _ _ _ _ _ _ Hinit).
  - lia.
  - lia.
  - by right.
  - intros [|im imgs] Hne; [by destruct Hne|]. split; reflexivity.
  - vm_compute. reflexivity.
Defined.

(** ** The shape of the windows *)

Lemma grouped_append_keys video frame grouped :
  (grouped_append video frame grouped).*1
  = if decide (video ∈ grouped.*1) then grouped.*1 else grouped.*1 ++ [video].
Proof.
  induction grouped as [|[v fs] grouped IH]; [done|].
  cbn [grouped_append]. rewrite fmap_cons. cbn [fst].
  destruct (decide (v = video)) as [->|Hne].
  - rewrite fmap_cons. cbn [fst]. rewrite decide_True; [done|]. by left.
  - rewrite fmap_cons, IH. cbn [fst].
    destruct (decide (video ∈ grouped.*1)) as [Hin|Hout].
    + rewrite decide_True; [done|]. by right.
    + rewrite decide_False; [done|].
      intros Hin. apply elem_of_cons in Hin as [->|Hin]; done.
Qed.

Lemma grouped_append_entry video frame grouped v fs :
  NoDup grouped.*1 →
  (v, fs) ∈ grouped_append video frame grouped →
  (v ≠ video ∧ (v, fs) ∈ grouped)
  ∨ (v = video ∧ ((∃ fs0, (video, fs0) ∈ grouped ∧ fs = fs0 ++ [frame])
                  ∨ ((video ∉ grouped.*1) ∧ fs = [frame]))).
Proof.
  induction grouped as [|[v' fs'] grouped IH]; simpl; intros Hnodup.
  - intros Hin. apply list_elem_of_singleton in Hin. injection Hin as -> ->.
    right. split; [done|]. right. split; [|done]. apply not_elem_of_nil.
  - apply NoDup_cons in Hnodup as [Hfresh Hnodup].
    destruct (decide (v' = video)) as [->|Hne].
    + intros Hin. apply elem_of_cons in Hin as [Heq|Hin].
      * injection Heq as -> ->. right. split; [done|]. left.
        exists fs'. split; [by left|done].
      * left. split; [|by right]. intros ->. apply Hfresh.
        apply list_elem_of_fmap. by exists (video, fs).
    + intros Hin. apply elem_of_cons in Hin as [Heq|Hin].
      * injection Heq as -> ->. left. split; [done|by left].
      * destruct (IH Hnodup Hin) as [[Hv Hold]|[-> [(fs0 & Hold & ->)|[Hnew ->]]]].
        -- left. split; [done|by right].
        -- right. split; [done|]. left. exists fs0. split; [by right|done].
        -- right. split; [done|]. right. split; [|done].
           intros Hin'. apply elem_of_cons in Hin' as [->|Hin']; done.
Qed.

(** Grouping keeps, for each video, its rows in the order of the data
    frame; no video has two groups. *)
Lemma group_rows_filter rows :
  NoDup (group_rows rows).*1
  ∧ ∀ v fs, (v, fs) ∈ group_rows rows →
            fs = frame_of <$> filter (λ r, Video_name r = v) rows.
Proof.
  unfold group_rows. induction rows as [|r rows [IHnodup IH]] using rev_ind.
  - split; [constructor|]. intros v fs Hin. by apply elem_of_nil in Hin.
  - rewrite foldl_app. simpl. split.
    + rewrite grouped_append_keys. case_decide as Hin; [done|].
      apply NoDup_app. split_and!; [done| |apply NoDup_singleton].
      intros x Hx Hx'. apply list_elem_of_singleton in Hx' as ->. done.
    + intros v fs Hin. rewrite filter_app, fmap_app.
      apply grouped_append_entry in Hin; [|done].
      destruct Hin as [[Hv Hold]|[-> [(fs0 & Hold & ->)|[Hnew ->]]]].
      * rewrite (IH _ _ Hold). rewrite filter_cons_False by (simpl; congruence).
        rewrite filter_nil. simpl. by rewrite app_nil_r.
      * rewrite (IH _ _ Hold). rewrite filter_cons_True by done.
        by rewrite filter_nil.
      * rewrite filter_cons_True by done. rewrite filter_nil.
        replace (filter (λ r0, Video_name r0 = Video_name r) rows) with (@nil Row);
          [done|].
        symmetry. apply filter_none, Forall_forall. intros r0 Hr0 Heq.
        apply Hnew. destruct (group_rows_complete rows r0 Hr0) as (frames & Hg & _).
        apply list_elem_of_fmap. exists (Video_name r0, frames).
        split; [by rewrite Heq|done].
Qed.

Lemma comprehension_take {A B} (f : A → result B) (l : list A) (ys : list B) (n : nat) :
  comprehension f l = Ok ys → comprehension f (take n l) = Ok (take n ys).
Proof.
  revert ys n. induction l as [|x l IH]; intros ys n; simpl.
  - intros [= <-]. by rewrite !take_nil.
  - intros Hall. apply bind_Ok in Hall as (y & Hy & Hall).
    apply bind_Ok in Hall as (ys' & Hys & Hall). injection Hall as <-.
    destruct n as [|n]; simpl; [done|].
    rewrite Hy. simpl. by rewrite (IH _ n Hys).
Qed.

Lemma comprehension_drop {A B} (f : A → result B) (l : list A) (ys : list B) (n : nat) :
  comprehension f l = Ok ys → comprehension f (drop n l) = Ok (drop n ys).
Proof.
  revert ys n. induction l as [|x l IH]; intros ys n; simpl.
  - intros [= <-]. by rewrite !drop_nil.
  - intros Hall. destruct n as [|n]; simpl; [done|].
    apply bind_Ok in Hall as (y & Hy & Hall).
    apply bind_Ok in Hall as (ys' & Hys & Hall). injection Hall as <-.
    simpl. by apply IH.
Qed.

(** Every window added by [_create_sequences] is a slice, at a start
    offset of the loop, of one video's frames sorted by ordinal. *)
Lemma create_sequences_slices self self' :
  _create_sequences self = Ok self' →
  ∀ seq, seq ∈ video_sequences self' →
    seq ∈ video_sequences self
    ∨ ∃ video frames sorted_frames starts start,
        (video, frames) ∈ group_rows (data_frame self)
        ∧ sorted ordinal frames = Ok sorted_frames
        ∧ range 0 (Z.of_nat (length sorted_frames) - window_size self + 1)
                (stride self) = Ok starts
        ∧ start ∈ starts
        ∧ seq = slice sorted_frames start (start + window_size self).
Proof.
  intros Hcreate. unfold _create_sequences in Hcreate.
  apply bind_Ok in Hcreate as (vs & Hloop & Hcreate). injection Hcreate as <-.
  simpl.
  set (P := λ acc : list (list Frame),
              ∀ seq, seq ∈ acc →
                seq ∈ video_sequences self
                ∨ ∃ video frames sorted_frames starts start,
                    (video, frames) ∈ group_rows (data_frame self)
                    ∧ sorted ordinal frames = Ok sorted_frames
                    ∧ range 0 (Z.of_nat (length sorted_frames) - window_size self + 1)
                            (stride self) = Ok starts
                    ∧ start ∈ starts
                    ∧ seq = slice sorted_frames start (start + window_size self)).
  change (P vs). eapply for_loop_invariant; [| |exact Hloop].
  - intros acc [v frames] acc' Hentry Hacc Hbody. unfold video_body in Hbody.
    apply bind_Ok in Hbody as (sorted_frames & Hsorted & Hbody).
    apply bind_Ok in Hbody as (starts & Hrange & Hbody). simpl in Hsorted.
    eapply for_loop_invariant; [|exact Hacc|exact Hbody].
    intros acc1 start acc2 Hstart Hacc1 Hwin.
    apply window_body_cases in Hwin as [->| ->]; [done|].
    intros seq Hseq. apply elem_of_app in Hseq as [Hseq|Hseq]; [by apply Hacc1|].
    apply list_elem_of_singleton in Hseq as ->. right.
    by exists v, frames, sorted_frames, starts, start.
  - intros seq Hseq. by left.
Qed.

Lemma built_windows_slices `{Pandas} csv seed w s used n mp md self :
  build_sequences csv seed w s used n mp md = Ok self →
  ∀ seq, seq ∈ video_sequences self →
    ∃ video sorted_frames starts start,
      sorted ordinal (frame_of <$> filter (λ r, Video_name r = video) (data_frame self))
      = Ok sorted_frames
      ∧ range 0 (Z.of_nat (length sorted_frames) - w + 1) s = Ok starts
      ∧ start ∈ starts
      ∧ seq = slice sorted_frames start (start + w).
Proof.
  intros Hbuilt seq Hseq.
  pose proof (build_sequences_fields _ _ _ _ _ _ _ _ _ Hbuilt)
    as (df & _ & Hw & Hs & _ & _ & Hdf & _).
  unfold build_sequences in Hbuilt.
  apply bind_Ok in Hbuilt as (df' & _ & Hcreate).
  destruct (create_sequences_slices _ _ Hcreate seq Hseq)
    as [Hold|(video & frames & sorted_frames & starts & start
              & Hgroup & Hsorted & Hrange & Hstart & ->)].
  - simpl in Hold. by apply elem_of_nil in Hold.
  - simpl in *. apply (proj2 (group_rows_filter _)) in Hgroup as ->.
    apply create_sequences_fields in Hcreate as [vs ->]. simpl.
    by exists video, sorted_frames, starts, start.
Qed.

(** X3. With [window_size ≥ 1] and [stride ≥ 1], every window of a
    constructed dataset, balanced or not, is a run of [window_size]
    consecutive frames of a single video in the order of their ordinals,
    starting at a multiple of the stride. *)
Theorem constructed_windows_are_runs `{Pandas} `{PyRandom} (csv : list Row)
    (seed w s : Z) (used : string) (n : Z) (balance mp : bool) (md : string)
    (g g' : rng) (self : Dataset) :
  __init__ csv seed w s used n balance mp md g = Ok (self, g') →
  1 ≤ w → 1 ≤ s →
  ∀ seq, seq ∈ video_sequences self →
    ∃ (video : string) (sorted_frames : list Frame) (k : nat),
      sorted ordinal (frame_of <$> filter (λ r, Video_name r = video) (data_frame self))
      = Ok sorted_frames
      ∧ Z.of_nat k * s + w ≤ Z.of_nat (length sorted_frames)
      ∧ seq = take (Z.to_nat w) (drop (Z.to_nat (Z.of_nat k * s)) sorted_frames).
Proof.
  intros Hinit Hw Hs seq Hseq.
  destruct (init_population _ _ _ _ _ _ _ _ _ _ _ _ Hinit)
    as (built & Hbuilt & _ & _ & _ & _ & Hdf & _ & Hsub & _).
  destruct (built_windows_slices _ _ _ _ _ _ _ _ _ Hbuilt seq (Hsub _ Hseq))
    as (video & sorted_frames & starts & start & Hsorted & Hrange & Hstart & ->).
  destruct (range_starts_fit _ _ _ _ _ Hs Hrange Hstart) as [Hlo Hhi].
  rewrite range_from_0 in Hrange by done. injection Hrange as <-.
  apply list_elem_of_fmap in Hstart as (k & -> & Hk).
  apply list_elem_of_lookup_1 in Hk as [i Hi].
  apply lookup_seqZ in Hi as [-> _].
  exists video, sorted_frames, i. rewrite Hdf.
  split_and!; [done|lia|].
  replace (0 + Z.of_nat i) with (Z.of_nat i) in * by lia.
  apply slice_take_drop; lia.
Qed.

Lemma constructed_windows_are_runs_witness :
  ∃ seq (video : string) (sorted_frames : list Frame) (k : nat),
    seq ∈ video_sequences (demo_dataset 42 7).1
    ∧ sorted ordinal (frame_of <$> filter (λ r, Video_name r = video)
                                          (data_frame (demo_dataset 42 7).1))
      = Ok sorted_frames
    ∧ Z.of_nat k * 1 + 3 ≤ Z.of_nat (length sorted_frames)
    ∧ seq = take (Z.to_nat 3) (drop (Z.to_nat (Z.of_nat k * 1)) sorted_frames).
Proof.
  assert (Hinit : @__init__ rotating_pandas lcg_random demo_csv 42 3 1 "Train" 0
                            true false "image_seq" 7
                  = Ok ((demo_dataset 42 7).1, (demo_dataset 42 7).2))
    by (by vm_compute).
  assert (Hseq : default [] (video_sequences (demo_dataset 42 7).1 !! 0%nat)
                 ∈ video_sequences (demo_dataset 42 7).1).
  { apply (list_elem_of_lookup_2 _ 0%nat). vm_compute. reflexivity. }
  destruct (constructed_windows_are_runs _ _ _ _ _ _ _ _ _ _ _ _ Hinit
              ltac:(lia) ltac:(lia) _ Hseq)
    as (video & sorted_frames & k & Hsorted & Hfit & Heq).
  exists (default [] (video_sequences (demo_dataset 42 7).1 !! 0%nat)),
         video, sorted_frames, k.
  exact (conj Hseq (conj Hsorted (conj Hfit Heq))).
Defined.

(** X4. Whatever the window size and stride, the frames of every window
    of a constructed dataset have ordinals, and these never decrease from
    one frame to the next. *)
Theorem constructed_windows_ascend `{Pandas} `{PyRandom} (csv : list Row)
    (seed w s : Z) (used : string) (n : Z) (balance mp : bool) (md : string)
    (g g' : rng) (self : Dataset) :
  __init__ csv seed w s used n balance mp md g = Ok (self, g') →
  ∀ seq, seq ∈ video_sequences self →
    ∃ ordinals, comprehension ordinal seq = Ok ordinals
                ∧ StronglySorted Z.le ordinals.
Proof.
  intros Hinit seq Hseq.
  destruct (init_population _ _ _ _ _ _ _ _ _ _ _ _ Hinit)
    as (built & Hbuilt & _ & _ & _ & _ & _ & _ & Hsub & _).
  destruct (built_windows_slices _ _ _ _ _ _ _ _ _ Hbuilt seq (Hsub _ Hseq))
    as (video & sorted_frames & starts & start & Hsorted & _ & _ & ->).
  apply sorted_ascending in Hsorted as (keys & Hkeys & Hasc).
  unfold slice.
  set (a := slice_bound (Z.of_nat (length sorted_frames)) start).
  set (b := slice_bound (Z.of_nat (length sorted_frames)) (start + w)).
  exists (take (b - a) (drop a keys)). split.
  - by apply comprehension_take, comprehension_drop.
  - rewrite <- (take_drop a keys) in Hasc.
    apply StronglySorted_app_1_r in Hasc.
    rewrite <- (take_drop (b - a) (drop a keys)) in Hasc.
    by apply StronglySorted_app_1_l in Hasc.
Qed.

Lemma constructed_windows_ascend_witness :
  ∃ seq ordinals,
    seq ∈ video_sequences (demo_dataset 42 7).1
    ∧ comprehension ordinal seq = Ok ordinals
    ∧ StronglySorted Z.le ordinals.
Proof.
  assert (Hinit : @__init__ rotating_pandas lcg_random demo_csv 42 3 1 "Train" 0
                            true false "image_seq" 7
                  = Ok ((demo_dataset 42 7).1, (demo_dataset 42 7).2))
    by (by vm_compute).
  assert (Hseq : default [] (video_sequences (demo_dataset 42 7).1 !! 0%nat)
                 ∈ video_sequences (demo_dataset 42 7).1).
  { apply (list_elem_of_lookup_2 _ 0%nat). vm_compute. reflexivity. }
  destruct (constructed_windows_ascend _ _ _ _ _ _ _ _ _ _ _ _ Hinit _ Hseq)
    as (ordinals & Hordinals & Hasc).
  exists (default [] (video_sequences (demo_dataset 42 7).1 !! 0%nat)), ordinals.
  exact (conj Hseq (conj Hordinals Hasc)).
Defined.

(** ** Strict and permissive validation *)

Lemma window_loop_strict self sorted_frames starts acc acc' :
  for_loop (window_body self sorted_frames) starts acc = Ok acc' →
  ∃ kept,
    acc' = acc ++ kept
    ∧ kept `sublist_of`
        ((λ start, slice sorted_frames start (start + window_size self)) <$> starts).
Proof.
  revert acc. induction starts as [|start starts IH]; intros acc; simpl.
  - intros [= <-]. exists []. by rewrite app_nil_r.
  - intros Hloop. apply bind_Ok in Hloop as (acc1 & Hwin & Hloop).
    destruct (IH _ Hloop) as (kept & -> & Hsub).
    apply window_body_cases in Hwin as [->| ->].
    + exists kept. split; [done|]. by apply sublist_cons.
    + exists (slice sorted_frames start (start + window_size self) :: kept).
      split; [by rewrite <- app_assoc|]. by apply sublist_skip.
Qed.

Lemma video_loop_strict (strict permissive : Dataset) grouped acc vs :
  window_size permissive = window_size strict →
  stride permissive = stride strict →
  for_loop (video_body strict) grouped acc = Ok vs →
  ∃ per_video kept,
    comprehension (λ entry, video_windows permissive entry.2) grouped = Ok per_video
    ∧ vs = acc ++ kept
    ∧ kept `sublist_of` concat per_video.
Proof.
  intros Hw Hs. revert acc. induction grouped as [|entry grouped IH]; intros acc; simpl.
  - intros [= <-]. exists [], []. by rewrite app_nil_r.
  - intros Hloop. apply bind_Ok in Hloop as (acc1 & Hvideo & Hloop).
    destruct (IH _ Hloop) as (per_video & kept & Hall & -> & Hsub).
    unfold video_body in Hvideo.
    apply bind_Ok in Hvideo as (sorted_frames & Hsorted & Hvideo).
    apply bind_Ok in Hvideo as (starts & Hrange & Hvideo).
    apply window_loop_strict in Hvideo as (kept1 & -> & Hsub1).
    assert (Hwindows : video_windows permissive entry.2
                       = Ok ((λ start, slice sorted_frames start
                                             (start + window_size strict))
                               <$> starts)).
    { unfold video_windows, candidate_windows. rewrite Hsorted. simpl.
      by rewrite Hw, Hs, Hrange. }
    rewrite Hwindows. simpl. rewrite Hall. simpl.
    eexists _, (kept1 ++ kept). split_and!; [done|by rewrite app_assoc|].
    by apply sublist_app.
Qed.

(** X5. A strict build that succeeds keeps a selection of the windows of
    the permissive build on the same arguments, which then succeeds too:
    same windows, same order, some left out. *)
Theorem strict_windows_among_permissive `{Pandas} (csv : list Row) (seed w s : Z)
    (used : string) (n : Z) (md : string) (strict : Dataset) :
  build_sequences csv seed w s used n false md = Ok strict →
  ∃ permissive,
    build_sequences csv seed w s used n true md = Ok permissive
    ∧ data_frame permissive = data_frame strict
    ∧ phase_to_index permissive = phase_to_index strict
    ∧ video_sequences strict `sublist_of` video_sequences permissive.
Proof.
  unfold build_sequences. intros Hbuilt.
  apply bind_Ok in Hbuilt as (df & Hload & Hcreate). rewrite Hload. simpl.
  match goal with |- context [_create_sequences ?p] => set (permissive := p) end.
  rewrite (create_sequences_permissive permissive) by done.
  unfold _create_sequences in Hcreate.
  apply bind_Ok in Hcreate as (vs & Hloop & Hcreate). injection Hcreate as <-.
  cbn [video_sequences data_frame] in Hloop.
  destruct ((λ Hw Hs, video_loop_strict _ permissive _ _ _ Hw Hs Hloop)
              eq_refl eq_refl)
    as (per_video & kept & Hall & Hvs & Hsub).
  simpl in Hvs. rewrite Hvs.
  change (data_frame permissive) with df. rewrite Hall. simpl.
  eexists. split; [done|]. by simpl.
Qed.

Lemma strict_windows_among_permissive_witness :
  ∃ permissive,
    @build_sequences rotating_pandas demo_csv 42 3 1 "Train" 0 true "image_seq"
    = Ok permissive
    ∧ data_frame permissive = data_frame (demo_built 42 3 1 false)
    ∧ phase_to_index permissive = phase_to_index (demo_built 42 3 1 false)
    ∧ video_sequences (demo_built 42 3 1 false) `sublist_of` video_sequences permissive.
Proof.
  apply (strict_windows_among_permissive demo_csv 42 3 1 "Train" 0 "image_seq").
  vm_compute. reflexivity.
Defined.

(** ** The flag report *)

Lemma flag_count_body_flag self acc seq :
  flag_count_body self acc seq
  = flag ← flag_of self seq;
    Ok (if decide (flag = 0) then (acc.1 + 1, acc.2) else (acc.1, acc.2 + 1)).
Proof.
  unfold flag_count_body, flag_of.
  destruct (labels_of self seq) as [labels|e]; [|done]. simpl.
  destruct (same_ends labels) as [[]|e]; done.
Qed.

Lemma flag_count_loop self pop acc :
  Forall (well_formed self) pop →
  for_loop (flag_count_body self) pop acc
  = Ok (acc.1 + Z.of_nat (length (filter (λ seq, flag_of self seq = Ok 0) pop)),
        acc.2 + Z.of_nat (length (filter (λ seq, flag_of self seq = Ok 1) pop))).
Proof.
  intros Hwf. revert acc. induction Hwf as [|seq pop Hseq Hwf IH]; intros acc.
  - simpl. destruct acc. simpl. f_equal. f_equal; lia.
  - cbn [for_loop]. rewrite flag_count_body_flag.
    destruct (flag_of_well_formed _ _ Hseq) as [Hflag|Hflag]; rewrite Hflag; simpl.
    + rewrite IH. simpl. rewrite filter_cons_True by done.
      rewrite filter_cons_False by (rewrite Hflag; congruence). simpl.
      f_equal. f_equal; lia.
    + rewrite IH. simpl. rewrite filter_cons_False by (rewrite Hflag; congruence).
      rewrite filter_cons_True by done. simpl.
      f_equal. f_equal; lia.
Qed.

(** X6. When the flag report goes through, its two numbers are the
    numbers of windows of flag 0 and of flag 1, every window has one of
    the two flags, and the numbers add up to [len(dataset)]. *)
Theorem flag_report_counts (self : Dataset) (flag_0 flag_1 : Z) :
  _print_flag_consistency self = Ok (flag_0, flag_1) →
  flag_0 = Z.of_nat (length (filter (λ seq, flag_of self seq = Ok 0)
                                    (video_sequences self)))
  ∧ flag_1 = Z.of_nat (length (filter (λ seq, flag_of self seq = Ok 1)
                                      (video_sequences self)))
  ∧ Forall (λ seq, flag_of self seq = Ok 0 ∨ flag_of self seq = Ok 1)
           (video_sequences self)
  ∧ flag_0 + flag_1 = __len__ self.
Proof.
  intros Hreport.
  pose proof (flag_consistency_checks _ _ Hreport) as Hwf.
  unfold _print_flag_consistency in Hreport.
  rewrite flag_count_loop in Hreport by done. simpl in Hreport.
  injection Hreport as <- <-. split_and!; [done|done| |].
  - eapply Forall_impl; [exact Hwf|]. apply flag_of_well_formed.
  - unfold __len__. rewrite <- (filter_flags_Permutation self _ Hwf) at 3.
    rewrite length_app. lia.
Qed.

Lemma flag_report_counts_witness :
  @_print_flag_consistency (demo_built 42 3 1 false) = Ok (2, 4)
  ∧ 2 = Z.of_nat (length (filter (λ seq, flag_of (demo_built 42 3 1 false) seq = Ok 0)
                                 (video_sequences (demo_built 42 3 1 false))))
  ∧ 4 = Z.of_nat (length (filter (λ seq, flag_of (demo_built 42 3 1 false) seq = Ok 1)
                                 (video_sequences (demo_built 42 3 1 false))))
  ∧ Forall (λ seq, flag_of (demo_built 42 3 1 false) seq = Ok 0
                   ∨ flag_of (demo_built 42 3 1 false) seq = Ok 1)
           (video_sequences (demo_built 42 3 1 false))
  ∧ 2 + 4 = __len__ (demo_built 42 3 1 false).
Proof.
  assert (Hreport : _print_flag_consistency (demo_built 42 3 1 false) = Ok (2, 4)).
  { vm_compute. reflexivity. }
  split; [exact Hreport|].
  exact (flag_report_counts _ _ _ Hreport).
Defined.

Lemma partition_checks self pop acc parts :
  for_loop (partition_body self) pop acc = Ok parts →
  Forall (well_formed self) pop.
Proof.
  intros Hloop. apply for_loop_Ok_each in Hloop.
  eapply Forall_impl; [exact Hloop|]. intros seq (acc1 & acc2 & Hbody).
  unfold partition_body in Hbody.
  apply bind_Ok in Hbody as (labels & Hlabels & Hbody).
  apply bind_Ok in Hbody as (same & Hsame & _).
  by eapply labels_same_ends_well_formed.
Qed.

(** What [_balance_flags] leaves has as many windows of one flag as of
    the other, when it returns at all. *)
Lemma balance_flags_even `{RandomContract} (g g' : rng) (self self' : Dataset) :
  _balance_flags g self = Ok (self', g') →
  Forall (well_formed self') (video_sequences self')
  ∧ length (filter (λ seq, flag_of self' seq = Ok 0) (video_sequences self'))
    = length (filter (λ seq, flag_of self' seq = Ok 1) (video_sequences self')).
Proof.
  intros Hbal. unfold _balance_flags in Hbal.
  apply bind_Ok in Hbal as (parts & Hparts & Hbal).
  pose proof (partition_checks _ _ _ _ Hparts) as Hwf.
  rewrite partition_loop in Hparts by done. injection Hparts as <-.
  cbn [fst snd app] in Hbal.
  set (pop := video_sequences self) in *.
  set (F0 := filter (λ seq, flag_of self seq = Ok 0) pop) in *.
  set (F1 := filter (λ seq, flag_of self seq = Ok 1) pop) in *.
  set (k := Nat.min (length F0) (length F1)) in *.
  destruct (random_sample_Ok (rng_seed 42) F0 k) as (s0 & g0 & Hs0 & Hlen0 & Hsub0);
    [subst k; lia|].
  destruct (random_sample_Ok g0 F1 k) as (s1 & g1 & Hs1 & Hlen1 & Hsub1);
    [subst k; lia|].
  rewrite Hs0 in Hbal. cbn [mbind result_bind fst snd] in Hbal.
  rewrite Hs1 in Hbal. cbn [mbind result_bind fst snd] in Hbal.
  injection Hbal as <- _. cbn [video_sequences with_video_sequences].
  pose proof (random_shuffle_Permutation g1 (s0 ++ s1)) as Hperm.
  assert (Hall0 : Forall (λ seq, flag_of self seq = Ok 0) s0).
  { eapply submseteq_Forall; [exact Hsub0|]. apply Forall_filter_self. }
  assert (Hall1 : Forall (λ seq, flag_of self seq = Ok 1) s1).
  { eapply submseteq_Forall; [exact Hsub1|]. apply Forall_filter_self. }
  split.
  - change (Forall (well_formed self) (random_shuffle g1 (s0 ++ s1)).1).
    rewrite Hperm. apply Forall_app. split.
    + eapply submseteq_Forall; [exact Hsub0|].
      eapply submseteq_Forall; [|exact Hwf]. apply sublist_submseteq, sublist_filter.
    + eapply submseteq_Forall; [exact Hsub1|].
      eapply submseteq_Forall; [|exact Hwf]. apply sublist_submseteq, sublist_filter.
  - change (length (filter (λ seq, flag_of self seq = Ok 0)
                           (random_shuffle g1 (s0 ++ s1)).1)
            = length (filter (λ seq, flag_of self seq = Ok 1)
                             (random_shuffle g1 (s0 ++ s1)).1)).
    rewrite !Hperm, !filter_app, !length_app.
    rewrite (filter_all (λ seq, flag_of self seq = Ok 0) s0) by done.
    rewrite (filter_all (λ seq, flag_of self seq = Ok 1) s1) by done.
    rewrite (filter_none (λ seq, flag_of self seq = Ok 0) s1)
      by (eapply Forall_impl; [exact Hall1|]; simpl; congruence).
    rewrite (filter_none (λ seq, flag_of self seq = Ok 1) s0)
      by (eapply Forall_impl; [exact Hall0|]; simpl; congruence).
    simpl. lia.
Qed.

(** X7. A dataset constructed with [balance_flags=True] has as many
    windows of flag 0 as of flag 1: the flag report of the constructor
    shows the same number twice, and the length of the dataset is twice
    that number. *)
Theorem balanced_dataset_even `{Pandas} `{RandomContract} (csv : list Row)
    (seed w s : Z) (used : string) (n : Z) (mp : bool) (md : string)
    (g g' : rng) (self : Dataset) :
  __init__ csv seed w s used n true mp md g = Ok (self, g') →
  ∃ k : Z, _print_flag_consistency self = Ok (k, k) ∧ __len__ self = 2 * k.
Proof.
  unfold __init__. intros Hinit.
  apply bind_Ok in Hinit as (built & _ & Hfinish).
  unfold finish_init in Hfinish.
  apply bind_Ok in Hfinish as (balanced & Hbal & Hfinish).
  apply bind_Ok in Hfinish as (counts & _ & Hfinish).
  apply bind_Ok in Hfinish as (matrix & _ & Hfinish).
  injection Hfinish as ->. simpl in Hbal.
  apply balance_flags_even in Hbal as [Hwf Heven].
  unfold _print_flag_consistency, __len__.
  rewrite flag_count_loop by done. simpl. rewrite <- Heven.
  eexists. split; [done|].
  rewrite <- (filter_flags_Permutation self _ Hwf) at 1.
  rewrite length_app. lia.
Qed.

Lemma balanced_dataset_even_witness :
  ∃ k : Z, _print_flag_consistency (demo_dataset 42 7).1 = Ok (k, k)
           ∧ __len__ (demo_dataset 42 7).1 = 2 * k.
Proof.
  apply (@balanced_dataset_even rotating_pandas lcg_random lcg_contract
           demo_csv 42 3 1 "Train" 0 false "image_seq" 7 (demo_dataset 42 7).2).
  vm_compute. reflexivity.
Defined.

(** ** The transition matrix *)

Lemma index_nat_Ok {A} (l : list A) (i : nat) (x : A) :
  index l (Z.of_nat i) = Ok x → l !! i = Some x.
Proof.
  assert (Hi : (Z.of_nat i <? 0) = false) by (apply Z.ltb_ge; lia).
  unfold index. rewrite !Hi, Nat2Z.id. destruct (l !! i); by intros [= ->].
Qed.

Lemma getitem_Ok {V} (d : gmap string V) k v : getitem d k = Ok v → d !! k = Some v.
Proof. unfold getitem. destruct (d !! k); by intros [= ->]. Qed.

Lemma matrix_body_cells self m sequence m' (n : nat) :
  length m = n → Forall (λ row, length row = n) m →
  matrix_body self m sequence = Ok m' →
  ∃ i j,
    ends_in self i j sequence ∧ (i < n)%nat ∧ (j < n)%nat
    ∧ length m' = n ∧ Forall (λ row, length row = n) m'
    ∧ ∀ i' j', cell m' i' j'
               = if decide (i' = i ∧ j' = j) then (λ c, c + 1) <$> cell m i' j'
                 else cell m i' j'.
Proof.
  intros Hlen Hrows Hbody. unfold matrix_body in Hbody.
  apply bind_Ok in Hbody as (first_frame & Hfirst & Hbody).
  apply bind_Ok in Hbody as (i & Hi & Hbody).
  apply bind_Ok in Hbody as (last_frame & Hlast & Hbody).
  apply bind_Ok in Hbody as (j & Hj & Hbody).
  apply bind_Ok in Hbody as (row & Hrow & Hbody).
  apply bind_Ok in Hbody as (c & Hc & Hbody). injection Hbody as <-.
  apply index_0_Ok in Hfirst. apply index_last_Ok in Hlast.
  apply getitem_Ok in Hi, Hj. apply index_nat_Ok in Hrow, Hc.
  assert (Hrowlen : length row = n).
  { rewrite Forall_forall in Hrows. apply Hrows. by eapply list_elem_of_lookup_2. }
  pose proof (lookup_lt_Some _ _ _ Hrow) as Hilt.
  pose proof (lookup_lt_Some _ _ _ Hc) as Hjlt.
  exists i, j. split_and!.
  - unfold ends_in. rewrite Hfirst, Hlast. simpl. by rewrite Hi, Hj.
  - lia.
  - lia.
  - by rewrite length_insert.
  - apply Forall_insert; [done|]. by rewrite length_insert.
  - intros i' j'. unfold cell. destruct (decide (i' = i)) as [->|Hne].
    + rewrite list_lookup_insert_eq by done. rewrite Hrow. simpl.
      destruct (decide (j' = j)) as [->|Hne].
      * rewrite decide_True by done. rewrite list_lookup_insert_eq by done.
        by rewrite Hc.
      * rewrite decide_False by (intros [_ ?]; done).
        by rewrite list_lookup_insert_ne.
    + rewrite decide_False by (intros [? _]; done).
      by rewrite list_lookup_insert_ne.
Qed.

Lemma ends_in_functional self i j i' j' sequence :
  ends_in self i j sequence → ends_in self i' j' sequence → i' = i ∧ j' = j.
Proof. unfold ends_in. intros [H1 H2] [H3 H4]. split; congruence. Qed.

Lemma matrix_loop self pop m m' (n : nat) :
  length m = n → Forall (λ row, length row = n) m →
  for_loop (matrix_body self) pop m = Ok m' →
  length m' = n
  ∧ Forall (λ sequence, ∃ i j, (i < n)%nat ∧ (j < n)%nat ∧ ends_in self i j sequence) pop
  ∧ ∀ i j, cell m' i j
           = (λ c, c + Z.of_nat (length (filter (ends_in self i j) pop)))
               <$> cell m i j.
Proof.
  revert m. induction pop as [|sequence pop IH]; intros m Hlen Hrows; simpl.
  - intros [= <-]. split_and!; [done|constructor|].
    intros i j. destruct (cell m i j); simpl; [f_equal; lia|done].
  - intros Hloop. apply bind_Ok in Hloop as (m1 & Hbody & Hloop).
    destruct (matrix_body_cells _ _ _ _ _ Hlen Hrows Hbody)
      as (i0 & j0 & Hends & Hi0 & Hj0 & Hlen1 & Hrows1 & Hcell1).
    destruct (IH _ Hlen1 Hrows1 Hloop) as (Hlen' & Hall & Hcell').
    split_and!; [done| |].
    + constructor; [|done]. by exists i0, j0.
    + intros i j. rewrite Hcell', Hcell1.
      destruct (decide (i = i0 ∧ j = j0)) as [[-> ->]|Hne].
      * rewrite filter_cons_True by done.
        destruct (cell m i0 j0); simpl; [f_equal; lia|done].
      * rewrite filter_cons_False; [done|].
        intros Hother. apply Hne. by eapply ends_in_functional.
Qed.

(** X8. When the transition report goes through, its matrix is square
    with one row and one column per present phase, the cell [(i, j)] is
    the number of windows whose first frame has phase index [i] and whose
    last frame has phase index [j], and every window is counted in one
    cell. *)
Theorem transition_matrix_cells (self : Dataset) (matrix : list (list Z)) :
  _print_transition_matrix self = Ok matrix →
  let num_phases := length (phase_labels self) in
  length matrix = num_phases
  ∧ (∀ i j, (i < num_phases)%nat → (j < num_phases)%nat →
       cell matrix i j
       = Some (Z.of_nat (length (filter (ends_in self i j) (video_sequences self)))))
  ∧ Forall (λ sequence, ∃ i j, (i < num_phases)%nat ∧ (j < num_phases)%nat
                               ∧ ends_in self i j sequence)
           (video_sequences self).
Proof.
  intros Hreport. cbv zeta. unfold _print_transition_matrix in Hreport.
  destruct (matrix_loop _ _ _ _ (length (phase_labels self))
              (length_replicate _ _)
              (Forall_replicate _ _ _ (length_replicate _ _)) Hreport)
    as (Hlen & Hall & Hcell).
  split_and!; [done| |done].
  intros i j Hi Hj. rewrite Hcell. unfold cell.
  rewrite (lookup_replicate_2 _ _ _ Hi). simpl.
  rewrite (lookup_replicate_2 _ _ _ Hj). simpl. f_equal.
Qed.

Lemma transition_matrix_cells_witness :
  _print_transition_matrix (demo_built 42 3 1 false)
  = Ok [[1; 2; 0]; [0; 1; 2]; [0; 0; 0]]
  ∧ length [[1; 2; 0]; [0; 1; 2]; [0; 0; 0]]
    = length (phase_labels (demo_built 42 3 1 false))
  ∧ cell [[1; 2; 0]; [0; 1; 2]; [0; 0; 0]] 1 2
    = Some (Z.of_nat (length (filter (ends_in (demo_built 42 3 1 false) 1 2)
                                     (video_sequences (demo_built 42 3 1 false))))).
Proof.
  assert (Hreport : _print_transition_matrix (demo_built 42 3 1 false)
                    = Ok [[1; 2; 0]; [0; 1; 2]; [0; 0; 0]]).
  { vm_compute. reflexivity. }
  destruct (transition_matrix_cells _ _ Hreport) as (Hlen & Hcell & _).
  split; [exact Hreport|]. split; [exact Hlen|].
  apply Hcell; vm_compute; lia.
Defined.

(** ** A stride of zero *)

Lemma group_rows_nil rows : group_rows rows = [] → rows = [].
Proof.
  intros Hnil. destruct rows as [|r rows]; [done|].
  destruct (group_rows_complete (r :: rows) r) as (frames & Hin & _); [by left|].
  rewrite Hnil in Hin. by apply elem_of_nil in Hin.
Qed.

Lemma video_body_zero_stride self acc entry :
  stride self = 0 → ¬ ∃ acc', video_body self acc entry = Ok acc'.
Proof.
  intros Hzero [acc' Hbody]. unfold video_body in Hbody.
  apply bind_Ok in Hbody as (sorted_frames & _ & Hbody).
  apply bind_Ok in Hbody as (starts & Hrange & _).
  rewrite Hzero in Hrange. by vm_compute in Hrange.
Qed.

Lemma build_zero_stride `{Pandas} csv seed w used n mp md self :
  build_sequences csv seed w 0 used n mp md = Ok self →
  data_frame self = [] ∧ video_sequences self = [].
Proof.
  unfold build_sequences. intros Hbuilt.
  apply bind_Ok in Hbuilt as (df & _ & Hcreate).
  unfold _create_sequences in Hcreate.
  apply bind_Ok in Hcreate as (vs & Hloop & Hcreate). injection Hcreate as <-.
  cbn [data_frame video_sequences with_video_sequences] in *.
  destruct (group_rows df) as [|entry grouped] eqn:Hgroup.
  - injection Hloop as <-. by apply group_rows_nil in Hgroup.
  - simpl in Hloop. apply bind_Ok in Hloop as (acc & Hbody & _).
    exfalso. refine (video_body_zero_stride _ _ _ _ (ex_intro _ _ Hbody)). done.
Qed.

(** X9. With [stride=0] the constructor returns a dataset only when the
    selected split has no row at all; the dataset is then empty. *)
Theorem zero_stride_needs_empty_data `{Pandas} `{PyRandom} (csv : list Row)
    (seed w : Z) (used : string) (n : Z) (balance mp : bool) (md : string)
    (g g' : rng) (self : Dataset) :
  __init__ csv seed w 0 used n balance mp md g = Ok (self, g') →
  data_frame self = [] ∧ __len__ self = 0.
Proof.
  intros Hinit.
  destruct (init_population _ _ _ _ _ _ _ _ _ _ _ _ Hinit)
    as (built & Hbuilt & _ & _ & _ & _ & Hdf & _ & Hsub & _).
  apply build_zero_stride in Hbuilt as [Hempty Hnone].
  split; [by rewrite Hdf|]. unfold __len__.
  destruct (video_sequences self) as [|seq vs]; [done|].
  specialize (Hsub seq ltac:(by left)). rewrite Hnone in Hsub.
  by apply elem_of_nil in Hsub.
Qed.

Lemma zero_stride_needs_empty_data_witness :
  data_frame empty_dataset = [] ∧ __len__ empty_dataset = 0.
Proof.
  apply (@zero_stride_needs_empty_data rotating_pandas lcg_random
           [] 42 0 "Train" 0 false false EmptyString 7 7).
  vm_compute. reflexivity.
Defined.

Lemma comprehension_total {A B} (f : A → result B) (l : list A) :
  Forall (λ x, is_Ok (f x) = true) l → ∃ ys, comprehension f l = Ok ys.
Proof.
  induction 1 as [|x l Hx Hall [ys IH]]; simpl.
  - by exists [].
  - destruct (f x) as [y|e]; [|done]. simpl. rewrite IH. simpl. by eexists.
Qed.

(** X10. With [stride=0], rows in the selected split and a number in the
    last token of every identifier, the constructor raises the
    [ValueError] of [range]. *)
Theorem zero_stride_raises `{Pandas} `{PyRandom} (csv : list Row)
    (seed w : Z) (used : string) (n : Z) (balance mp : bool) (md : string)
    (g : rng) (df : list Row) :
  load_dataset csv seed used n = Ok df →
  df ≠ [] →
  Forall (λ r, first_digit_run (last_token (Identifier r)) ≠ []) df →
  __init__ csv seed w 0 used n balance mp md g
  = Raise (ValueError "range() arg 3 must not be zero").
Proof.
  intros Hload Hrows Hdigits. unfold __init__, build_sequences.
  rewrite Hload. cbn [mbind result_bind]. unfold _create_sequences.
  cbn [data_frame video_sequences].
  destruct (group_rows df) as [|[v frames] grouped] eqn:Hgroup;
    [by apply group_rows_nil in Hgroup|].
  destruct (comprehension_total ordinal frames) as [keys Hkeys].
  { apply Forall_forall. intros fr Hfr.
    destruct (group_rows_sound df v frames fr) as (r & Hr & ->); [|done|].
    { rewrite Hgroup. by left. }
    rewrite Forall_forall in Hdigits. specialize (Hdigits _ Hr).
    rewrite ordinal_spec. simpl.
    by destruct (first_digit_run (last_token (Identifier r))). }
  match goal with |- context [for_loop (video_body ?p) _ _] => set (self := p) end.
  assert (Hraise : video_body self [] (v, frames)
                   = Raise (ValueError "range() arg 3 must not be zero")).
  { unfold video_body, sorted. cbn [snd]. rewrite Hkeys. done. }
  cbn [for_loop]. by rewrite Hraise.
Qed.

Lemma zero_stride_raises_witness :
  @__init__ rotating_pandas lcg_random demo_csv 42 3 0 "Train" 0 true false
            "image_seq" 7
  = Raise (ValueError "range() arg 3 must not be zero").
Proof.
  apply (@zero_stride_raises rotating_pandas lcg_random demo_csv 42 3 "Train" 0
           true false "image_seq" 7 (rotate 42 demo_csv)).
  - vm_compute. reflexivity.
  - vm_compute. discriminate.
  - apply (bool_decide_unpack _). vm_compute. reflexivity.
Defined.

(** ** The rows a dataset is built from *)

Lemma rotate_Permutation {A} (k : nat) (l : list A) : rotate k l ≡ₚ l.
Proof.
  unfold rotate. rewrite Permutation_app_comm. by rewrite take_drop.
Qed.

#[local] Instance rotating_contract : PandasContract rotating_pandas.
Proof.
  split.
  - intros seed n names ids x. simpl. case_match; [done|]. intros [= <-] Hx.
    apply elem_of_take in Hx as (i & Hx & _).
    apply list_elem_of_lookup_2 in Hx. by apply elem_of_rotate in Hx.
  - intros seed n names ids. simpl. case_match eqn:Hn; [done|]. intros [= <-].
    apply orb_false_iff in Hn as [Hneg Hbig].
    rewrite length_take, length_rotate. lia.
  - intros seed n names ids Hnodup. simpl. case_match; [done|]. intros [= <-].
    eapply sublist_NoDup; [|apply sublist_take]. by rewrite rotate_Permutation.
  - intros seed rows. apply rotate_Permutation.
Qed.

Lemma drop_duplicates_loop (seen l : list string) :
  NoDup seen →
  NoDup (foldl (λ seen x, if decide (x ∈ seen) then seen else seen ++ [x]) seen l)
  ∧ ∀ x, x ∈ foldl (λ seen x, if decide (x ∈ seen) then seen else seen ++ [x]) seen l
         ↔ x ∈ seen ∨ x ∈ l.
Proof.
  revert seen. induction l as [|y l IH]; intros seen Hnodup; simpl.
  - split; [done|]. intros x. rewrite elem_of_nil. tauto.
  - destruct (decide (y ∈ seen)) as [Hin|Hout].
    + destruct (IH seen Hnodup) as [Hnd Hel]. split; [done|].
      intros x. rewrite Hel, elem_of_cons. split; [tauto|].
      intros [?|[->|?]]; tauto.
    + destruct (IH (seen ++ [y])) as [Hnd Hel].
      { apply NoDup_app. split_and!; [done| |apply NoDup_singleton].
        intros x Hx Hx'. apply list_elem_of_singleton in Hx' as ->. done. }
      split; [done|]. intros x.
      rewrite Hel, elem_of_app, list_elem_of_singleton, elem_of_cons. tauto.
Qed.

Lemma drop_duplicates_NoDup l : NoDup (drop_duplicates l).
Proof. apply drop_duplicates_loop. constructor. Qed.

Lemma elem_of_drop_duplicates l x : x ∈ drop_duplicates l ↔ x ∈ l.
Proof.
  unfold drop_duplicates.
  rewrite (proj2 (drop_duplicates_loop [] l (NoDup_nil_2)) x), elem_of_nil. tauto.
Qed.

(** X11. What the constructor keeps of the CSV: only rows of the
    requested split whose phase is not [tHB]; every such row when
    [NumberOfVideos] is 0; otherwise exactly [NumberOfVideos] videos,
    each with all of its rows. *)
Theorem load_dataset_selection `{PandasContract} (csv : list Row) (seed : Z)
    (used_for : string) (NumberOfVideos : Z) (df : list Row) :
  load_dataset csv seed used_for NumberOfVideos = Ok df →
  let eligible := filter (λ r, Phase r ≠ "tHB")
                         (filter (λ r, UsedFor r = used_for) csv) in
  (∀ r, r ∈ df → r ∈ csv ∧ UsedFor r = used_for ∧ Phase r ≠ "tHB")
  ∧ (NumberOfVideos = 0 → df ≡ₚ eligible)
  ∧ (NumberOfVideos ≠ 0 →
     Z.of_nat (length (drop_duplicates (Video_name <$> df))) = NumberOfVideos
     ∧ ∃ selected_ids : list string,
         df ≡ₚ filter (λ r, Video_name r ∈ selected_ids) eligible).
Proof.
  intros Hload eligible. unfold load_dataset in Hload.
  fold eligible in Hload.
  apply bind_Ok in Hload as (kept & Hkept & Hload). injection Hload as <-.
  assert (Heligible : ∀ r, r ∈ eligible →
                           r ∈ csv ∧ UsedFor r = used_for ∧ Phase r ≠ "tHB").
  { intros r Hr. subst eligible.
    apply list_elem_of_filter in Hr as [Hphase Hr].
    apply list_elem_of_filter in Hr as [Hused Hr]. done. }
  destruct (Z.eqb_spec NumberOfVideos 0) as [->|Hn].
  - injection Hkept as <-. split_and!.
    + intros r Hr. rewrite sample_frac1_Permutation in Hr. by apply Heligible.
    + intros _. apply sample_frac1_Permutation.
    + done.
  - apply bind_Ok in Hkept as (selected_ids & Hids & Hkept). injection Hkept as <-.
    split_and!.
    + intros r Hr. rewrite sample_frac1_Permutation in Hr.
      apply list_elem_of_filter in Hr as [_ Hr]. by apply Heligible.
    + done.
    + intros _. split; [|exists selected_ids; apply sample_frac1_Permutation].
      rewrite <- (sample_n_length _ _ _ _ Hids). f_equal.
      apply Permutation_length, NoDup_Permutation.
      * apply drop_duplicates_NoDup.
      * eapply sample_n_NoDup; [|exact Hids]. apply drop_duplicates_NoDup.
      * intros v. rewrite elem_of_drop_duplicates, list_elem_of_fmap. split.
        -- intros (r & -> & Hr). rewrite sample_frac1_Permutation in Hr.
           by apply list_elem_of_filter in Hr as [Hsel _].
        -- intros Hv. pose proof (sample_n_elem_of _ _ _ _ _ Hids Hv) as Hname.
           apply elem_of_drop_duplicates, list_elem_of_fmap in Hname as (r & -> & Hr).
           exists r. split; [done|]. rewrite sample_frac1_Permutation.
           by apply list_elem_of_filter.
Qed.

Lemma load_dataset_selection_witness :
  let eligible := filter (λ r, Phase r ≠ "tHB")
                         (filter (λ r, UsedFor r = "Train") two_videos_csv) in
  (∀ r, r ∈ selected_video_rows →
        r ∈ two_videos_csv ∧ UsedFor r = "Train" ∧ Phase r ≠ "tHB")
  ∧ (1 = 0 → selected_video_rows ≡ₚ eligible)
  ∧ (1 ≠ 0 →
     Z.of_nat (length (drop_duplicates (Video_name <$> selected_video_rows))) = 1
     ∧ ∃ selected_ids : list string,
         selected_video_rows
         ≡ₚ filter (λ r, Video_name r ∈ selected_ids) eligible).
Proof.
  apply (@load_dataset_selection rotating_pandas rotating_contract
           two_videos_csv 1 "Train" 1 selected_video_rows).
  vm_compute. reflexivity.
Defined.

Lemma built_frame_row `{PandasContract} (csv : list Row) (seed w s : Z)
    (used : string) (n : Z) (mp : bool) (md : string) (built : Dataset) seq frame :
  build_sequences csv seed w s used n mp md = Ok built →
  seq ∈ video_sequences built → frame ∈ seq →
  ∃ row, row ∈ csv ∧ frame = frame_of row
         ∧ UsedFor row = used ∧ Phase row ≠ "tHB".
Proof.
  intros Hbuilt Hseq Hframe. unfold build_sequences in Hbuilt.
  apply bind_Ok in Hbuilt as (df & Hload & Hcreate).
  destruct (λ He, create_sequences_frames _ _ He Hcreate seq frame Hseq Hframe)
    as (row & Hrow & ->); [done|].
  simpl in Hrow. unfold load_dataset in Hload.
  apply bind_Ok in Hload as (kept & Hkept & Hload). injection Hload as <-.
  rewrite sample_frac1_Permutation in Hrow.
  assert (Heligible : row ∈ filter (λ r, Phase r ≠ "tHB")
                                   (filter (λ r, UsedFor r = used) csv)).
  { destruct (n =? 0).
    - by injection Hkept as <-.
    - apply bind_Ok in Hkept as (selected_ids & _ & Hkept). injection Hkept as <-.
      by apply list_elem_of_filter in Hrow as [_ Hrow]. }
  apply list_elem_of_filter in Heligible as [Hphase Heligible].
  apply list_elem_of_filter in Heligible as [Hused Heligible].
  by exists row.
Qed.

(** X12. Every frame of every window of a constructed dataset is a row
    of the CSV that belongs to the requested split and whose phase is not
    [tHB]: balancing and shuffling bring in no frame of another split. *)
Theorem windows_from_requested_split `{PandasContract} `{PyRandom} (csv : list Row)
    (seed w s : Z) (used : string) (n : Z) (balance mp : bool) (md : string)
    (g g' : rng) (self : Dataset) :
  __init__ csv seed w s used n balance mp md g = Ok (self, g') →
  ∀ seq frame, seq ∈ video_sequences self → frame ∈ seq →
    ∃ row, row ∈ csv ∧ frame = frame_of row
           ∧ UsedFor row = used ∧ Phase row ≠ "tHB".
Proof.
  intros Hinit seq frame Hseq Hframe.
  destruct (init_population _ _ _ _ _ _ _ _ _ _ _ _ Hinit)
    as (built & Hbuilt & _ & _ & _ & _ & _ & _ & Hsub & Hsame).
  destruct balance.
  - apply Hsub in Hseq. by eapply built_frame_row.
  - rewrite Hsame in Hseq by done. by eapply built_frame_row.
Qed.

Lemma windows_from_requested_split_witness :
  ∃ seq frame row,
    seq ∈ video_sequences (demo_dataset 42 7).1 ∧ frame ∈ seq
    ∧ row ∈ demo_csv ∧ frame = frame_of row
    ∧ UsedFor row = "Train" ∧ Phase row ≠ "tHB".
Proof.
  assert (Hinit : @__init__ rotating_pandas lcg_random demo_csv 42 3 1 "Train" 0
                            true false "image_seq" 7
                  = Ok ((demo_dataset 42 7).1, (demo_dataset 42 7).2)).
  { vm_compute. reflexivity. }
  assert (Hseq : default [] (video_sequences (demo_dataset 42 7).1 !! 0%nat)
                 ∈ video_sequences (demo_dataset 42 7).1).
  { apply (list_elem_of_lookup_2 _ 0%nat). vm_compute. reflexivity. }
  assert (Hframe : frame_of (row "AA83-7" "RUN5.jpeg" "t3")
                   ∈ default [] (video_sequences (demo_dataset 42 7).1 !! 0%nat)).
  { apply (list_elem_of_lookup_2 _ 0%nat). vm_compute. reflexivity. }
  destruct (@windows_from_requested_split rotating_pandas rotating_contract
              lcg_random _ _ _ _ _ _ _ _ _ _ _ _ Hinit _ _ Hseq Hframe)
    as (r & Hr & Hf & Hused & Hphase).
  exists (default [] (video_sequences (demo_dataset 42 7).1 !! 0%nat)),
         (frame_of (row "AA83-7" "RUN5.jpeg" "t3")), r.
  exact (conj Hseq (conj Hframe (conj Hr (conj Hf (conj Hused Hphase))))).
Defined.

(** * Further properties of the prediction endpoint *)

Lemma decode_stopped `{Inference} (msg : string) (entries : list (nat * string)) :
  foldl decode_body (inl msg) entries = inl msg.
Proof. induction entries as [|entry entries IH]; [done|]. simpl. exact IH. Qed.

Lemma decode_loop_length `{Inference} (entries : list (nat * string))
    (acc pictures : list Picture) :
  foldl decode_body (inr acc) entries = inr pictures →
  length pictures = (length acc + length entries)%nat.
Proof.
  revert acc. induction entries as [|entry entries IH]; intros acc; simpl.
  - intros [= <-]. lia.
  - destruct (decode_image entry.2) as [e|picture].
    + by rewrite decode_stopped.
    + intros Hloop. apply IH in Hloop. rewrite length_app in Hloop. simpl in Hloop. lia.
Qed.

Lemma inference_loop_length `{Inference} (model : Model) (mode : string)
    (frame_count : Z) (images_tensor : list Picture) (starts : list Z)
    (acc predictions : list Z) :
  for_loop (inference_body model mode frame_count images_tensor) starts acc
  = Ok predictions →
  length predictions = (length acc + length starts)%nat.
Proof.
  revert acc. induction starts as [|start starts IH]; intros acc; simpl.
  - intros [= <-]. lia.
  - intros Hloop. apply bind_Ok in Hloop as (acc1 & Hbody & Hloop).
    apply IH in Hloop. unfold inference_body in Hbody.
    apply bind_Ok in Hbody as (prediction & _ & Hbody). injection Hbody as <-.
    rewrite length_app in Hloop. simpl in Hloop. lia.
Qed.

(** The ways in which the [try] block returns. *)
Lemma predict_body_cases `{Inference} `{PyRandom} (g g' : rng) (images : list string)
    (frame_count : Z) (o : outcome) :
  predict_body g images frame_count = Ok (o, g') →
  (∃ msg, o = Pair false (Str msg) ∧ g' = g)
  ∨ ∃ model_path mode predictions,
      select_model frame_count = Some (model_path, mode)
      ∧ o = Triple true (Ints predictions) (negb (path_exists model_path))
      ∧ Z.of_nat (length predictions)
        = Z.max 0 (Z.of_nat (length images) - frame_count + 1)
      ∧ (path_exists model_path = true → g' = g)
      ∧ (path_exists model_path = false →
         ∃ starts, for_loop random_body starts ([], g) = Ok (predictions, g')).
Proof.
  unfold predict_body. destruct (select_model frame_count) as [[model_path mode]|].
  - destruct (path_exists model_path) eqn:Hexists; cbn [negb].
    + destruct (foldl decode_body (inr []) (enumerate images))
        as [msg|processed_images] eqn:Hdecode.
      * intros [= <- <-]. left. by exists msg.
      * intros Hrun. apply bind_Ok in Hrun as (images_tensor & _ & Hrun).
        apply bind_Ok in Hrun as (loaded & _ & Hrun).
        apply bind_Ok in Hrun as (evaluated & _ & Hrun).
        apply bind_Ok in Hrun as (model & _ & Hrun).
        rewrite range_unit in Hrun. cbn [mbind result_bind] in Hrun.
        apply bind_Ok in Hrun as (predictions & Hloop & Hrun).
        injection Hrun as <- <-. right.
        exists model_path, mode, predictions. rewrite Hexists.
        split_and!; [done|done| |done|done].
        apply inference_loop_length in Hloop. apply decode_loop_length in Hdecode.
        unfold enumerate in Hdecode. rewrite length_imap in Hdecode.
        rewrite Hloop, length_seqZ. simpl in *. rewrite Hdecode. lia.
    + rewrite range_unit. cbn [mbind result_bind]. intros Hrun.
      apply bind_Ok in Hrun as ([predictions g1] & Hloop & Hrun).
      injection Hrun as <- <-. right.
      exists model_path, mode, predictions. rewrite Hexists.
      split_and!; [done|done| |done|by eexists].
      destruct (random_loop (seqZ 0 (Z.max 0 (Z.of_nat (length images) - frame_count + 1)))
                            [] g) as (draws & g2 & Hdraws & Hlen).
      rewrite Hdraws in Hloop. injection Hloop as <- _.
      rewrite Hlen, length_seqZ. lia.
  - intros [= <- <-]. left. by eexists.
Qed.

(** X13. Whatever it is given, [predictTransitions] returns either
    [(False, message)], leaving the generator alone, or
    [(True, predictions, is_random)] for a frame count of 8 or 32, where
    [is_random] tells that the model file is missing, there is one
    prediction per window position, a present model leaves the generator
    alone, and the predictions made without a model are all 0 or 1. *)
Theorem predictTransitions_outcome `{Inference} `{RandomContract} (g : rng)
    (images : list string) (frame_count : Z) (current_user_id : Z) :
  let answer := predictTransitions g images frame_count current_user_id in
  (∃ msg, answer = (Pair false (Str msg), g))
  ∨ ∃ model_path mode predictions,
      select_model frame_count = Some (model_path, mode)
      ∧ answer.1 = Triple true (Ints predictions) (negb (path_exists model_path))
      ∧ Z.of_nat (length predictions)
        = Z.max 0 (Z.of_nat (length images) - frame_count + 1)
      ∧ (path_exists model_path = true → answer.2 = g)
      ∧ (path_exists model_path = false → Forall (λ p, p = 0 ∨ p = 1) predictions).
Proof.
  unfold predictTransitions.
  destruct (predict_body g images frame_count) as [[o g']|e] eqn:Hbody;
    [|left; by eexists].
  apply predict_body_cases in Hbody
      as [(msg & -> & ->)|(model_path & mode & predictions & Hsel & -> & Hlen
                           & Hreal & Hrandom)].
  - left. by exists msg.
  - right. exists model_path, mode, predictions. split_and!; [done..|].
    intros Hmissing. destruct (Hrandom Hmissing) as (starts & Hloop).
    eapply random_loop_binary; [exact Hloop|constructor].
Qed.

Lemma predictTransitions_outcome_witness :
  (∃ msg, @predictTransitions resnet_only lcg_random 5 ten_images 32 1
          = (Pair false (Str msg), 5))
  ∨ ∃ model_path mode predictions,
      select_model 32 = Some (model_path, mode)
      ∧ (@predictTransitions resnet_only lcg_random 5 ten_images 32 1).1
        = Triple true (Ints predictions) (negb (path_exists model_path))
      ∧ Z.of_nat (length predictions)
        = Z.max 0 (Z.of_nat (length ten_images) - 32 + 1)
      ∧ (path_exists model_path = true
         → (@predictTransitions resnet_only lcg_random 5 ten_images 32 1).2 = 5)
      ∧ (path_exists model_path = false → Forall (λ p, p = 0 ∨ p = 1) predictions).
Proof.
  exact (@predictTransitions_outcome resnet_only lcg_random lcg_contract
           5 ten_images 32 1).
Defined.

(** X14. The three answers of the prediction route: 401 without a user;
    200 only for a signed-in user, a frame count of 8 or 32 and at least
    that many images, and then with exactly one prediction per window,
    [N - F + 1] of them; 400 with a message in every other case.  A
    refusal never advances the generator. *)
Theorem Embryo_Predict_answers `{Inference} `{PyRandom} (g : rng)
    (current_user_id : option Z) (frame_count : Z) (images : list string) :
  let answer := Embryo_Predict g current_user_id frame_count images in
  let N := Z.of_nat (length images) in
  (not_user current_user_id = true
   ∧ answer = ({| payload := Message false (Str "User not authenticated");
                  status := 401 |}, g))
  ∨ (not_user current_user_id = false
     ∧ ∃ msg, answer = ({| payload := Message false (Str msg); status := 400 |}, g))
  ∨ (not_user current_user_id = false
     ∧ (frame_count = 8 ∨ frame_count = 32)
     ∧ frame_count ≤ N
     ∧ ∃ predictions is_random,
         answer.1 = {| payload := Predictions true (Ints predictions) is_random;
                       status := 200 |}
         ∧ Z.of_nat (length predictions) = N - frame_count + 1).
Proof.
  unfold Embryo_Predict. destruct (not_user current_user_id); [by left|].
  right. destruct (Z.ltb_spec (Z.of_nat (length images)) frame_count) as [Hshort|Hlong].
  { left. split; [done|]. by eexists. }
  unfold predictTransitions.
  destruct (predict_body g images frame_count) as [[o g']|e] eqn:Hbody.
  - apply predict_body_cases in Hbody
        as [(msg & -> & ->)|(model_path & mode & predictions & Hsel & -> & Hlen & _)].
    + left. split; [done|]. by exists msg.
    + right. split_and!; [done| |done|].
      * apply select_model_supported. by rewrite Hsel.
      * exists predictions, (negb (path_exists model_path)). split; [done|]. lia.
  - left. split; [done|]. by eexists.
Qed.

(** X15. With the model file in place, the first image that cannot be
    decoded ends the call: the answer is [(False, "Error processing image
    i: ...")] with [i] the position of that image and the text of its
    exception, whatever follows it. *)
Theorem decode_failure_reported `{Inference} `{PyRandom} (g : rng)
    (good : list string) (bad : string) (rest : list string)
    (pictures : list Picture) (e : string) (frame_count current_user_id : Z)
    (model_path mode : string) :
  select_model frame_count = Some (model_path, mode) →
  path_exists model_path = true →
  Forall2 (λ img pic, decode_image img = inr pic) good pictures →
  decode_image bad = inl e →
  predictTransitions g (good ++ bad :: rest) frame_count current_user_id
  = (Pair false (Str ("Error processing image " +:+ pretty (length good)
                      +:+ ": " +:+ e)), g).
Proof.
  intros Hsel Hexists Hgood Hbad. unfold predictTransitions, predict_body.
  rewrite Hsel. cbv beta iota. rewrite Hexists. cbn [negb].
  unfold enumerate. rewrite imap_app, foldl_app.
  fold (enumerate good). rewrite (decode_all _ _ Hgood).
  cbn [imap foldl]. unfold decode_body at 2. cbn [snd fst].
  rewrite Hbad, decode_stopped. by rewrite Nat.add_0_r.
Qed.

Lemma decode_failure_reported_witness :
  @predictTransitions resnet_only lcg_random 5
     (["f0"; "f1"] ++ EmptyString :: ["f3"; "f4"; "f5"; "f6"; "f7"; "f8"]) 8 1
  = (Pair false (Str ("Error processing image " +:+ pretty (length ["f0"; "f1"])
                      +:+ ": " +:+ "cannot identify image file")), 5).
Proof.
  apply (@decode_failure_reported resnet_only lcg_random 5 ["f0"; "f1"] EmptyString
           ["f3"; "f4"; "f5"; "f6"; "f7"; "f8"] ["f0"; "f1"]
           "cannot identify image file" 8 1
           "../Results/resnet18/best_model.pth" "image_seq").
  - reflexivity.
  - reflexivity.
  - repeat constructor.
  - reflexivity.
Defined.

(** X16. Without the model file the images are never looked at: two
    requests with the same number of images, the same frame count and
    the same generator state get the same answer, whatever the images
    hold. *)
Theorem fallback_ignores_images `{Inference} `{PyRandom} (g : rng)
    (current_user_id : option Z) (frame_count : Z) (images images' : list string)
    (model_path mode : string) :
  select_model frame_count = Some (model_path, mode) →
  path_exists model_path = false →
  length images = length images' →
  Embryo_Predict g current_user_id frame_count images
  = Embryo_Predict g current_user_id frame_count images'.
Proof.
  intros Hsel Hmissing Hlen. unfold Embryo_Predict.
  assert (Hsame : ∀ u, predictTransitions g images frame_count u
                       = predictTransitions g images' frame_count u).
  { intros u. unfold predictTransitions, predict_body. rewrite Hsel.
    cbv beta iota. rewrite Hmissing. cbn [negb]. by rewrite Hlen. }
  rewrite Hlen.
  destruct (not_user current_user_id); [done|].
  destruct (Z.of_nat (length images') <? frame_count); [done|].
  by rewrite Hsame.
Qed.

Lemma fallback_ignores_images_witness :
  @Embryo_Predict resnet_only lcg_random 5 (Some 1) 32 (replicate 33 "frame")
  = @Embryo_Predict resnet_only lcg_random 5 (Some 1) 32 (replicate 33 EmptyString).
Proof.
  apply (@fallback_ignores_images resnet_only lcg_random 5 (Some 1) 32
           (replicate 33 "frame") (replicate 33 EmptyString)
           "../Results/timesformer/best_model.pth" "video").
  - reflexivity.
  - reflexivity.
  - reflexivity.
Defined.

(** * The three datasets of [get_dataloaders] *)

(** The generator state on entry does not reach the dataset: balancing
    seeds the generator itself. *)
Lemma init_forgets_state `{Pandas} `{PyRandom} csv seed w s used n balance mp md
    (g1 g2 : rng) :
  fst <$> __init__ csv seed w s used n balance mp md g1
  = fst <$> __init__ csv seed w s used n balance mp md g2.
Proof.
  unfold __init__.
  destruct (build_sequences csv seed w s used n mp md) as [built|e]; [|done].
  cbn [mbind result_bind]. unfold finish_init. destruct balance.
  - change (_balance_flags g1 built) with (_balance_flags g2 built). done.
  - cbn [mbind result_bind fst].
    destruct (_print_flag_consistency built); [|done]. cbn [mbind result_bind].
    by destruct (_print_transition_matrix built).
Qed.

Lemma fmap_Ok {A B} (f : A → B) (m : result A) (a : A) :
  m = Ok a → f <$> m = Ok (f a).
Proof. by intros ->. Qed.

#[local] Instance plain_contract : @TorchContract plain_torch.
Proof.
  constructor. intros set batch_size shuffle pin_memory num_workers loader.
  unfold DataLoader, dataset, plain_torch.
  destruct (num_workers <? 0); [done|].
  destruct (shuffle && (__len__ set <=? 0)); [done|].
  destruct (batch_size <=? 0); [done|]. by intros [= <-].
Qed.

(** What a successful call of [get_dataloaders] went through. *)
Lemma get_dataloaders_Ok `{Pandas} `{PyRandom} `{TorchContract}
    (read_csv : string → list Row) (WINDOW_SIZE STRIDE : Z) (DATA_LOADER : string)
    (BATCH_SIZE NUM_WORKERS : Z) (kw : kwargs) (g g' : rng)
    (train_loader val_loader test_loader : Loader) :
  get_dataloaders read_csv WINDOW_SIZE STRIDE DATA_LOADER BATCH_SIZE NUM_WORKERS kw g
  = Ok (train_loader, val_loader, test_loader, g') →
  let construct := λ used g0,
    __init__ (read_csv (default "F0" (FocalType kw))) 42 WINDOW_SIZE STRIDE
             used 0 (default false (Balance_Flags kw))
             (default false (Multiple_Phases kw)) DATA_LOADER g0 in
  ∃ g1 g2,
    construct "Train" g = Ok (dataset train_loader, g1)
    ∧ construct "Val" g1 = Ok (dataset val_loader, g2)
    ∧ construct "Test" g2 = Ok (dataset test_loader, g').
Proof.
  intros Hload construct. unfold get_dataloaders in Hload.
  apply bind_Ok in Hload as ([train g1] & Htrain & Hload).
  apply bind_Ok in Hload as ([val g2] & Hval & Hload).
  apply bind_Ok in Hload as ([test g3] & Htest & Hload).
  apply bind_Ok in Hload as (l1 & Hl1 & Hload).
  apply bind_Ok in Hload as (l2 & Hl2 & Hload).
  apply bind_Ok in Hload as (l3 & Hl3 & Hload).
  injection Hload as <- <- <- <-. simpl in *.
  apply DataLoader_dataset in Hl1, Hl2, Hl3. subst train val test.
  by exists g1, g2.
Qed.

(** X17. The datasets behind the three loaders do not depend on the
    state of the [random] module when [get_dataloaders] is called, nor on
    one another: each one is the dataset that its constructor builds from
    any generator state, for the splits Train, Val and Test, seed 42 and
    all videos, with the one balancing choice passed in for all three
    (none when [Balance_Flags] is not passed). *)
Theorem get_dataloaders_datasets `{Pandas} `{PyRandom} `{TorchContract}
    (read_csv : string → list Row)
    (WINDOW_SIZE STRIDE : Z) (DATA_LOADER : string) (BATCH_SIZE NUM_WORKERS : Z)
    (kw : kwargs) (g g' : rng) (train_loader val_loader test_loader : Loader) :
  get_dataloaders read_csv WINDOW_SIZE STRIDE DATA_LOADER BATCH_SIZE NUM_WORKERS kw g
  = Ok (train_loader, val_loader, test_loader, g') →
  let construct := λ used g0,
    fst <$> __init__ (read_csv (default "F0" (FocalType kw))) 42 WINDOW_SIZE STRIDE
                     used 0 (default false (Balance_Flags kw))
                     (default false (Multiple_Phases kw)) DATA_LOADER g0 in
  ∀ g0, construct "Train" g0 = Ok (dataset train_loader)
        ∧ construct "Val" g0 = Ok (dataset val_loader)
        ∧ construct "Test" g0 = Ok (dataset test_loader).
Proof.
  intros Hload construct g0.
  destruct (get_dataloaders_Ok _ _ _ _ _ _ _ _ _ _ _ _ Hload)
    as (g1 & g2 & Htrain & Hval & Htest).
  subst construct. cbv beta. split_and!.
  - rewrite (init_forgets_state _ _ _ _ _ _ _ _ _ g0 g). by rewrite Htrain.
  - rewrite (init_forgets_state _ _ _ _ _ _ _ _ _ g0 g1). by rewrite Hval.
  - rewrite (init_forgets_state _ _ _ _ _ _ _ _ _ g0 g2). by rewrite Htest.
Qed.

Lemma get_dataloaders_datasets_witness :
  let construct := λ used g0,
    fst <$> @__init__ rotating_pandas lcg_random three_splits_csv 42 2 1
                      used 0 false false "image_seq" g0 in
  construct "Train" 1 = Ok (loader_dataset (demo_loaders 7).1.1.1)
  ∧ construct "Val" 1 = Ok (loader_dataset (demo_loaders 7).1.1.2)
  ∧ construct "Test" 1 = Ok (loader_dataset (demo_loaders 7).1.2).
Proof.
  apply (@get_dataloaders_datasets rotating_pandas lcg_random
           plain_torch plain_contract
           (λ _, three_splits_csv) 2 1 "image_seq" 4 0
           {| FocalType := None; Balance_Flags := None; Multiple_Phases := None |}
           7 (demo_loaders 7).2).
  vm_compute. reflexivity.
Defined.

Lemma elem_of_concat {A} (x : A) (ls : list (list A)) :
  x ∈ concat ls ↔ ∃ l, x ∈ l ∧ l ∈ ls.
Proof.
  induction ls as [|l0 ls IH]; simpl.
  - split; [by intros ?%elem_of_nil|]. by intros (l & _ & ?%elem_of_nil).
  - rewrite elem_of_app, IH. split.
    + intros [Hx|(l & Hx & Hl)]; [exists l0; split; [done|by left]|].
      exists l. split; [done|by right].
    + intros (l & Hx & Hl). apply elem_of_cons in Hl as [->|Hl]; [by left|].
      right. by exists l.
Qed.

(** X18. When the paths of the split file tell the splits apart, no
    image is shared between the datasets of two loaders: a frame of a
    training window is in no validation or test window, and a frame of a
    validation window is in no test window. *)
Theorem loaders_share_no_image `{PandasContract} `{PyRandom} `{TorchContract}
    (read_csv : string → list Row) (WINDOW_SIZE STRIDE : Z) (DATA_LOADER : string)
    (BATCH_SIZE NUM_WORKERS : Z) (kw : kwargs) (g g' : rng)
    (train_loader val_loader test_loader : Loader) :
  get_dataloaders read_csv WINDOW_SIZE STRIDE DATA_LOADER BATCH_SIZE NUM_WORKERS kw g
  = Ok (train_loader, val_loader, test_loader, g') →
  (∀ r r', r ∈ read_csv (default "F0" (FocalType kw)) →
           r' ∈ read_csv (default "F0" (FocalType kw)) →
           Path r = Path r' → UsedFor r = UsedFor r') →
  let images := λ loader : Loader,
    path <$> concat (video_sequences (dataset loader)) in
  (∀ p, p ∈ images train_loader →
        (p ∉ images val_loader) ∧ (p ∉ images test_loader))
  ∧ (∀ p, p ∈ images val_loader → p ∉ images test_loader).
Proof.
  intros Hload Hpaths images.
  destruct (get_dataloaders_Ok _ _ _ _ _ _ _ _ _ _ _ _ Hload)
    as (g1 & g2 & Htrain & Hval & Htest).
  clear Hload. subst images.
  set (images := λ self : Dataset, path <$> concat (video_sequences self)).
  change ((∀ p, p ∈ images (dataset train_loader) →
                (p ∉ images (dataset val_loader))
                ∧ (p ∉ images (dataset test_loader)))
          ∧ (∀ p, p ∈ images (dataset val_loader) →
                  p ∉ images (dataset test_loader))).
  assert (Hsplit : ∀ used self g0 g1 p,
            __init__ (read_csv (default "F0" (FocalType kw))) 42 WINDOW_SIZE STRIDE
                     used 0 (default false (Balance_Flags kw))
                     (default false (Multiple_Phases kw)) DATA_LOADER g0
            = Ok (self, g1) →
            p ∈ images self →
            ∃ row, row ∈ read_csv (default "F0" (FocalType kw))
                   ∧ Path row = p ∧ UsedFor row = used).
  { intros used self g0 g4 p Hinit Hp. subst images. cbv beta in Hp.
    apply list_elem_of_fmap in Hp as (frame & -> & Hframe).
    apply elem_of_concat in Hframe as (seq & Hframe & Hseq).
    destruct (init_population _ _ _ _ _ _ _ _ _ _ _ _ Hinit)
      as (built & Hbuilt & _ & _ & _ & _ & _ & _ & Hsub & _).
    destruct (built_frame_row _ _ _ _ _ _ _ _ _ _ _ Hbuilt (Hsub _ Hseq) Hframe)
      as (row & Hrow & -> & Hused & _).
    by exists row. }
  assert (Hapart : ∀ used1 used2 self1 self2 g0 g1 g2 g3 p,
            used1 ≠ used2 →
            __init__ (read_csv (default "F0" (FocalType kw))) 42 WINDOW_SIZE STRIDE
                     used1 0 (default false (Balance_Flags kw))
                     (default false (Multiple_Phases kw)) DATA_LOADER g0
            = Ok (self1, g1) →
            __init__ (read_csv (default "F0" (FocalType kw))) 42 WINDOW_SIZE STRIDE
                     used2 0 (default false (Balance_Flags kw))
                     (default false (Multiple_Phases kw)) DATA_LOADER g2
            = Ok (self2, g3) →
            p ∈ images self1 → p ∉ images self2).
  { intros used1 used2 self1 self2 g0 g4 g5 g6 p Hne Hinit1 Hinit2 Hp1 Hp2.
    destruct (Hsplit _ _ _ _ _ Hinit1 Hp1) as (r1 & Hr1 & Hpath1 & Hused1).
    destruct (Hsplit _ _ _ _ _ Hinit2 Hp2) as (r2 & Hr2 & Hpath2 & Hused2).
    apply Hne. rewrite <- Hused1, <- Hused2. apply Hpaths; [done..|congruence]. }
  split.
  - intros p Hp. split.
    + by eapply (Hapart "Train" "Val").
    + by eapply (Hapart "Train" "Test").
  - intros p Hp. by eapply (Hapart "Val" "Test").
Qed.

Lemma loaders_share_no_image_witness :
  let images := λ loader : plain_loader,
    path <$> concat (video_sequences (loader_dataset loader)) in
  (∀ p, p ∈ images (demo_loaders 7).1.1.1 →
        (p ∉ images (demo_loaders 7).1.1.2) ∧ (p ∉ images (demo_loaders 7).1.2))
  ∧ (∀ p, p ∈ images (demo_loaders 7).1.1.2 → p ∉ images (demo_loaders 7).1.2).
Proof.
  apply (@loaders_share_no_image rotating_pandas rotating_contract lcg_random
           plain_torch plain_contract
           (λ _, three_splits_csv) 2 1 "image_seq" 4 0
           {| FocalType := None; Balance_Flags := None; Multiple_Phases := None |}
           7 (demo_loaders 7).2).
  - vm_compute. reflexivity.
  - intros r r' Hr Hr'. revert r' Hr'.
    apply (proj1 (Forall_forall (λ r', Path r = Path r' → UsedFor r = UsedFor r')
                                three_splits_csv)).
    revert r Hr.
    apply (proj1 (Forall_forall
                    (λ r, Forall (λ r', Path r = Path r' → UsedFor r = UsedFor r')
                                 three_splits_csv)
                    three_splits_csv)).
    apply (bool_decide_unpack _). vm_compute. reflexivity.
Defined.

(** * Identifiers written by the preprocessing *)

Lemma has_underscore_app p t :
  has_underscore (p +:+ t) = has_underscore p || has_underscore t.
Proof.
  induction p as [|c p IH]; [done|]. rewrite append_cons. simpl.
  rewrite IH. by rewrite orb_assoc.
Qed.

Lemma last_token_app p t :
  has_underscore t = false → last_token (p +:+ "_" +:+ t) = t.
Proof.
  intros Ht. induction p as [|c p IH].
  - rewrite append_nil_l, append_cons, append_nil_l. simpl. by rewrite Ht.
  - rewrite append_cons. simpl. rewrite IH.
    rewrite has_underscore_app, append_cons. simpl. by rewrite orb_true_r.
Qed.

Lemma digits_only_underscore d : digits_only d = true → has_underscore d = false.
Proof.
  induction d as [|c d IH]; [done|]. simpl. intros [Hc Hd]%andb_true_iff.
  rewrite IH by done. rewrite orb_false_r.
  destruct (Ascii.eqb_spec c "_") as [->|]; [|done]. by vm_compute in Hc.
Qed.

(** A character below 128 is its own code point. *)
Lemma code_points_ascii c s :
  (byte c < 128)%N → code_points (String c s) = byte c :: code_points s.
Proof.
  intros Hc. cbn [code_points]. cbv zeta.
  by destruct (N.ltb_spec (byte c) 128) as [_|?]; [|lia].
Qed.

(** The digits [0] to [9] are decimal digits, with their usual values. *)
Lemma decimal_ascii (b : N) :
  ((48 <=? b) && (b <=? 57))%N = true → decimal b = Some (b - 48)%N.
Proof.
  intros Hb. apply andb_true_iff in Hb as [Hlo Hhi].
  apply N.leb_le in Hlo, Hhi.
  unfold decimal, decimal_zeros. cbn [decimal_in].
  destruct (N.leb_spec 48 b) as [_|?]; [|lia].
  by destruct (N.ltb_spec b (48 + 10)) as [_|?]; [|lia].
Qed.

Lemma code_points_digits d t :
  digits_only d = true →
  code_points (d +:+ t) = (byte <$> list_ascii_of_string d) ++ code_points t
  ∧ Forall (λ c, is_digit c = true) (byte <$> list_ascii_of_string d).
Proof.
  induction d as [|c d IH]; [done|]. intros Hd.
  cbn [digits_only] in Hd. apply andb_true_iff in Hd as [Hc Hd].
  destruct (IH Hd) as [Happ Hall].
  change (list_ascii_of_string (String c d)) with (c :: list_ascii_of_string d).
  rewrite fmap_cons. split.
  - rewrite append_cons, code_points_ascii, Happ; [done|].
    apply andb_true_iff in Hc as [_ Hc]. apply N.leb_le in Hc. lia.
  - constructor; [|done]. unfold is_digit. by rewrite decimal_ascii.
Qed.

Lemma code_points_digits_only d :
  digits_only d = true → code_points d = byte <$> list_ascii_of_string d.
Proof.
  intros Hd. destruct (code_points_digits d EmptyString Hd) as [Happ _].
  rewrite append_nil_r in Happ. rewrite Happ. apply app_nil_r.
Qed.

Lemma leading_digits_app ds t :
  Forall (λ c, is_digit c = true) ds → leading_digits t = [] →
  leading_digits (ds ++ t) = ds.
Proof.
  intros Hds Ht. induction Hds as [|c ds Hc Hds IH]; [done|].
  simpl. rewrite Hc. by rewrite IH.
Qed.

Lemma first_run_app ds t :
  ds ≠ [] → Forall (λ c, is_digit c = true) ds → leading_digits t = [] →
  first_run (ds ++ t) = ds.
Proof.
  intros Hne Hds Ht. destruct Hds as [|c ds Hc Hds]; [done|].
  simpl. rewrite Hc. f_equal. by apply leading_digits_app.
Qed.

Lemma first_digit_run_digits d t :
  d ≠ EmptyString → digits_only d = true → leading_digits (code_points t) = [] →
  first_digit_run (d +:+ t) = code_points d.
Proof.
  intros Hne Hd Ht. unfold first_digit_run.
  destruct (code_points_digits d t Hd) as [-> Hall].
  rewrite (code_points_digits_only d) by done.
  apply first_run_app; [|done..]. by destruct d.
Qed.

Lemma int_from_app acc (d t : list N) :
  int_from acc (d ++ t) = int_from (int_from acc d) t.
Proof. revert acc. induction d as [|c d IH]; intros acc; [done|]. simpl. apply IH. Qed.

Lemma pretty_N_char_digit (x : N) :
  (x < 10)%N →
  ((48 <=? byte (pretty_N_char x)) && (byte (pretty_N_char x) <=? 57))%N = true
  ∧ digit_value (byte (pretty_N_char x)) = Z.of_N x.
Proof.
  intros Hx.
  assert (x = 0 ∨ x = 1 ∨ x = 2 ∨ x = 3 ∨ x = 4 ∨ x = 5 ∨ x = 6 ∨ x = 7
          ∨ x = 8 ∨ x = 9)%N as Hcases by lia.
  repeat destruct Hcases as [->|Hcases]; [by vm_compute..|].
  subst x. by vm_compute.
Qed.

(** The digits that [pretty_N_go] puts in front of its accumulator. *)
Lemma pretty_N_go_digits (x : N) :
  ∀ s, ∃ d, pretty_N_go x s = d +:+ s
            ∧ digits_only d = true
            ∧ ((0 < x)%N → d ≠ EmptyString)
            ∧ ∀ acc, ∃ k : Z,
                0 ≤ k ∧ int_from acc (code_points d) = acc * 10 ^ k + Z.of_N x.
Proof.
  induction (N.lt_wf_0 x) as [x _ IH]. intros s.
  destruct (decide (x = 0%N)) as [->|Hpos].
  - exists EmptyString. rewrite pretty_N_go_0. split_and!; [done|done|lia|].
    intros acc. exists 0. simpl. lia.
  - rewrite pretty_N_go_step by lia.
    destruct (IH (x `div` 10)%N ltac:(apply N.div_lt; lia)
                 (String (pretty_N_char (x `mod` 10)) s))
      as (d & Hgo & Hd & _ & Hint).
    destruct (pretty_N_char_digit (x `mod` 10)%N) as [Hdigit Hvalue];
      [apply N.mod_lt; lia|].
    assert (Hlast : digits_only (String (pretty_N_char (x `mod` 10)) EmptyString)
                    = true) by (simpl; by rewrite Hdigit).
    exists (d +:+ String (pretty_N_char (x `mod` 10)) EmptyString). split_and!.
    + rewrite Hgo. by rewrite append_assoc, append_cons, append_nil_l.
    + clear -Hd Hlast. induction d as [|c d IHd]; [done|].
      simpl in Hd. apply andb_true_iff in Hd as [Hc Hd].
      rewrite append_cons. cbn [digits_only]. rewrite Hc. by apply IHd.
    + intros _. by destruct d.
    + intros acc. destruct (Hint acc) as (k & Hk & Hacc).
      exists (k + 1). split; [lia|].
      destruct (code_points_digits d (String (pretty_N_char (x `mod` 10)) EmptyString)
                  Hd) as [-> _].
      rewrite <- code_points_digits_only by done.
      rewrite (code_points_digits_only _ Hlast).
      rewrite int_from_app, Hacc. simpl. rewrite Hvalue.
      rewrite Z.pow_add_r by lia.
      rewrite (N.div_mod x 10) at 3 by lia.
      rewrite N2Z.inj_add, N2Z.inj_mul. simpl. lia.
Qed.

Lemma pretty_N_digits (x : N) :
  digits_only (pretty x) = true ∧ pretty x ≠ EmptyString
  ∧ int (code_points (pretty x)) = Z.of_N x.
Proof.
  unfold pretty, pretty_N. case_decide as Hx; [by subst x|].
  destruct (pretty_N_go_digits x EmptyString) as (d & Hgo & Hd & Hne & Hint).
  rewrite append_nil_r in Hgo. rewrite Hgo.
  split_and!; [done|apply Hne; lia|].
  unfold int. destruct (Hint 0) as (k & _ & ->). lia.
Qed.

(** Reading back an identifier of the form [<name>_Image_<digits>.jpeg]. *)
Lemma ordinal_of_image_name (name digits p ph : string) :
  digits ≠ EmptyString → digits_only digits = true →
  ordinal {| identifier := name +:+ "_Image_" +:+ digits +:+ ".jpeg";
             path := p; phase := ph |}
  = Ok (int (code_points digits)).
Proof.
  intros Hne Hdigits. rewrite ordinal_spec. cbn [identifier].
  replace (name +:+ "_Image_" +:+ digits +:+ ".jpeg")
    with ((name +:+ "_Image") +:+ "_" +:+ (digits +:+ ".jpeg"))
    by (by rewrite !append_assoc).
  rewrite last_token_app.
  - rewrite first_digit_run_digits by done.
    rewrite (code_points_digits_only _ Hdigits). by destruct digits.
  - rewrite has_underscore_app, digits_only_underscore by done. done.
Qed.

Lemma filename_ordinal_nonneg (patient : string) (i : Z) (p ph : string) :
  0 ≤ i →
  ordinal {| identifier := preProcess.filename patient i; path := p; phase := ph |}
  = Ok i.
Proof.
  intros Hi. unfold preProcess.filename. destruct i as [|n|n]; [| |lia].
  - by apply (ordinal_of_image_name patient "0").
  - destruct (pretty_N_digits (Npos n)) as (Hd & Hne & Hint).
    change (pretty (Zpos n)) with (pretty (Npos n)).
    rewrite ordinal_of_image_name by done. by rewrite Hint.
Qed.

(** X19. The ordinal that the dataset reads from an identifier written by
    [process_annotations] is the frame number it was written for; for a
    negative frame number the sign is lost. *)
Theorem filename_ordinal (patient : string) (i : Z) (p ph : string) :
  ordinal {| identifier := preProcess.filename patient i; path := p; phase := ph |}
  = Ok (Z.abs i).
Proof.
  destruct (Z.neg_nonneg_cases i) as [Hneg|Hpos];
    [|rewrite Z.abs_eq by done; by apply filename_ordinal_nonneg].
  unfold preProcess.filename. destruct i as [|n|n]; [lia|lia|].
  destruct (pretty_N_digits (Npos n)) as (Hd & Hne & Hint).
  change (pretty (Zneg n)) with ("-" +:+ pretty (Npos n)).
  replace (patient +:+ "_Image_" +:+ ("-" +:+ pretty (Npos n)) +:+ ".jpeg")
    with ((patient +:+ "_Image") +:+ "_"
          +:+ ("-" +:+ pretty (Npos n) +:+ ".jpeg"))
    by (by rewrite !append_assoc).
  rewrite ordinal_spec. cbn [identifier]. rewrite last_token_app.
  - rewrite append_cons, append_nil_l.
    assert (Hskip : first_digit_run (String "-" (pretty (Npos n) +:+ ".jpeg"))
                    = first_digit_run (pretty (Npos n) +:+ ".jpeg")).
    { unfold first_digit_run. by rewrite code_points_ascii by (by vm_compute). }
    rewrite Hskip, first_digit_run_digits by done.
    rewrite (code_points_digits_only _ Hd) in Hint |- *.
    destruct (pretty (Npos n)) as [|c d]; [done|].
    cbn [list_ascii_of_string fmap list_fmap] in Hint |- *. by rewrite Hint.
  - rewrite append_cons, append_nil_l. simpl.
    rewrite has_underscore_app, digits_only_underscore by done. done.
Qed.

Lemma frame_loop `{preProcess.FileSystem} (images_dir patient focal : string)
    (a : preProcess.Annotation) (frames : list Z)
    (data_csv : list preProcess.PathRow) :
  for_loop (preProcess.frame_body (preProcess.os_path_join images_dir patient)
                                  patient focal a) frames data_csv
  = Ok (data_csv ++ (preProcess.path_row images_dir patient focal a
                       <$> filter (preProcess.image_found images_dir patient) frames)).
Proof.
  revert data_csv. induction frames as [|i frames IH]; intros data_csv.
  - simpl. by rewrite app_nil_r.
  - cbn [for_loop].
    assert (Hbody :
      preProcess.frame_body (preProcess.os_path_join images_dir patient)
                            patient focal a data_csv i
      = Ok (if preProcess.os_path_exists
                 (preProcess.os_path_join (preProcess.os_path_join images_dir patient)
                                          (preProcess.filename patient i))
            then data_csv ++ [preProcess.path_row images_dir patient focal a i]
            else data_csv)).
    { unfold preProcess.frame_body. cbv zeta.
      by destruct (preProcess.os_path_exists
                     (preProcess.os_path_join
                        (preProcess.os_path_join images_dir patient)
                        (preProcess.filename patient i))). }
    rewrite Hbody. cbn [mbind result_bind]. rewrite IH.
    destruct (preProcess.os_path_exists
                (preProcess.os_path_join (preProcess.os_path_join images_dir patient)
                                         (preProcess.filename patient i)))
      eqn:Hfound.
    + rewrite filter_cons_True by done. by rewrite <- app_assoc.
    + rewrite filter_cons_False; [done|].
      unfold preProcess.image_found. by rewrite Hfound.
Qed.

Lemma range_step_1 (lo hi : Z) : range lo hi 1 = Ok (seqZ lo (hi - lo)).
Proof.
  unfold range, range_len. simpl. f_equal.
  erewrite (list_fmap_ext _ (Z.add lo)) by (intros; lia).
  rewrite fmap_add_seqZ, Z.add_0_r. destruct (Z.ltb_spec lo hi) as [Hlt|Hge].
  - rewrite Z.div_1_r. f_equal. lia.
  - unfold seqZ. by replace (Z.to_nat (hi - lo)) with 0%nat by lia.
Qed.

Lemma elem_of_line_frames (a : preProcess.Annotation) (i : Z) :
  i ∈ preProcess.line_frames a
  ↔ preProcess.frame_start a ≤ i ≤ preProcess.frame_end a.
Proof. unfold preProcess.line_frames. rewrite elem_of_seqZ. lia. Qed.

Lemma annotation_loop `{preProcess.FileSystem} (images_dir patient focal : string)
    (df : list preProcess.Annotation) (data_csv : list preProcess.PathRow) :
  for_loop (preProcess.annotation_body (preProcess.os_path_join images_dir patient)
                                       patient focal) df data_csv
  = Ok (data_csv
        ++ concat (preProcess.line_rows images_dir patient focal <$> df)).
Proof.
  revert data_csv. induction df as [|a df IH]; intros data_csv.
  - simpl. by rewrite app_nil_r.
  - cbn [for_loop].
    assert (Hbody :
      preProcess.annotation_body (preProcess.os_path_join images_dir patient)
                                 patient focal data_csv a
      = Ok (data_csv ++ preProcess.line_rows images_dir patient focal a)).
    { unfold preProcess.annotation_body. rewrite range_step_1.
      cbn [mbind result_bind]. apply frame_loop. }
    rewrite Hbody. cbn [mbind result_bind]. rewrite IH.
    rewrite fmap_cons. cbn [concat]. by rewrite app_assoc.
Qed.

Lemma elem_of_line_rows `{preProcess.FileSystem} (images_dir patient focal : string)
    (df : list preProcess.Annotation) (r : preProcess.PathRow) :
  r ∈ concat (preProcess.line_rows images_dir patient focal <$> df)
  ↔ ∃ a i, a ∈ df
           ∧ preProcess.frame_start a ≤ i ≤ preProcess.frame_end a
           ∧ preProcess.image_found images_dir patient i
           ∧ r = preProcess.path_row images_dir patient focal a i.
Proof.
  rewrite elem_of_concat. split.
  - intros (l & Hr & Hl). apply list_elem_of_fmap in Hl as (a & -> & Ha).
    unfold preProcess.line_rows in Hr.
    apply list_elem_of_fmap in Hr as (i & -> & Hi).
    apply list_elem_of_filter in Hi as [Hfound Hi].
    apply elem_of_line_frames in Hi. by exists a, i.
  - intros (a & i & Ha & Hi & Hfound & ->).
    exists (preProcess.line_rows images_dir patient focal a). split.
    + unfold preProcess.line_rows. apply list_elem_of_fmap. exists i.
      split; [done|]. apply list_elem_of_filter. split; [done|].
      by apply elem_of_line_frames.
    + apply list_elem_of_fmap. by exists a.
Qed.

(** X20. For one annotation file, [process_annotations] never raises, and
    what it appends is, line after line of the file and in the order of
    the frame numbers, one row for each frame number between
    [frame_start] and [frame_end], both included, whose image file
    exists: the rows of a line that is repeated are repeated, and the
    number of rows is the number of such pairs of a line and a frame
    number.  A row carries the patient as video name and the phase of the
    line.  When no line starts below zero, the ordinal that the dataset
    reads from each row is the frame number of the row. *)
Theorem annotation_rows_frames `{preProcess.FileSystem}
    (images_dir patient focal : string) (df : list preProcess.Annotation) :
  let rows := concat (preProcess.line_rows images_dir patient focal <$> df) in
  preProcess.annotation_rows images_dir patient focal df [] = Ok rows
  ∧ length rows
    = sum_list_with
        (λ a, length (filter (preProcess.image_found images_dir patient)
                             (seqZ (preProcess.frame_start a)
                                   (preProcess.frame_end a + 1
                                    - preProcess.frame_start a))))
        df
  ∧ (∀ r, r ∈ rows ↔
          ∃ a i, a ∈ df
                 ∧ preProcess.frame_start a ≤ i ≤ preProcess.frame_end a
                 ∧ preProcess.image_found images_dir patient i
                 ∧ r = preProcess.path_row images_dir patient focal a i)
  ∧ (Forall (λ a, 0 ≤ preProcess.frame_start a) df →
     Forall (λ r, ∃ i, preProcess.Identifier r = preProcess.filename patient i
                       ∧ ordinal (preProcess.frame_of_row r) = Ok i) rows).
Proof.
  intros rows. split_and!.
  - unfold preProcess.annotation_rows. cbv zeta.
    by rewrite annotation_loop.
  - subst rows. induction df as [|a df IH]; [done|].
    rewrite fmap_cons. cbn [concat sum_list_with]. rewrite length_app, IH.
    f_equal. unfold preProcess.line_rows. by rewrite length_fmap.
  - apply elem_of_line_rows.
  - intros Hstart. apply Forall_forall. intros r Hr.
    apply elem_of_line_rows in Hr as (a & i & Ha & Hi & _ & ->).
    rewrite Forall_forall in Hstart. specialize (Hstart _ Ha).
    exists i. split; [done|]. apply filename_ordinal_nonneg. lia.
Qed.

(** * The length of a permissive dataset *)

Lemma group_rows_keys rows :
  (group_rows rows).*1 = drop_duplicates (Video_name <$> rows).
Proof.
  unfold group_rows, drop_duplicates.
  induction rows as [|r rows IH] using rev_ind; [done|].
  rewrite fmap_app, !foldl_app. cbn [fmap list_fmap foldl].
  by rewrite grouped_append_keys, IH.
Qed.

Lemma video_windows_length self frames windows :
  1 ≤ window_size self → 1 ≤ stride self →
  video_windows self frames = Ok windows →
  Z.of_nat (length windows)
  = Z.max 0 ((Z.of_nat (length frames) - window_size self) `div` stride self + 1).
Proof.
  intros Hw Hs Hwindows. unfold video_windows in Hwindows.
  apply bind_Ok in Hwindows as (sorted_frames & Hsorted & Hwindows).
  apply sorted_Permutation in Hsorted. apply Permutation_length in Hsorted.
  unfold candidate_windows in Hwindows. rewrite range_from_0 in Hwindows by done.
  cbn [mbind result_bind] in Hwindows. injection Hwindows as <-.
  rewrite !length_fmap, length_seqZ, Hsorted.
  replace (Z.of_nat (length frames) - window_size self + 1 - 1)
    with (Z.of_nat (length frames) - window_size self) by lia.
  lia.
Qed.

Lemma per_video_length self grouped per_video :
  1 ≤ window_size self → 1 ≤ stride self →
  comprehension (λ entry : string * list Frame, video_windows self entry.2) grouped
  = Ok per_video →
  Z.of_nat (length (concat per_video))
  = foldr Z.add 0
      ((λ entry : string * list Frame,
          Z.max 0 ((Z.of_nat (length entry.2) - window_size self)
                   `div` stride self + 1)) <$> grouped).
Proof.
  intros Hw Hs. revert per_video.
  induction grouped as [|entry grouped IH]; intros per_video; simpl.
  - by intros [= <-].
  - intros Hall. apply bind_Ok in Hall as (windows & Hwindows & Hall).
    apply bind_Ok in Hall as (rest & Hrest & Hall). injection Hall as <-.
    simpl. rewrite length_app, Nat2Z.inj_add, (IH _ Hrest).
    by rewrite (video_windows_length _ _ _ Hw Hs Hwindows).
Qed.

(** X21. The length of a dataset constructed without strict validation
    and without balancing, for [window_size ≥ 1] and [stride ≥ 1]: the
    sum, over the videos of the data frame, of
    [max(0, (L - window_size) // stride + 1)] with [L] the number of rows
    of the video. *)
Theorem permissive_dataset_length `{Pandas} `{PyRandom} (csv : list Row)
    (seed w s : Z) (used : string) (n : Z) (md : string) (g g' : rng)
    (self : Dataset) :
  __init__ csv seed w s used n false true md g = Ok (self, g') →
  1 ≤ w → 1 ≤ s →
  __len__ self
  = foldr Z.add 0
      ((λ video,
          let L := Z.of_nat (length (filter (λ r, Video_name r = video)
                                            (data_frame self))) in
          Z.max 0 ((L - w) `div` s + 1))
         <$> drop_duplicates (Video_name <$> data_frame self)).
Proof.
  intros Hinit Hw Hs.
  destruct (init_population _ _ _ _ _ _ _ _ _ _ _ _ Hinit)
    as (built & Hbuilt & _ & _ & _ & _ & Hdf & _ & _ & Hsame).
  unfold __len__. rewrite Hsame, Hdf by done. clear Hinit Hsame Hdf.
  unfold build_sequences in Hbuilt.
  apply bind_Ok in Hbuilt as (df & _ & Hcreate).
  rewrite create_sequences_permissive in Hcreate by done.
  apply bind_Ok in Hcreate as (per_video & Hall & Hcreate).
  injection Hcreate as <-. cbn [video_sequences data_frame with_video_sequences app] in *.
  pose proof (λ Hw' Hs', per_video_length _ _ _ Hw' Hs' Hall) as Hlen.
  cbn [window_size stride] in Hlen. rewrite (Hlen Hw Hs).
  rewrite <- group_rows_keys, <- list_fmap_compose. f_equal.
  apply list_fmap_ext. intros i [v frames] Hentry.
  apply list_elem_of_lookup_2 in Hentry.
  apply (proj2 (group_rows_filter df)) in Hentry as ->.
  cbn [compose fst snd]. by rewrite length_fmap.
Qed.

Lemma permissive_dataset_length_witness :
  __len__ (demo_built 42 3 1 true)
  = foldr Z.add 0
      ((λ video,
          let L := Z.of_nat (length (filter (λ r, Video_name r = video)
                                            (data_frame (demo_built 42 3 1 true)))) in
          Z.max 0 ((L - 3) `div` 1 + 1))
         <$> drop_duplicates (Video_name <$> data_frame (demo_built 42 3 1 true))).
Proof.
  apply (@permissive_dataset_length rotating_pandas lcg_random demo_csv 42 3 1
           "Train" 0 "image_seq" 7 7).
  - vm_compute. reflexivity.
  - lia.
  - lia.
Defined.

(** * Configuration values *)

Section config.
Context `{config_args.Library}.

Lemma override_lookup (args : list (string * option config_args.value))
    (defaults : gmap string config_args.value) (key : string) :
  NoDup args.*1 →
  foldl config_args.override defaults args !! key
  = match (list_to_map args : gmap string (option config_args.value)) !! key with
    | Some (Some v) => Some v
    | _ => defaults !! key
    end.
Proof.
  revert defaults. induction args as [|[k v] args IH]; intros defaults Hnodup.
  - simpl. by rewrite lookup_empty.
  - rewrite fmap_cons in Hnodup. apply NoDup_cons in Hnodup as [Hfresh Hnodup].
    cbn [foldl]. rewrite IH by done. cbn [list_to_map foldr].
    destruct (decide (key = k)) as [->|Hne].
    + rewrite lookup_insert_eq.
      rewrite (not_elem_of_list_to_map_1 _ k) by done.
      unfold config_args.override. destruct v as [v|]; simpl; [|done].
      by rewrite lookup_insert_eq.
    + rewrite lookup_insert_ne by done.
      replace (config_args.override defaults (k, v) !! key) with (defaults !! key);
        [done|].
      unfold config_args.override. destruct v as [v|]; simpl; [|done].
      by rewrite lookup_insert_ne.
Qed.

Lemma parse_args_lookup (given : string → option string)
    (declared : list (string * config_args.converter))
    (args : list (string * option config_args.value)) (key : string) :
  mapM (config_args.parse_argument given) declared = Some args →
  args.*1 = declared.*1
  ∧ (list_to_map args : gmap string (option config_args.value)) !! key
    = (λ c, x ← given key; config_args.convert c x)
        <$> (list_to_map declared : gmap string config_args.converter) !! key
  ∧ ∀ c x, (list_to_map declared : gmap string config_args.converter) !! key = Some c →
           given key = Some x → is_Some (config_args.convert c x).
Proof.
  revert args. induction declared as [|[k c] declared IH]; intros args; simpl.
  - intros [= <-]. split_and!; [done|by rewrite !lookup_empty|].
    intros c x. by rewrite lookup_empty.
  - intros Hargs. apply bind_Some in Hargs as (entry & Hentry & Hargs).
    apply bind_Some in Hargs as (rest & Hrest & Hargs). injection Hargs as <-.
    destruct (IH _ Hrest) as (Hkeys & Hlookup & Hsome).
    unfold config_args.parse_argument in Hentry. cbn [fst snd] in Hentry.
    assert (Hfirst : entry = (k, x ← given k; config_args.convert c x)
                     ∧ ∀ x, given k = Some x → is_Some (config_args.convert c x)).
    { destruct (given k) as [x|]; simpl in *.
      - apply bind_Some in Hentry as (v & Hv & Hentry). injection Hentry as <-.
        rewrite Hv. split; [done|]. intros ? [= <-]. by rewrite Hv.
      - injection Hentry as <-. split; [done|]. by intros. }
    destruct Hfirst as [-> Hfirst]. split_and!.
    + by rewrite !fmap_cons, Hkeys.
    + cbn [list_to_map foldr]. destruct (decide (key = k)) as [->|Hne].
      * by rewrite !lookup_insert_eq.
      * by rewrite !lookup_insert_ne.
    + intros c' x. destruct (decide (key = k)) as [->|Hne].
      * rewrite lookup_insert_eq. intros [= <-]. apply Hfirst.
      * rewrite lookup_insert_ne by done. apply Hsome.
Qed.

Lemma arguments_NoDup : NoDup config_args.arguments.*1.
Proof. apply (bool_decide_unpack _). by vm_compute. Qed.

(** X22. A configuration that starts up answers, for every key: the
    converted text of the command line when the key is a declared
    argument that the command line gives, and otherwise what the
    configuration file (or the fallback) gives, which is nothing for a
    key outside the eleven of the dict. *)
Theorem command_line_overrides_file (given : string → option string)
    (self : gmap string config_args.value) :
  config_args.__init__ given = Ok (Some self) →
  ∃ defaults,
    config_args.file_defaults = Ok defaults
    ∧ ∀ key,
        config_args.get self key
        = match (c ← (list_to_map config_args.arguments
                        : gmap string config_args.converter) !! key;
                 x ← given key; Some (c, x)) with
          | Some (c, x) => config_args.convert c x
          | None => (list_to_map defaults : gmap string config_args.value) !! key
          end.
Proof.
  unfold config_args.__init__. intros Hinit.
  apply bind_Ok in Hinit as (defaults & Hfile & Hinit). exists defaults.
  split; [done|]. intros key.
  destruct (config_args.parse_args given) as [args|] eqn:Hargs; [|done].
  injection Hinit as <-. unfold config_args.get.
  destruct (parse_args_lookup _ _ _ key Hargs) as (Hkeys & Hlookup & Hsome).
  rewrite override_lookup by (rewrite Hkeys; apply arguments_NoDup).
  rewrite Hlookup.
  destruct (list_to_map config_args.arguments !! key) as [c|] eqn:Hdeclared;
    simpl; [|done].
  destruct (given key) as [x|] eqn:Hgiven; simpl; [|done].
  by destruct (Hsome c x eq_refl eq_refl) as [v ->].
Qed.

Lemma file_defaults_keys (defaults : list (string * config_args.value)) :
  config_args.file_defaults = Ok defaults →
  defaults.*1 = ["multi_cpu"; "data_loader"; "window_size"; "stride"; "model_name";
                 "pretrained"; "batch_size"; "epochs"; "learning_rate";
                 "num_workers"; "image_size"].
Proof.
  unfold config_args.file_defaults. intros Hfile.
  repeat (apply bind_Ok in Hfile as (? & _ & Hfile)). by injection Hfile as <-.
Qed.

(** X23. Two keys have no value unless the command line gives them,
    [multi_gpu] and [num_classes]; and [--multi_gpu] stores the opposite
    of what it is given: [False] for [true] in any case of the letters,
    [True] for [false] only. *)
Theorem multi_gpu_inverted (given : string → option string)
    (self : gmap string config_args.value) :
  config_args.__init__ given = Ok (Some self) →
  (given "multi_gpu" = None → config_args.get self "multi_gpu" = None)
  ∧ (given "num_classes" = None → config_args.get self "num_classes" = None)
  ∧ ∀ x, given "multi_gpu" = Some x →
         config_args.get self "multi_gpu"
         = Some (config_args.Bool (bool_decide (config_args.lower x = "false")))
         ∧ (config_args.lower x = "true" →
            config_args.get self "multi_gpu" = Some (config_args.Bool false)).
Proof.
  unfold config_args.__init__. intros Hinit.
  apply bind_Ok in Hinit as (defaults & Hfile & Hinit).
  destruct (config_args.parse_args given) as [args|] eqn:Hargs; [|done].
  injection Hinit as <-. unfold config_args.get.
  apply file_defaults_keys in Hfile.
  assert (Hno : ∀ key, key ∉ defaults.*1 →
            (list_to_map defaults : gmap string config_args.value) !! key = None).
  { intros key Hkey. by apply not_elem_of_list_to_map_1. }
  rewrite Hfile in Hno.
  assert (Hget : ∀ key c,
            (list_to_map config_args.arguments
               : gmap string config_args.converter) !! key = Some c →
            foldl config_args.override (list_to_map defaults) args !! key
            = match given key with
              | Some x => config_args.convert c x
              | None => (list_to_map defaults : gmap string config_args.value) !! key
              end).
  { intros key c Hc.
    destruct (parse_args_lookup _ _ _ key Hargs) as (Hkeys & Hlookup & Hsome).
    rewrite override_lookup by (rewrite Hkeys; apply arguments_NoDup).
    rewrite Hlookup, Hc. simpl.
    destruct (given key) as [x|]; simpl; [|done].
    by destruct (Hsome c x Hc eq_refl) as [v ->]. }
  split_and!.
  - intros Hgiven. rewrite (Hget _ config_args.as_false) by reflexivity.
    rewrite Hgiven. apply Hno. apply (bool_decide_unpack _). reflexivity.
  - intros Hgiven. rewrite (Hget _ config_args.as_int) by reflexivity.
    rewrite Hgiven. apply Hno. apply (bool_decide_unpack _). reflexivity.
  - intros x Hgiven. rewrite (Hget _ config_args.as_false) by reflexivity.
    rewrite Hgiven. simpl. split; [done|].
    intros ->. reflexivity.
Qed.

End config.

Lemma command_line_overrides_file_witness :
  ∃ defaults,
    @config_args.file_defaults no_config_file = Ok defaults
    ∧ ∀ key,
        config_args.get demo_config key
        = match (c ← (list_to_map config_args.arguments
                        : gmap string config_args.converter) !! key;
                 x ← demo_command_line key; Some (c, x)) with
          | Some (c, x) => config_args.convert c x
          | None => (list_to_map defaults : gmap string config_args.value) !! key
          end.
Proof.
  apply (@command_line_overrides_file no_config_file demo_command_line demo_config).
  reflexivity.
Defined.

Lemma multi_gpu_inverted_witness :
  (demo_command_line "multi_gpu" = None → config_args.get demo_config "multi_gpu" = None)
  ∧ (demo_command_line "num_classes" = None
     → config_args.get demo_config "num_classes" = None)
  ∧ ∀ x, demo_command_line "multi_gpu" = Some x →
         config_args.get demo_config "multi_gpu"
         = Some (config_args.Bool (bool_decide (config_args.lower x = "false")))
         ∧ (config_args.lower x = "true" →
            config_args.get demo_config "multi_gpu" = Some (config_args.Bool false)).
Proof.
  apply (@multi_gpu_inverted no_config_file demo_command_line demo_config).
  reflexivity.
Defined.

(** * Strictly validated datasets *)

(** A window that the strict validator appends is coherent. *)
Lemma window_kept_coherent self sorted_frames acc start :
  multiple_phases self = false →
  window_body self sorted_frames acc start
  = Ok (acc ++ [slice sorted_frames start (start + window_size self)]) →
  coherent (λ p, phase_to_index self !! p)
           (slice sorted_frames start (start + window_size self)).
Proof.
  intros Hstrict Hbody.
  set (sequence := slice sorted_frames start (start + window_size self)) in *.
  set (X := distinct_phases sequence).
  assert (Hsize : length (elements X) = size X) by reflexivity.
  destruct (decide (2 < size X)%nat) as [Hmany|Hfew].
  { exfalso. revert Hbody. unfold window_body. rewrite Hstrict. fold sequence.
    change (list_to_set (phase <$> sequence)) with X.
    rewrite decide_True by lia. intros [= Heq]. symmetry in Heq.
    by apply app_singleton_ne in Heq. }
  destruct (decide (size X = 2%nat)) as [Htwo|Hnottwo]; [|left; fold X; lia].
  destruct (elements_two X) as (a & b & Hel & Hne & HX); [lia|].
  right. exists a, b. split_and!; [done|done|].
  destruct (phase_to_index self !! a) as [i|] eqn:Ha.
  - destruct (phase_to_index self !! b) as [j|] eqn:Hb.
    + rewrite (window_body_two self sorted_frames acc start a b i j) in Hbody by done.
      case_decide as Hadj; [by exists i, j|].
      injection Hbody as Heq. symmetry in Heq. by apply app_singleton_ne in Heq.
    + exfalso. revert Hbody. unfold window_body. rewrite Hstrict.
      fold sequence. change (list_to_set (phase <$> sequence)) with X.
      rewrite Hel. simpl. unfold getitem. rewrite Ha. simpl. by rewrite Hb.
  - exfalso. revert Hbody. unfold window_body. rewrite Hstrict.
    fold sequence. change (list_to_set (phase <$> sequence)) with X.
    rewrite Hel. simpl. unfold getitem. by rewrite Ha.
Qed.

Lemma create_sequences_coherent self self' :
  multiple_phases self = false →
  Forall (coherent (λ p, phase_to_index self !! p)) (video_sequences self) →
  _create_sequences self = Ok self' →
  Forall (coherent (λ p, phase_to_index self !! p)) (video_sequences self').
Proof.
  intros Hstrict Hinit Hcreate. unfold _create_sequences in Hcreate.
  apply bind_Ok in Hcreate as (vs & Hloop & Hcreate). injection Hcreate as <-.
  simpl. eapply for_loop_invariant; [|exact Hinit|exact Hloop].
  intros acc [v frames] acc' _ Hacc Hbody. unfold video_body in Hbody.
  apply bind_Ok in Hbody as (sorted_frames & _ & Hbody).
  apply bind_Ok in Hbody as (starts & _ & Hbody).
  eapply for_loop_invariant; [|exact Hacc|exact Hbody].
  intros acc1 start acc2 _ Hacc1 Hwin.
  destruct (window_body_cases _ _ _ _ _ Hwin) as [->| ->]; [done|].
  apply Forall_app. split; [done|]. constructor; [|done].
  by apply (window_kept_coherent self sorted_frames acc1).
Qed.

Lemma built_coherent `{Pandas} csv seed w s used n md built :
  build_sequences csv seed w s used n false md = Ok built →
  Forall (coherent (λ p, phase_to_index built !! p)) (video_sequences built).
Proof.
  unfold build_sequences. intros Hbuilt.
  apply bind_Ok in Hbuilt as (df & _ & Hcreate).
  pose proof (create_sequences_fields _ _ Hcreate) as [vs Hfields].
  eapply create_sequences_coherent in Hcreate; [|done|by constructor].
  rewrite Hfields in Hcreate |- *. exact Hcreate.
Qed.

(** X24. Every window of a dataset constructed with
    [multiple_phases=False], balanced or not, holds frames of one phase
    only, or of exactly two phases whose indices in [phase_to_index]
    differ by one. *)
Theorem strict_dataset_coherent `{Pandas} `{PyRandom} (csv : list Row)
    (seed w s : Z) (used : string) (n : Z) (balance : bool) (md : string)
    (g g' : rng) (self : Dataset) :
  __init__ csv seed w s used n balance false md g = Ok (self, g') →
  Forall (coherent (λ p, phase_to_index self !! p)) (video_sequences self).
Proof.
  intros Hinit.
  destruct (init_population _ _ _ _ _ _ _ _ _ _ _ _ Hinit)
    as (built & Hbuilt & _ & _ & _ & _ & _ & Hindex & Hsub & _).
  rewrite Hindex. apply Forall_forall. intros seq Hseq. apply Hsub in Hseq.
  revert seq Hseq. apply Forall_forall. by eapply built_coherent.
Qed.

Lemma strict_dataset_coherent_witness :
  Forall (coherent (λ p, phase_to_index (demo_dataset 42 7).1 !! p))
         (video_sequences (demo_dataset 42 7).1).
Proof.
  apply (@strict_dataset_coherent rotating_pandas lcg_random demo_csv 42 3 1
           "Train" 0 true "image_seq" 7 (demo_dataset 42 7).2).
  vm_compute. reflexivity.
Defined.

Lemma coherent_ends self (i j : nat) sequence :
  coherent (λ p, phase_to_index self !! p) sequence →
  ends_in self i j sequence →
  (i ≤ j + 1 ∧ j ≤ i + 1)%nat.
Proof.
  intros Hcoherent [Hfirst Hlast].
  destruct (head sequence) as [first_frame|] eqn:Hhead; [|done].
  destruct (last sequence) as [last_frame|] eqn:Hend; [|done].
  simpl in Hfirst, Hlast.
  assert (Hin1 : phase first_frame ∈ distinct_phases sequence).
  { unfold distinct_phases. apply elem_of_list_to_set, list_elem_of_fmap.
    exists first_frame. split; [done|]. by apply head_Some_elem_of. }
  assert (Hin2 : phase last_frame ∈ distinct_phases sequence).
  { unfold distinct_phases. apply elem_of_list_to_set, list_elem_of_fmap.
    exists last_frame. split; [done|]. by apply last_Some_elem_of. }
  destruct Hcoherent as [Hone|(p & q & Hpq & HX & i' & j' & Hi' & Hj' & Hadj)].
  - destruct (decide (phase first_frame = phase last_frame)) as [Heq|Hne].
    + rewrite Heq in Hfirst. assert (i = j) by congruence. lia.
    + exfalso.
      assert (Hsub : ({[phase first_frame; phase last_frame]} : gset string)
                     ⊆ distinct_phases sequence) by set_solver.
      apply subseteq_size in Hsub. rewrite size_pair in Hsub by done. lia.
  - rewrite HX in Hin1, Hin2.
    assert (Hcases1 : phase first_frame = p ∨ phase first_frame = q) by set_solver.
    assert (Hcases2 : phase last_frame = p ∨ phase last_frame = q) by set_solver.
    destruct Hcases1 as [H1|H1], Hcases2 as [H2|H2];
      rewrite H1 in Hfirst; rewrite H2 in Hlast;
      simpl in *; simplify_eq; lia.
Qed.

(** X25. The transition matrix of a dataset constructed with
    [multiple_phases=False] is tridiagonal: a cell whose row and column
    differ by more than one is zero, since no window starts and ends in
    phases that far apart. *)
Theorem strict_matrix_tridiagonal `{Pandas} `{PyRandom} (csv : list Row)
    (seed w s : Z) (used : string) (n : Z) (balance : bool) (md : string)
    (g g' : rng) (self : Dataset) :
  __init__ csv seed w s used n balance false md g = Ok (self, g') →
  ∃ matrix,
    _print_transition_matrix self = Ok matrix
    ∧ ∀ (i j : nat) c, cell matrix i j = Some c → (j + 1 < i ∨ i + 1 < j)%nat → c = 0.
Proof.
  intros Hinit.
  destruct (init_reports _ _ _ _ _ _ _ _ _ _ _ _ Hinit)
    as (counts & matrix & _ & Hmatrix).
  exists matrix. split; [done|]. intros i j c Hcell Hfar.
  assert (Hcoherent : Forall (coherent (λ p, phase_to_index self !! p))
                             (video_sequences self)).
  { destruct (init_population _ _ _ _ _ _ _ _ _ _ _ _ Hinit)
      as (built & Hbuilt & _ & _ & _ & _ & _ & Hindex & Hsub & _).
    rewrite Hindex. apply Forall_forall. intros seq Hseq. apply Hsub in Hseq.
    revert seq Hseq. apply Forall_forall. by eapply built_coherent. }
  unfold _print_transition_matrix in Hmatrix.
  destruct (matrix_loop _ _ _ _ (length (phase_labels self))
              (length_replicate _ _)
              (Forall_replicate _ _ _ (length_replicate _ _)) Hmatrix)
    as (_ & _ & Hcells).
  rewrite Hcells in Hcell.
  rewrite (filter_none (ends_in self i j)) in Hcell.
  - destruct (cell (replicate (length (phase_labels self))
                              (replicate (length (phase_labels self)) 0)) i j)
      as [c0|] eqn:Hzero; [|done].
    simpl in Hcell. injection Hcell as <-. unfold cell in Hzero.
    destruct (replicate (length (phase_labels self))
                        (replicate (length (phase_labels self)) 0) !! i)
      as [row|] eqn:Hrow; [|done].
    apply lookup_replicate in Hrow as [-> _]. simpl in Hzero.
    apply lookup_replicate in Hzero as [-> _]. lia.
  - eapply Forall_impl; [exact Hcoherent|]. intros seq Hc Hends.
    pose proof (coherent_ends _ _ _ _ Hc Hends). lia.
Qed.

Lemma strict_matrix_tridiagonal_witness :
  ∃ matrix,
    _print_transition_matrix (demo_dataset 42 7).1 = Ok matrix
    ∧ ∀ (i j : nat) c, cell matrix i j = Some c → (j + 1 < i ∨ i + 1 < j)%nat → c = 0.
Proof.
  apply (@strict_matrix_tridiagonal rotating_pandas lcg_random demo_csv 42 3 1
           "Train" 0 true "image_seq" 7 (demo_dataset 42 7).2).
  vm_compute. reflexivity.
Defined.
